(** * speedtest-ambient: address discovery, route sieve and reporting

    A shallow embedding of [src/speedtest_ambient/main.py] and the
    properties of its address pipeline
    ([_separate_family], [_sieve_addresses_family], [_sieve_addresses],
    [_get_ip_addresses]) and of its reporting step
    ([_SpeedTestResult.to_ambient], [_ambient]).

    Conventions of the embedding:
    - Python [str] is [string] (ASCII, as [ip] prints it); the value [None]
      that [dict.get] returns for a missing key is [None : option string].
    - A [dict] read with [.get] is a [gmap string string].
    - A generator is represented by the record of one full enumeration:
      the external commands it ran, the items it yielded, and how it ended
      (normally, or with an exception raised after the items yielded so far).
    - External programs are a function from the argument vector to the
      captured standard output, [None] when [subprocess.run(check=True)]
      raises. *)

From Stdlib Require Import ZArith Ascii String List Bool Lia.
From Stdlib Require Import Floats.SpecFloat.
From stdpp Require Import base option list strings pretty gmap.

Local Open Scope string_scope.
Local Open Scope list_scope.

(** ** Strings as lists of characters *)

Definition chars (s : string) : list ascii := list_ascii_of_string s.

(** [tok] occurs somewhere in [s]. *)
Fixpoint contains (tok s : list ascii) : bool :=
  bool_decide (tok `prefix_of` s) ||
  match s with
  | [] => false
  | _ :: s' => contains tok s'
  end.

(** ** The search pattern [\b{address}\b] under [re.VERBOSE] *)

Module Re.

(** The pattern elements an address can contribute. A dot is the regular
    expression wildcard, because the address is interpolated into the
    pattern as it is; a printable character that is no operator of the
    pattern language stands for itself. *)
Inductive atom : Type :=
| Lit (c : ascii)
| AnyChar.

Definition in_range (lo hi : N) (c : ascii) : bool :=
  let n := N_of_ascii c in (lo <=? n)%N && (n <=? hi)%N.

(** [\w] on ASCII text: [[a-zA-Z0-9_]]. *)
Definition is_word (c : ascii) : bool :=
  in_range 48 57 c || in_range 65 90 c || in_range 97 122 c
  || Ascii.eqb c "_".

Definition newline : ascii := "010"%char.

(** One pattern element against one character of the text. [.] matches any
    character except a newline (no [re.DOTALL]). *)
Definition atom_ok (a : atom) (c : ascii) : bool :=
  match a with
  | Lit d => Ascii.eqb c d
  | AnyChar => negb (Ascii.eqb c newline)
  end.

(** The characters that the pattern language reads as operators
    ([sre_parse.SPECIAL_CHARS]), and [#], which starts a comment under
    [re.VERBOSE]. *)
Definition special (c : ascii) : bool :=
  existsb (Ascii.eqb c) (chars ".\[{()*+?^$|#").

(** A printable character other than these stands for itself. Operators,
    [#], blanks (which [re.VERBOSE] skips), control characters and
    characters beyond ASCII are not covered: [compile] answers [None] for
    an address that contains one. *)
Definition atom_of_char (c : ascii) : option atom :=
  if Ascii.eqb c "." then Some AnyChar
  else if in_range 33 126 c && negb (special c) then Some (Lit c)
  else None.

Fixpoint compile (address : list ascii) : option (list atom) :=
  match address with
  | [] => Some []
  | c :: rest =>
      match atom_of_char c, compile rest with
      | Some a, Some atoms => Some (a :: atoms)
      | _, _ => None
      end
  end.

Definition word_opt (c : option ascii) : bool :=
  match c with Some c => is_word c | None => false end.

(** [\b]: exactly one of the two neighbours is a word character; the start
    and the end of the text count as non-word. *)
Definition word_boundary (before after : option ascii) : bool :=
  xorb (word_opt before) (word_opt after).

(** The atoms consume one character each, so a match that starts at a given
    position is unique: no backtracking is needed. The result is the last
    character consumed and the rest of the text. *)
Fixpoint match_atoms (atoms : list atom) (prev : option ascii)
    (s : list ascii) : option (option ascii * list ascii) :=
  match atoms with
  | [] => Some (prev, s)
  | a :: atoms' =>
      match s with
      | [] => None
      | c :: s' => if atom_ok a c then match_atoms atoms' (Some c) s' else None
      end
  end.

Definition match_here (atoms : list atom) (prev : option ascii)
    (s : list ascii) : bool :=
  word_boundary prev (head s) &&
  match match_atoms atoms prev s with
  | Some (prev', s') => word_boundary prev' (head s')
  | None => false
  end.

(** [re.search] tries every start position, the end of the text included.
    [prev] is the character before the current position. *)
Fixpoint search_from (atoms : list atom) (prev : option ascii)
    (s : list ascii) : bool :=
  match_here atoms prev s ||
  match s with
  | [] => false
  | c :: s' => search_from atoms (Some c) s'
  end.

(** [re.search(rf"\b{address}\b", text, re.VERBOSE) is not None], for an
    address made of covered characters. For any other address the answer
    is [None], which the sieve reads as [re.error]: what Python does with
    such an address (an error for some, a match by the meaning of the
    operators for others) is outside this model, and the statements about
    this search take covered addresses. *)
Definition search (address text : string) : option bool :=
  match compile (chars address) with
  | Some atoms => Some (search_from atoms None (chars text))
  | None => None
  end.

(** The test the specification words describe: the address compared
    character for character, with a word boundary on each side. It is the
    search above with every character, the dot included, standing for
    itself (what [re.escape] would give). *)
Definition search_literal (address text : string) : bool :=
  search_from (map Lit (chars address)) None (chars text).

(** Position-wise description of a match, used to reason about
    [search_from]. *)
Definition char_before (prev : option ascii) (s : list ascii) (q : nat)
    : option ascii :=
  match q with
  | O => prev
  | S q' => s !! q'
  end.

Definition boundary_at (prev : option ascii) (s : list ascii) (q : nat)
    : bool :=
  word_boundary (char_before prev s q) (s !! q).

Definition atoms_at (atoms : list atom) (s : list ascii) (q : nat) : Prop :=
  ∀ k a, atoms !! k = Some a →
         ∃ c, s !! (q + k)%nat = Some c ∧ atom_ok a c = true.

Definition occurs_at (atoms : list atom) (prev : option ascii)
    (s : list ascii) (q : nat) : Prop :=
  boundary_at prev s q = true ∧ atoms_at atoms s q ∧
  boundary_at prev s (q + length atoms) = true.

End Re.

(** [tok] stands in the text [pre ++ tok ++ post] with a word boundary on
    each side. *)
Definition token_between (pre tok post : string) : Prop :=
  Re.word_boundary (last (chars pre)) (head (chars tok ++ chars post)) = true
  ∧ Re.word_boundary (last (chars pre ++ chars tok)) (head (chars post))
    = true.

(** ** Exceptions, generators and external commands *)

Inductive exn : Type :=
| CalledProcessError (args : list string)
| ReError (pattern : string)
| JSONDecodeError
| OverflowError
| StopIteration
| HTTPError.

(** One full enumeration of a generator: [ending = None] when it was
    exhausted, [Some e] when [e] was raised after [yielded]. *)
Record run (A : Type) : Type := Run {
  calls : list (list string);
  yielded : list A;
  ending : option exn
}.
Arguments Run {A} _ _ _.
Arguments calls {A} _.
Arguments yielded {A} _.
Arguments ending {A} _.

(** [subprocess.run(args, capture_output=True, check=True, text=True)]:
    the standard output, or [None] when it raises. *)
Definition host : Type := list string → option string.

Definition gen_return {A} : run A := Run [] [] None.

Definition gen_raise {A} (e : exn) : run A := Run [] [] (Some e).

Definition gen_yield {A} (x : A) (k : run A) : run A :=
  Run (calls k) (x :: yielded k) (ending k).

(** [p = _command(...)] followed by the rest of the body [k]. *)
Definition _command {A} (h : host) (args : list string)
    (k : string → run A) : run A :=
  match h args with
  | None => Run [args] [] (Some (CalledProcessError args))
  | Some stdout => let r := k stdout in Run (args :: calls r) (yielded r) (ending r)
  end.

(** [yield from g] followed by the rest of the body [k]. *)
Definition yield_from {A} (g k : run A) : run A :=
  match ending g with
  | Some _ => g
  | None => Run (calls g ++ calls k) (yielded g ++ yielded k) (ending k)
  end.

(** ** Address discovery *)

Definition _GLOBAL_V4_ADDRESS : string := "192.0.2.0".
Definition _GLOBAL_V6_ADDRESS : string := "2001:db8::".

(** What the f-string puts into the pattern for a candidate. *)
Definition format_value (address : option string) : string :=
  match address with
  | Some s => s
  | None => "None"
  end.

(** The [for address in addresses] loop of [_sieve_addresses_family].
    [search pattern text] is [re.search] with the pattern built from the
    candidate: [Some true] for a match, [Some false] for none, [None] when
    it raises [re.error]. *)
Fixpoint sieve_loop (search : string → string → option bool)
    (stdout : string) (addresses : list (option string))
    : run (option string) :=
  match addresses with
  | [] => gen_return
  | address :: rest =>
      match search (format_value address) stdout with
      | None => gen_raise (ReError (format_value address))
      | Some true => gen_yield address (sieve_loop search stdout rest)
      | Some false => sieve_loop search stdout rest
      end
  end.

Definition route_get_args (v4 : bool) : list string :=
  ["ip"; "route"; "get";
   if v4 then _GLOBAL_V4_ADDRESS else _GLOBAL_V6_ADDRESS].

Definition _sieve_addresses_family (search : string → string → option bool)
    (h : host) (addresses : list (option string)) (v4 : bool)
    : run (option string) :=
  match addresses with
  | [] => gen_return
  | _ :: _ =>
      _command h (route_get_args v4)
        (λ stdout, sieve_loop search stdout addresses)
  end.

Definition _sieve_addresses (search : string → string → option bool)
    (h : host) (v4addresses v6addresses : list (option string))
    : run (option string) :=
  yield_from (_sieve_addresses_family search h v4addresses true)
    (_sieve_addresses_family search h v6addresses false).

(** The [for addr_info in addr_infos] loop of [_separate_family]; the two
    accumulators are the lists being appended to. The capture pattern
    [addr] binds whatever [.get("local")] returned. *)
Fixpoint separate_loop (addr_infos : list (gmap string string))
    (v4addresses v6addresses : list (option string))
    : list (option string) * list (option string) :=
  match addr_infos with
  | [] => (v4addresses, v6addresses)
  | addr_info :: rest =>
      let addr := addr_info !! "local" in
      if decide (addr_info !! "family" = Some "inet") then
        separate_loop rest (v4addresses ++ [addr]) v6addresses
      else if decide (addr_info !! "family" = Some "inet6") then
        separate_loop rest v4addresses (v6addresses ++ [addr])
      else separate_loop rest v4addresses v6addresses
  end.

Definition _separate_family (addr_infos : list (gmap string string))
    : list (option string) * list (option string) :=
  separate_loop addr_infos [] [].

(** An interface object of the listing; only its [addr_info] key is read. *)
Record interface : Type := Interface {
  addr_info : option (list (gmap string string))
}.

(** [methodcaller("get", "addr_info", [])]. *)
Definition aigetter (i : interface) : list (gmap string string) :=
  default [] (addr_info i).

Definition address_show_args : list string :=
  ["ip"; "--json"; "address"; "show"; "scope"; "global"].

(** [json_loads] is [json.loads] on the listing, [None] when it raises. *)
Definition _get_ip_addresses (search : string → string → option bool)
    (json_loads : string → option (list interface)) (h : host)
    : run (option string) :=
  _command h address_show_args (λ stdout,
    match json_loads stdout with
    | None => gen_raise JSONDecodeError
    | Some ifs =>
        let '(v4addresses, v6addresses) :=
          _separate_family (concat (map aigetter ifs)) in
        _sieve_addresses search h v4addresses v6addresses
    end).

(** *** Vocabulary for the statements about discovery *)

(** The candidates of a family that the pattern finds in the route text,
    in their order. *)
Definition survivors (search : string → string → option bool)
    (text : string) (addresses : list (option string))
    : list (option string) :=
  filter (λ a, search (format_value a) text = Some true) addresses.

(** How many times a command was run. *)
Definition count_of (args : list string) (l : list (list string)) : nat :=
  length (filter (λ y, y = args) l).

Definition has_family (fam : string) (addr_info : gmap string string)
    : Prop :=
  addr_info !! "family" = Some fam.

Global Instance has_family_dec fam addr_info :
  Decision (has_family fam addr_info).
Proof. unfold has_family. apply _. Defined.

(** The [local] values of the entries of one family, as read. *)
Definition locals_of (fam : string) (addr_infos : list (gmap string string))
    : list (option string) :=
  (λ addr_info, addr_info !! "local") <$> filter (has_family fam) addr_infos.

(** The classification the specification words describe: an entry counts
    for a family when its tag is that family and its local address is
    present and not empty. *)
Definition spec_usable_locals (fam : string)
    (addr_infos : list (gmap string string)) : list string :=
  omap (λ addr_info,
          if decide (has_family fam addr_info) then
            match addr_info !! "local" with
            | Some s => if decide (s = "") then None else Some s
            | None => None
            end
          else None) addr_infos.

(** A host that answers the three commands of the pipeline. *)
Definition host_of_routes (listing route4 route6 : option string) : host :=
  λ args,
    if decide (args = address_show_args) then listing
    else if decide (args = route_get_args true) then route4
    else if decide (args = route_get_args false) then route6
    else None.

(** An address entry with its family and, when given, its local address. *)
Definition entry (fam : string) (loc : option string) : gmap string string :=
  match loc with
  | Some s => {[ "family" := fam; "local" := s ]}
  | None => {[ "family" := fam ]}
  end.

Definition newline_string : string := String Re.newline "".

(** What [ip route get 192.0.2.0] prints on a host whose route leaves
    through 192.168.111.7. *)
Definition route_text_111 : string :=
  "192.0.2.0 via 192.168.111.254 dev eth1 src 192.168.111.7 uid 1000 "
  +:+ newline_string +:+ "    cache " +:+ newline_string.

(** ** The library pieces used by [to_ambient] *)

(** [datetime]: the proleptic Gregorian arithmetic of the standard library
    ([_ymd2ord], [_ord2ymd]) on an aware [datetime], whose offset from UTC
    is a whole number of seconds. *)
Module Datetime.
Local Open Scope Z_scope.

Record datetime : Type := Make {
  year : Z; month : Z; day : Z;
  hour : Z; minute : Z; second : Z; microsecond : Z;
  utcoffset : Z
}.

Definition _MAXORDINAL : Z := 3652059.

Definition _is_leap (y : Z) : bool :=
  (y mod 4 =? 0) && (negb (y mod 100 =? 0) || (y mod 400 =? 0)).

Definition _days_before_year (y : Z) : Z :=
  let y := y - 1 in y * 365 + y / 4 - y / 100 + y / 400.

Definition _DAYS_IN_MONTH (m : Z) : Z :=
  match m with
  | 1 => 31 | 2 => 28 | 3 => 31 | 4 => 30 | 5 => 31 | 6 => 30
  | 7 => 31 | 8 => 31 | 9 => 30 | 10 => 31 | 11 => 30 | 12 => 31
  | _ => -1
  end.

Definition _DAYS_BEFORE_MONTH (m : Z) : Z :=
  match m with
  | 1 => 0 | 2 => 31 | 3 => 59 | 4 => 90 | 5 => 120 | 6 => 151
  | 7 => 181 | 8 => 212 | 9 => 243 | 10 => 273 | 11 => 304 | 12 => 334
  | _ => -1
  end.

Definition _days_before_month (y m : Z) : Z :=
  _DAYS_BEFORE_MONTH m + (if (2 <? m) && _is_leap y then 1 else 0).

Definition _ymd2ord (y m d : Z) : Z :=
  _days_before_year y + _days_before_month y m + d.

Definition _DI400Y : Z := 146097.
Definition _DI100Y : Z := 36524.
Definition _DI4Y : Z := 1461.

Definition _ord2ymd (n : Z) : Z * Z * Z :=
  let n := n - 1 in
  let n400 := n / _DI400Y in let n := n mod _DI400Y in
  let y := n400 * 400 + 1 in
  let n100 := n / _DI100Y in let n := n mod _DI100Y in
  let n4 := n / _DI4Y in let n := n mod _DI4Y in
  let n1 := n / 365 in let n := n mod 365 in
  let y := y + n100 * 100 + n4 * 4 + n1 in
  if (n1 =? 4) || (n100 =? 4) then (y - 1, 12, 31)
  else
    let leapyear := (n1 =? 3) && (negb (n4 =? 24) || (n100 =? 3)) in
    let m := Z.shiftr (n + 50) 5 in
    let preceding :=
      _DAYS_BEFORE_MONTH m + (if (2 <? m) && leapyear then 1 else 0) in
    if n <? preceding then
      let m := m - 1 in
      let preceding :=
        preceding
        - (_DAYS_IN_MONTH m + (if (m =? 2) && leapyear then 1 else 0)) in
      (y, m, n - preceding + 1)
    else (y, m, n - preceding + 1).

(** [t + timedelta(seconds=delta)], the time zone kept; [None] is
    [OverflowError]. *)
Definition add_seconds (t : datetime) (delta : Z) : option datetime :=
  let total := hour t * 3600 + minute t * 60 + second t + delta in
  let days := _ymd2ord (year t) (month t) (day t) + total / 86400 in
  let secs := total mod 86400 in
  if (0 <? days) && (days <=? _MAXORDINAL) then
    let '(y, m, d) := _ord2ymd days in
    Some (Make y m d (secs / 3600) (secs mod 3600 / 60) (secs mod 60)
            (microsecond t) (utcoffset t))
  else None.

Definition replace_tzinfo (t : datetime) (offset : Z) : datetime :=
  Make (year t) (month t) (day t) (hour t) (minute t) (second t)
    (microsecond t) offset.

(** [t.astimezone(timezone(timedelta(seconds=offset)))]: first to UTC,
    then [fromutc]. *)
Definition astimezone (t : datetime) (offset : Z) : option datetime :=
  match add_seconds t (- utcoffset t) with
  | None => None
  | Some utc => add_seconds (replace_tzinfo utc offset) offset
  end.

Definition digit (n : Z) : ascii :=
  ascii_of_N (48 + Z.to_N (n mod 10)).

Definition pad2 (n : Z) : string :=
  String (digit (n / 10)) (String (digit n) "").

Definition pad3 (n : Z) : string := String (digit (n / 100)) (pad2 n).

Definition pad4 (n : Z) : string := String (digit (n / 1000)) (pad3 n).

(** [%Y] as the C library of the hosts that have the [ip] command prints
    it: the plain decimal year (1 to 9999), four digits from year 1000
    on. *)
Definition year_string (y : Z) : string :=
  if y <? 10 then String (digit y) ""
  else if y <? 100 then pad2 y
  else if y <? 1000 then pad3 y
  else pad4 y.

(** [t.strftime("%Y-%m-%d %H:%M:%S")]. *)
Definition strftime (t : datetime) : string :=
  year_string (year t) +:+ "-" +:+ pad2 (month t) +:+ "-" +:+ pad2 (day t)
  +:+ " " +:+ pad2 (hour t) +:+ ":" +:+ pad2 (minute t) +:+ ":"
  +:+ pad2 (second t).

(** *** Vocabulary for the statements about dates *)

(** Seconds since 0001-01-01T00:00:00 UTC: the instant a datetime
    denotes. *)
Definition utc_seconds (t : datetime) : Z :=
  (_ymd2ord (year t) (month t) (day t) - 1) * 86400
  + hour t * 3600 + minute t * 60 + second t - utcoffset t.

Definition leap_day (cond : bool) : Z := if cond then 1 else 0.

Definition days_in_month (y m : Z) : Z :=
  _DAYS_IN_MONTH m + leap_day ((m =? 2) && _is_leap y).

(** The fields are those of a calendar date and a time of day. *)
Definition well_formed (t : datetime) : Prop :=
  1 <= year t <= 9999 ∧ 1 <= month t <= 12 ∧
  1 <= day t <= days_in_month (year t) (month t) ∧
  0 <= hour t < 24 ∧ 0 <= minute t < 60 ∧ 0 <= second t < 60.

(** The month and day of the [r]-th day (from 0) of a year: the tail of
    [_ord2ymd]. *)
Definition month_day (r : Z) (leapyear : bool) : Z * Z :=
  let m := Z.shiftr (r + 50) 5 in
  let preceding :=
    _DAYS_BEFORE_MONTH m + (if (2 <? m) && leapyear then 1 else 0) in
  if r <? preceding then
    let m := m - 1 in
    let preceding :=
      preceding
      - (_DAYS_IN_MONTH m + (if (m =? 2) && leapyear then 1 else 0)) in
    (m, r - preceding + 1)
  else (m, r - preceding + 1).

Definition month_day_ok (leapyear : bool) (r : Z) : bool :=
  let '(m, d) := month_day r leapyear in
  (1 <=? m) && (m <=? 12) && (1 <=? d)
  && (d <=? _DAYS_IN_MONTH m + leap_day ((m =? 2) && leapyear))
  && (_DAYS_BEFORE_MONTH m + leap_day ((2 <? m) && leapyear) + d =? r + 1).

Definition digit_value (c : ascii) : option Z :=
  if Re.in_range 48 57 c then Some (Z.of_N (N_of_ascii c) - 48) else None.

Fixpoint number (cs : list ascii) (acc : Z) : option Z :=
  match cs with
  | [] => Some acc
  | c :: cs' =>
      match digit_value c with
      | Some v => number cs' (10 * acc + v)
      | None => None
      end
  end.

(** Reads a string of the shape [YYYY-MM-DD HH:MM:SS] back into its six
    numbers; [None] for any other string. *)
Definition read_created (s : string) : option (Z * Z * Z * Z * Z * Z) :=
  match chars s with
  | [y1; y2; y3; y4; "-"; m1; m2; "-"; d1; d2; " "; h1; h2; ":"; i1; i2; ":";
     s1; s2]%char =>
      match number [y1; y2; y3; y4] 0, number [m1; m2] 0, number [d1; d2] 0,
            number [h1; h2] 0, number [i1; i2] 0, number [s1; s2] 0 with
      | Some y, Some m, Some d, Some h, Some i, Some s =>
          Some (y, m, d, h, i, s)
      | _, _, _, _, _, _ => None
      end
  | _ => None
  end.

End Datetime.

(** [float]: IEEE 754 binary64. *)
Module Float.

Definition prec : Z := 53.
Definition emax : Z := 1024.

Definition of_int (z : Z) : spec_float :=
  match z with
  | Z0 => S754_zero false
  | Zpos p => S754_finite false p 0
  | Zneg p => S754_finite true p 0
  end.

(** [a / b] on two [int]s with [b] non-zero: the quotient rounded once to
    the nearest float. [None] is the [OverflowError] that Python raises
    when the rounded quotient is beyond the largest float, which is where
    the rounding of the floating-point format gives an infinity. *)
Definition int_truediv (a b : Z) : option spec_float :=
  match SFdiv prec emax (of_int a) (of_int b) with
  | S754_infinity _ => None
  | q => Some q
  end.

(** [x / b] on a [float] and a non-zero [int] that a float holds
    exactly. *)
Definition truediv_int (x : spec_float) (b : Z) : spec_float :=
  SFdiv prec emax x (binary_normalize prec emax b 0 false).

End Float.

(** ** Reporting *)

Definition _TIMEZONE_OFFSET : Z := 9 * 3600.

(** The values a payload holds. *)
Inductive pyvalue : Type :=
| PyFloat (x : spec_float)
| PyStr (s : string).

Record _SpeedTestResult : Type := SpeedTestResult {
  timestamp : Datetime.datetime;
  latency_ms : spec_float;
  jitter_ms : spec_float;
  download_bytesps : Z;
  upload_bytesps : Z;
  packet_loss : option spec_float
}.

(** [_to_ambient_data()] is a generator that runs no command. A division
    that overflows ends it with [OverflowError] after the items yielded
    before it. *)
Definition _to_ambient_data (self : _SpeedTestResult) : run pyvalue :=
  gen_yield (PyFloat (latency_ms self))
    (gen_yield (PyFloat (jitter_ms self))
       match Float.int_truediv (download_bytesps self * 8) 1000 with
       | None => gen_raise OverflowError
       | Some download =>
           gen_yield (PyFloat (Float.truediv_int download 1000))
             match Float.int_truediv (upload_bytesps self * 8) 1000 with
             | None => gen_raise OverflowError
             | Some upload =>
                 gen_yield (PyFloat (Float.truediv_int upload 1000))
                   match packet_loss self with
                   | Some loss => gen_yield (PyFloat loss) gen_return
                   | None => gen_return
                   end
             end
       end).

(** [dict(pairs, **kwargs)]: the pairs are stored in order, a later one
    replacing an earlier one with the same key, then the keyword. *)
Definition dict_of (pairs : list (string * pyvalue))
    (kwargs : list (string * pyvalue)) : gmap string pyvalue :=
  foldl (λ d kv, <[kv.1 := kv.2]> d) ∅ (pairs ++ kwargs).

(** [None] is an [OverflowError]: that of [astimezone], or that of a
    division in [_to_ambient_data], which [dict] meets when it consumes
    the generator. *)
Definition to_ambient (self : _SpeedTestResult)
    : option (gmap string pyvalue) :=
  match Datetime.astimezone (timestamp self) _TIMEZONE_OFFSET with
  | None => None
  | Some timestamp_timezone =>
      let created := Datetime.strftime timestamp_timezone in
      let data := _to_ambient_data self in
      match ending data with
      | Some _ => None
      | None =>
          Some (dict_of
                  (imap (λ i d, ("d" +:+ pretty (S i), d)) (yielded data))
                  [("created", PyStr created)])
      end
  end.

(** A configured channel, with its two keys. *)
Record channel : Type := Channel {
  id : string;
  write_key : string
}.

(** What the reporting step did: the [am.send] calls it made, in order,
    and the exception that ended it, if any. *)
Record report : Type := Report {
  uploads : list (channel * gmap string pyvalue);
  failure : option exn
}.

(** The [for result in results] loop of [_ambient]. [results] are the items
    the iterable gives and [results_ending] how it ends; [config_it] is what
    is left of the channel iterator; [send k] tells whether upload number
    [k] of the run is answered with success ([raise_for_status] passes). *)
Fixpoint ambient_loop (send : nat → bool) (k : nat)
    (results : list _SpeedTestResult) (results_ending : option exn)
    (config_it : list channel) : report :=
  match results with
  | [] => Report [] results_ending
  | result :: rest =>
      match config_it with
      | [] => Report [] (Some StopIteration)
      | config_am :: config_it' =>
          match to_ambient result with
          | None => Report [] (Some OverflowError)
          | Some payload =>
              if send k then
                let r := ambient_loop send (S k) rest results_ending config_it' in
                Report ((config_am, payload) :: uploads r) (failure r)
              else Report [(config_am, payload)] (Some HTTPError)
          end
      end
  end.

Definition _ambient (send : nat → bool) (channels : list channel)
    (results : list _SpeedTestResult) (results_ending : option exn)
    : report :=
  ambient_loop send 0 results results_ending channels.

(** A measurement taken at 2024-02-29 15:30:00 UTC on a 100 Mbit/s line. *)
Definition sample_result (loss : option spec_float) : _SpeedTestResult :=
  SpeedTestResult (Datetime.Make 2024 2 29 15 30 0 0 0)
    (S754_finite false 6755399441055744 (-49))
    (S754_finite false 4503599627370496 (-52))
    12500000 6250000 loss.

(** ** Vocabulary for the further properties of the sieve *)

(** A character of the text against a character of the address, as the
    pattern reads it: a dot of the address accepts any character but a
    newline, any other character accepts itself. *)
Definition char_agrees (c d : ascii) : Prop :=
  if Ascii.eqb c "." then d ≠ Re.newline else d = c.

(** The address is found in the text: some part [T] of the text, as long
    as the address, agrees with it character by character and has a word
    boundary on each side. *)
Definition pattern_occurs (address text : string) : Prop :=
  ∃ P T Q, chars text = P ++ T ++ Q ∧
    Forall2 char_agrees (chars address) T ∧
    Re.word_boundary (last P) (head (T ++ Q)) = true ∧
    Re.word_boundary (last (P ++ T)) (head Q) = true.

(** The address has only characters the pattern model covers. *)
Definition plain (address : option string) : Prop :=
  is_Some (Re.compile (chars (format_value address))).

Global Instance plain_dec address : Decision (plain address).
Proof. unfold plain. apply _. Defined.

(** ** The speed test *)

(** The exceptions of the run beyond [exn]: [ConfigError] is whatever
    opening or reading the configuration file raises. *)
Inductive error : Type :=
| Exn (e : exn)
| TypeError
| KeyError (key : string)
| ValueError
| ConfigError.

Module SpeedTest.

(** What [json.loads] returns. *)
#[warnings="-register-all"]
Inductive json : Type :=
| JNull
| JBool (b : bool)
| JInt (z : Z)
| JFloat (x : spec_float)
| JStr (s : string)
| JList (l : list json)
| JDict (d : gmap string json).

(** [v[key]]: only a [dict] can be subscripted with a string. *)
Definition subscript (v : json) (key : string) : error + json :=
  match v with
  | JDict d =>
      match d !! key with
      | Some x => inr x
      | None => inl (KeyError key)
      end
  | _ => inl TypeError
  end.

(** [v.get(key)] on a [dict]: the value, or Python's [None]. *)
Definition get (d : gmap string json) (key : string) : json :=
  default JNull (d !! key).

(** The exception of the first failing step ends the computation. *)
Global Instance error_bind : MBind (sum error) :=
  λ A B k x, match x with inl e => inl e | inr a => k a end.

(** The arguments of the [_SpeedTestResult(...)] call, as they are
    evaluated; nothing checks their types. [packet_loss] is [JNull] for
    Python's [None]. *)
Record fields : Type := Fields {
  f_timestamp : Datetime.datetime;
  f_latency_ms : json;
  f_jitter_ms : json;
  f_download_bytesps : json;
  f_upload_bytesps : json;
  f_packet_loss : json
}.

(** Lines 114 to 122 of [_speed_test], on the captured output. [loads] is
    [json.loads] ([None] when it raises) and [fromisoformat] is
    [datetime.fromisoformat] on a string ([None] when it raises
    [ValueError]). The arguments are evaluated from left to right, so the
    first failing one decides the exception. *)
Definition result_of (loads : string → option json)
    (fromisoformat : string → option Datetime.datetime) (stdout : string)
    : error + fields :=
  match loads stdout with
  | None => inl (Exn JSONDecodeError)
  | Some result =>
      ts ← subscript result "timestamp";
      t ← match ts with
          | JStr s =>
              match fromisoformat s with
              | Some t => inr t
              | None => inl ValueError
              end
          | _ => inl TypeError
          end;
      ping ← subscript result "ping";
      latency ← subscript ping "latency";
      ping' ← subscript result "ping";
      jitter ← subscript ping' "jitter";
      download ← subscript result "download";
      down ← subscript download "bandwidth";
      upload ← subscript result "upload";
      up ← subscript upload "bandwidth";
      match result with
      | JDict d => inr (Fields t latency jitter down up (get d "packetLoss"))
      | _ => inl TypeError
      end
  end.

(** The record of the typed model for fields that have the annotated
    types: two floats, two ints, and a float or [None]. *)
Definition as_result (f : fields) : option _SpeedTestResult :=
  match f_latency_ms f, f_jitter_ms f, f_download_bytesps f,
        f_upload_bytesps f, f_packet_loss f with
  | JFloat latency, JFloat jitter, JInt down, JInt up, JFloat loss =>
      Some (SpeedTestResult (f_timestamp f) latency jitter down up (Some loss))
  | JFloat latency, JFloat jitter, JInt down, JInt up, JNull =>
      Some (SpeedTestResult (f_timestamp f) latency jitter down up None)
  | _, _, _, _, _ => None
  end.

(** The output of a measurement on a 100 Mbit/s line, with any other key
    left out, and the packet loss given. *)
Definition sample_output (loss : json) : gmap string json :=
  {[ "timestamp" := JStr "2024-02-29T15:30:00Z";
     "ping" := JDict {[ "jitter" := JFloat (S754_finite false 4503599627370496 (-52));
                        "latency" := JFloat (S754_finite false 6755399441055744 (-49)) ]};
     "download" := JDict {[ "bandwidth" := JInt 12500000 ]};
     "upload" := JDict {[ "bandwidth" := JInt 6250000 ]};
     "packetLoss" := loss ]}.

End SpeedTest.

(** ** The whole run, with the generators consumed lazily *)

Module Lazy.

(** A generator's run in the order things happen: a command it runs, or an
    item it yields and at which it is suspended until asked again. *)
Inductive step (A : Type) : Type :=
| Ran (args : list string)
| Yielded (x : A).
Arguments Ran {A} _.
Arguments Yielded {A} _.

Record iteration (A : Type) : Type := Iteration {
  steps : list (step A);
  finish : option exn
}.
Arguments Iteration {A} _ _.
Arguments steps {A} _.
Arguments finish {A} _.

Definition commands_of {A} (l : list (step A)) : list (list string) :=
  omap (λ s, match s with Ran args => Some args | Yielded _ => None end) l.

Definition items_of {A} (l : list (step A)) : list A :=
  omap (λ s, match s with Ran _ => None | Yielded x => Some x end) l.

(** The generator consumed to its end. *)
Definition enumerate {A} (it : iteration A) : run A :=
  Run (commands_of (steps it)) (items_of (steps it)) (finish it).

Definition gen_return {A} : iteration A := Iteration [] None.

Definition gen_raise {A} (e : exn) : iteration A := Iteration [] (Some e).

Definition gen_yield {A} (x : A) (k : iteration A) : iteration A :=
  Iteration (Yielded x :: steps k) (finish k).

Definition _command {A} (h : host) (args : list string)
    (k : string → iteration A) : iteration A :=
  match h args with
  | None => Iteration [Ran args] (Some (CalledProcessError args))
  | Some stdout => let r := k stdout in Iteration (Ran args :: steps r) (finish r)
  end.

Definition yield_from {A} (g k : iteration A) : iteration A :=
  match finish g with
  | Some _ => g
  | None => Iteration (steps g ++ steps k) (finish k)
  end.

Fixpoint sieve_loop (search : string → string → option bool)
    (stdout : string) (addresses : list (option string))
    : iteration (option string) :=
  match addresses with
  | [] => gen_return
  | address :: rest =>
      match search (format_value address) stdout with
      | None => gen_raise (ReError (format_value address))
      | Some true => gen_yield address (sieve_loop search stdout rest)
      | Some false => sieve_loop search stdout rest
      end
  end.

Definition _sieve_addresses_family (search : string → string → option bool)
    (h : host) (addresses : list (option string)) (v4 : bool)
    : iteration (option string) :=
  match addresses with
  | [] => gen_return
  | _ :: _ =>
      _command h (route_get_args v4)
        (λ stdout, sieve_loop search stdout addresses)
  end.

Definition _sieve_addresses (search : string → string → option bool)
    (h : host) (v4addresses v6addresses : list (option string))
    : iteration (option string) :=
  yield_from (_sieve_addresses_family search h v4addresses true)
    (_sieve_addresses_family search h v6addresses false).

(** What happens during the run, in order. *)
Inductive event : Type :=
| Command (args : list string)
| Upload (ch : channel) (payload : gmap string pyvalue).

Record log : Type := Log {
  events : list event;
  raised : option error
}.

Definition log_after (before : list event) (l : log) : log :=
  Log (before ++ events l) (raised l).

(** [_get_ip_addresses()]: the listing is run and split when the function
    is called; the generator it returns has not started. *)
Definition _get_ip_addresses (search : string → string → option bool)
    (json_loads : string → option (list interface)) (h : host)
    : exn + iteration (option string) :=
  match h address_show_args with
  | None => inl (CalledProcessError address_show_args)
  | Some stdout =>
      match json_loads stdout with
      | None => inl JSONDecodeError
      | Some ifs =>
          let '(v4addresses, v6addresses) :=
            _separate_family (concat (map aigetter ifs)) in
          inr (_sieve_addresses search h v4addresses v6addresses)
      end
  end.

Definition speedtest_args (ip_address : string) : list string :=
  ["speedtest"; "--format"; "json"; "--ip"; ip_address].

(** [_speed_test(ip_address)]: the commands it ran and its result. An
    address that is [None] cannot be an argument of a command:
    [subprocess.run] raises [TypeError] before anything runs. [parse] is
    the rest of the function on the captured output (lines 114 to 122): the
    result, or the exception raised. The result is a record of the typed
    model, so the output is one whose fields have the annotated types
    ([SpeedTest.result_of] and [SpeedTest.as_result] spell this out). *)
Definition _speed_test (parse : string → error + _SpeedTestResult) (h : host)
    (ip_address : option string)
    : list event * (error + _SpeedTestResult) :=
  match ip_address with
  | None => ([], inl TypeError)
  | Some ip =>
      let args := speedtest_args ip in
      match h args with
      | None => ([Command args], inl (Exn (CalledProcessError args)))
      | Some stdout => ([Command args], parse stdout)
      end
  end.

(** The [for result in results] loop of [_ambient] over
    [map(_speed_test, ip_addresses)]: asking for the next result resumes
    the address generator up to its next yield and measures the address it
    gives; the loop body then takes the next channel and uploads. *)
Fixpoint ambient_loop (parse : string → error + _SpeedTestResult) (h : host)
    (send : nat → bool) (k : nat) (ip_addresses : list (step (option string)))
    (ip_addresses_finish : option exn) (config_it : list channel) : log :=
  match ip_addresses with
  | [] => Log [] (Exn <$> ip_addresses_finish)
  | Ran args :: rest =>
      log_after [Command args]
        (ambient_loop parse h send k rest ip_addresses_finish config_it)
  | Yielded ip_address :: rest =>
      match _speed_test parse h ip_address with
      | (ran, inl e) => Log ran (Some e)
      | (ran, inr result) =>
          match config_it with
          | [] => Log ran (Some (Exn StopIteration))
          | config_am :: config_it' =>
              match to_ambient result with
              | None => Log ran (Some (Exn OverflowError))
              | Some payload =>
                  if send k then
                    log_after (ran ++ [Upload config_am payload])
                      (ambient_loop parse h send (S k) rest
                         ip_addresses_finish config_it')
                  else
                    Log (ran ++ [Upload config_am payload])
                      (Some (Exn HTTPError))
              end
          end
      end
  end.

(** [_ambient(results)]: the channel list is looked up in the
    configuration first. *)
Definition _ambient (config : gmap string (gmap string (list channel)))
    (parse : string → error + _SpeedTestResult) (h : host)
    (send : nat → bool) (ip_addresses : iteration (option string)) : log :=
  match config !! "ambient" with
  | None => Log [] (Some (KeyError "ambient"))
  | Some ambient =>
      match ambient !! "channels" with
      | None => Log [] (Some (KeyError "channels"))
      | Some channels =>
          ambient_loop parse h send 0 (steps ip_addresses)
            (finish ip_addresses) channels
      end
  end.

(** [run()]. [load_config] is the configuration read from the file, [None]
    when opening or reading it raises. The configuration is typed: what is
    under "ambient" is a table, and what is under "channels" an array of
    tables that have both keys. *)
Definition run
    (load_config : option (gmap string (gmap string (list channel))))
    (search : string → string → option bool)
    (json_loads : string → option (list interface))
    (parse : string → error + _SpeedTestResult) (h : host)
    (send : nat → bool) : log :=
  match load_config with
  | None => Log [] (Some ConfigError)
  | Some config =>
      match _get_ip_addresses search json_loads h with
      | inl e => Log [Command address_show_args] (Some (Exn e))
      | inr ip_addresses =>
          log_after [Command address_show_args]
            (_ambient config parse h send ip_addresses)
      end
  end.

(** *** Vocabulary for the statements about the run *)

Definition uploads_of (l : list event)
    : list (channel * gmap string pyvalue) :=
  omap (λ e, match e with Upload ch p => Some (ch, p) | Command _ => None end)
    l.

Definition is_speedtest (e : event) : bool :=
  match e with
  | Command ["speedtest"; "--format"; "json"; "--ip"; _] => true
  | _ => false
  end.

(** The commands among the events that are not speed tests. *)
Definition lookups_of (l : list event) : list (list string) :=
  omap (λ e, match e with
             | Command args => if is_speedtest e then None else Some args
             | Upload _ _ => None
             end) l.

(** The results of the speed tests of the addresses, up to the first one
    that fails. *)
Fixpoint measurements (parse : string → error + _SpeedTestResult) (h : host)
    (addresses : list (option string)) : list _SpeedTestResult :=
  match addresses with
  | [] => []
  | a :: rest =>
      match (_speed_test parse h a).2 with
      | inr result => result :: measurements parse h rest
      | inl _ => []
      end
  end.

(** A host for the examples: one IPv4 and one IPv6 address, both bound
    locally, and a speed test that answers for every address. *)
Definition sample_host : host :=
  λ args,
    if decide (args = address_show_args) then Some "[...]"
    else if decide (args = route_get_args true)
    then Some "192.0.2.0 dev eth0 src 203.0.113.5 uid 1000"
    else if decide (args = route_get_args false)
    then Some "2001:db8:: dev eth0 src 2001:db8:1::5 metric 1024"
    else match args with
         | ["speedtest"; "--format"; "json"; "--ip"; _] => Some "{...}"
         | _ => None
         end.

Definition sample_listing : list interface :=
  [Interface (Some [entry "inet" (Some "203.0.113.5");
                    entry "inet6" (Some "2001:db8:1::5")])].

Definition sample_config (channels : list channel)
    : gmap string (gmap string (list channel)) :=
  {[ "ambient" := {[ "channels" := channels ]} ]}.

End Lazy.

(** * Properties *)

(** ** The search, position by position *)

Module ReFacts.
Import Re.

Lemma atoms_at_nil s q : atoms_at [] s q.
Proof. intros k a H. by rewrite lookup_nil in H. Qed.

Lemma atoms_at_cons a atoms s q :
  atoms_at (a :: atoms) s q ↔
  (∃ c, s !! q = Some c ∧ atom_ok a c = true) ∧ atoms_at atoms s (S q).
Proof.
  split.
  - intros H. split.
    + destruct (H 0%nat a eq_refl) as (c & Hc & Hok).
      exists c. by rewrite Nat.add_0_r in Hc.
    + intros k b Hk. destruct (H (S k) b Hk) as (c & Hc & Hok).
      exists c. split; [|done]. by replace (S q + k)%nat with (q + S k)%nat by lia.
  - intros [(c & Hc & Hok) H] [|k] b Hk; simplify_eq/=.
    + exists c. by rewrite Nat.add_0_r.
    + destruct (H k b Hk) as (c' & Hc' & Hok').
      exists c'. split; [|done]. by replace (q + S k)%nat with (S q + k)%nat by lia.
Qed.

Lemma atoms_at_tail atoms c s q :
  atoms_at atoms (c :: s) (S q) ↔ atoms_at atoms s q.
Proof. unfold atoms_at. by split; intros H k a Hk; apply (H k a Hk). Qed.

Lemma match_atoms_spec atoms : ∀ prev s prev' s',
  match_atoms atoms prev s = Some (prev', s') ↔
  atoms_at atoms s 0 ∧ prev' = char_before prev s (length atoms) ∧
  s' = drop (length atoms) s.
Proof.
  induction atoms as [|a atoms IH]; intros prev s prev' s'; simpl.
  - split; [intros [= <- <-]|intros (_ & -> & ->)]; auto using atoms_at_nil.
  - rewrite atoms_at_cons. destruct s as [|c s]; simpl.
    + split; [done|]. intros [[(c' & Hc & _) _] _]. done.
    + destruct (atom_ok a c) eqn:Hok.
      * rewrite IH, atoms_at_tail. destruct atoms; simpl; intuition eauto.
      * split; [done|]. intros [[(c' & ? & ?) _] _]. simplify_eq/=. congruence.
Qed.

Lemma match_atoms_None atoms prev s :
  match_atoms atoms prev s = None → ¬ atoms_at atoms s 0.
Proof.
  intros Hn H.
  assert (match_atoms atoms prev s = Some (char_before prev s (length atoms), drop (length atoms) s)) as E
    by (by apply match_atoms_spec).
  congruence.
Qed.

Lemma head_drop (s : list ascii) n : head (drop n s) = s !! n.
Proof. revert s; induction n; intros [|c s]; simpl; auto. Qed.

Lemma match_here_spec atoms prev s :
  match_here atoms prev s = true ↔ occurs_at atoms prev s 0.
Proof.
  unfold match_here, occurs_at, boundary_at. simpl.
  rewrite andb_true_iff, head_lookup.
  destruct (match_atoms atoms prev s) as [[prev' s']|] eqn:E.
  - apply match_atoms_spec in E as (Hat & -> & ->).
    rewrite head_drop. tauto.
  - apply match_atoms_None in E. intuition discriminate.
Qed.

Lemma occurs_at_tail atoms prev c s q :
  occurs_at atoms prev (c :: s) (S q) ↔ occurs_at atoms (Some c) s q.
Proof.
  unfold occurs_at, boundary_at. rewrite atoms_at_tail. simpl.
  destruct q; simpl; [|done].
  destruct atoms; simpl; done.
Qed.

Lemma search_from_spec atoms : ∀ s prev,
  search_from atoms prev s = true ↔ ∃ q, occurs_at atoms prev s q.
Proof.
  induction s as [|c s IH]; intros prev; simpl;
    rewrite orb_true_iff, match_here_spec.
  - split; [intros [H|?]; [eauto|done]|]. intros [q H]. left.
    destruct q; [done|]. destruct H as (Hb & _). 
    unfold boundary_at in Hb. simpl in Hb. by destruct q.
  - rewrite IH. split.
    + intros [H|[q H]]; [eauto|]. exists (S q). by apply occurs_at_tail.
    + intros [[|q] H]; [by left|]. right. exists q.
      by apply (occurs_at_tail atoms prev).
Qed.

(** *** Texts built by concatenation *)

Lemma chars_app s1 s2 : chars (s1 +:+ s2) = chars s1 ++ chars s2.
Proof. induction s1 as [|c s1 IH]; [done|]. unfold chars in *. cbn. by rewrite <- IH. Qed.

Lemma char_before_lookup prev (s : list ascii) q :
  (0 < q)%nat → char_before prev s q = s !! (q - 1)%nat.
Proof. destruct q; [lia|]. intros _. simpl. by rewrite Nat.sub_0_r. Qed.

Lemma char_before_last (s : list ascii) : char_before None s (length s) = last s.
Proof.
  destruct s as [|c s] using rev_ind; [done|].
  rewrite length_app, last_snoc. simpl. rewrite Nat.add_1_r. simpl.
  by rewrite lookup_app_r, Nat.sub_diag by lia.
Qed.

Lemma char_before_app_l prev (l1 l2 : list ascii) q :
  (q ≤ length l1)%nat → char_before prev (l1 ++ l2) q = char_before prev l1 q.
Proof. destruct q; [done|]. simpl. intros. by rewrite lookup_app_l by lia. Qed.

Lemma char_before_app_r prev prev' (l1 l2 : list ascii) q :
  (length l1 < q)%nat →
  char_before prev (l1 ++ l2) q = char_before prev' l2 (q - length l1).
Proof.
  intros. destruct q; [lia|]. simpl.
  rewrite lookup_app_r by lia.
  destruct (S q - length l1)%nat as [|m] eqn:E; [lia|]. simpl. f_equal. lia.
Qed.

Lemma occurs_at_app_l atoms prev (l1 l2 : list ascii) q :
  (q + length atoms < length l1)%nat →
  occurs_at atoms prev (l1 ++ l2) q → occurs_at atoms prev l1 q.
Proof.
  intros Hlt (Hb & Hat & He). unfold occurs_at, boundary_at in *.
  rewrite !char_before_app_l, !lookup_app_l in * by lia.
  split; [done|]. split; [|done].
  intros k a Hk. destruct (Hat k a Hk) as (c & Hc & Hok).
  apply lookup_lt_Some in Hk. rewrite lookup_app_l in Hc by lia. eauto.
Qed.

Lemma occurs_at_app_r atoms prev prev' (l1 l2 : list ascii) q :
  (length l1 < q)%nat →
  occurs_at atoms prev (l1 ++ l2) q →
  occurs_at atoms prev' l2 (q - length l1).
Proof.
  intros Hlt (Hb & Hat & He). unfold occurs_at, boundary_at in *.
  rewrite (char_before_app_r prev prev'), lookup_app_r in Hb by lia.
  rewrite (char_before_app_r prev prev'), lookup_app_r in He by lia.
  replace (q + length atoms - length l1)%nat
    with (q - length l1 + length atoms)%nat in He by lia.
  split; [done|]. split; [|done].
  intros k a Hk. destruct (Hat k a Hk) as (c & Hc & Hok).
  rewrite lookup_app_r in Hc by lia.
  replace (q + k - length l1)%nat with (q - length l1 + k)%nat in Hc by lia.
  eauto.
Qed.

Lemma search_false_not_occurs address text atoms q :
  compile (chars address) = Some atoms →
  search address text = Some false →
  ¬ occurs_at atoms None (chars text) q.
Proof.
  unfold search. fold (chars address) (chars text). intros -> [= Hs] Hocc.
  assert (search_from atoms None (chars text) = true) by (apply search_from_spec; eauto).
  congruence.
Qed.

(** *** A match as a decomposition of the text *)

Lemma chars_inj s1 s2 : chars s1 = chars s2 → s1 = s2.
Proof.
  intros H. rewrite <- (string_of_list_ascii_of_string s1),
    <- (string_of_list_ascii_of_string s2). unfold chars in H. by rewrite H.
Qed.

Lemma chars_of_list l : chars (string_of_list_ascii l) = l.
Proof. apply list_ascii_of_string_of_list_ascii. Qed.

(** An occurrence in context is found by the search. *)
Lemma occurs_in_context atoms (P T Q : list ascii) :
  Forall2 (λ a c, atom_ok a c = true) atoms T →
  word_boundary (last P) (head (T ++ Q)) = true →
  word_boundary (last (P ++ T)) (head Q) = true →
  occurs_at atoms None (P ++ T ++ Q) (length P).
Proof.
  intros HF Hl Hr. pose proof (Forall2_length _ _ _ HF) as Hlen.
  unfold occurs_at, boundary_at. split; [|split].
  - rewrite char_before_app_l, char_before_last by lia.
    by rewrite lookup_app_r, Nat.sub_diag, <- head_lookup by lia.
  - intros k a Hk.
    destruct (Forall2_lookup_l _ _ _ _ _ HF Hk) as (c & Hc & Hok).
    exists c. split; [|done].
    rewrite lookup_app_r by lia.
    replace (length P + k - length P)%nat with k by lia.
    apply lookup_lt_Some in Hk as Hlt.
    by rewrite lookup_app_l by lia.
  - rewrite app_assoc, Hlen, <- length_app.
    rewrite char_before_app_l, char_before_last by lia.
    by rewrite lookup_app_r, Nat.sub_diag, <- head_lookup by lia.
Qed.

Lemma last_take (s : list ascii) q :
  (q ≤ length s)%nat → last (take q s) = char_before None s q.
Proof.
  intros Hq. rewrite <- char_before_last, length_take, Nat.min_l by done.
  destruct q; [done|]. simpl. by rewrite lookup_take_lt by lia.
Qed.

(** Every occurrence splits the text around the matched part. *)
Lemma occurs_split atoms (s : list ascii) q :
  occurs_at atoms None s q →
  ∃ P T Q, s = P ++ T ++ Q ∧ length P = q ∧
    Forall2 (λ a c, atom_ok a c = true) atoms T ∧
    word_boundary (last P) (head (T ++ Q)) = true ∧
    word_boundary (last (P ++ T)) (head Q) = true.
Proof.
  intros (Hb & Hat & He). unfold boundary_at in *.
  set (n := length atoms) in *.
  assert (q + n ≤ length s)%nat as Hlen.
  { destruct (decide (q + n ≤ length s)%nat) as [|Hgt]; [done|exfalso].
    destruct (decide (n = 0)%nat) as [Hn|Hn].
    - rewrite Hn, Nat.add_0_r in Hgt.
      rewrite char_before_lookup in Hb by lia.
      rewrite !lookup_ge_None_2 in Hb by lia. done.
    - destruct (lookup_lt_is_Some_2 atoms (n - 1)%nat) as [a Ha]; [lia|].
      destruct (Hat _ _ Ha) as (c & Hc & _).
      apply lookup_lt_Some in Hc. lia. }
  exists (take q s), (take n (drop q s)), (drop n (drop q s)).
  assert (length (take q s) = q) as HlP by (rewrite length_take; lia).
  assert (length (take n (drop q s)) = n) as HlT
    by (rewrite length_take, length_drop; lia).
  assert (s = take q s ++ take n (drop q s) ++ drop n (drop q s)) as Hs
    by (by rewrite !take_drop).
  split; [done|]. split; [done|].
  assert (Forall2 (λ a c, atom_ok a c = true) atoms (take n (drop q s))) as HF.
  { apply Forall2_same_length_lookup. split; [done|].
    intros k a c Ha Hc. destruct (Hat _ _ Ha) as (c' & Hc' & Hok).
    apply lookup_lt_Some in Ha as Hk. fold n in Hk.
    rewrite lookup_take_lt, lookup_drop in Hc by done. congruence. }
  split; [done|].
  split.
  - rewrite take_drop, head_drop, last_take by lia. done.
  - rewrite take_take_drop, drop_drop, head_drop, last_take by lia. done.
Qed.

Lemma search_from_decompose atoms (s : list ascii) :
  search_from atoms None s = true ↔
  ∃ P T Q, s = P ++ T ++ Q ∧
    Forall2 (λ a c, atom_ok a c = true) atoms T ∧
    word_boundary (last P) (head (T ++ Q)) = true ∧
    word_boundary (last (P ++ T)) (head Q) = true.
Proof.
  rewrite search_from_spec. split.
  - intros [q (P & T & Q & ? & ? & ?)%occurs_split]. eauto.
  - intros (P & T & Q & -> & HF & Hl & Hr). exists (length P).
    by apply occurs_in_context.
Qed.

Lemma Forall2_Lit (T T' : list ascii) :
  Forall2 (λ a c, atom_ok a c = true) (map Lit T) T' ↔ T' = T.
Proof.
  rewrite Forall2_fmap_l. split.
  - intros H. symmetry. apply list_eq_Forall2.
    eapply Forall2_impl; [done|]. intros c d Hcd. simpl in Hcd.
    by apply Ascii.eqb_eq in Hcd.
  - intros ->. apply Forall_Forall2_diag, Forall_forall. intros c _.
    simpl. apply Ascii.eqb_refl.
Qed.

Lemma compile_Forall2 (T : list ascii) atoms :
  compile T = Some atoms → Forall2 (λ a c, atom_ok a c = true) atoms T.
Proof.
  revert atoms. induction T as [|c T IH]; intros atoms; simpl.
  - intros [= <-]. constructor.
  - destruct (atom_of_char c) as [a|] eqn:Ea; [|done].
    destruct (compile T) as [atoms'|]; [|done]. intros [= <-].
    constructor; [|by apply IH].
    unfold atom_of_char in Ea.
    destruct (Ascii.eqb c ".") eqn:Edot.
    + apply Ascii.eqb_eq in Edot as ->. by simplify_eq.
    + destruct (in_range 33 126 c && negb (special c)); simplify_eq. simpl.
      apply Ascii.eqb_refl.
Qed.

Lemma compile_dotfree (T : list ascii) atoms :
  compile T = Some atoms → "."%char ∉ T → atoms = map Lit T.
Proof.
  revert atoms. induction T as [|c T IH]; intros atoms; simpl.
  - by intros [= <-].
  - destruct (atom_of_char c) as [a|] eqn:Ea; [|done].
    destruct (compile T) as [atoms'|]; [|done]. intros [= <-] Hnot.
    rewrite not_elem_of_cons in Hnot. destruct Hnot as [Hc HT].
    rewrite (IH atoms') by done. f_equal.
    unfold atom_of_char in Ea.
    destruct (Ascii.eqb c ".") eqn:Edot.
    + by apply Ascii.eqb_eq in Edot.
    + by destruct (in_range 33 126 c && negb (special c)); simplify_eq.
Qed.

(** The literal test: a word-boundary-delimited substring. *)
Lemma search_literal_spec tok text :
  search_literal tok text = true ↔
  ∃ pre post, text = pre +:+ tok +:+ post ∧ token_between pre tok post.
Proof.
  unfold search_literal. fold (chars tok) (chars text).
  rewrite search_from_decompose. split.
  - intros (P & T & Q & Hs & ->%Forall2_Lit & Hl & Hr).
    exists (string_of_list_ascii P), (string_of_list_ascii Q).
    unfold token_between. rewrite !chars_of_list. split; [|done].
    apply chars_inj. by rewrite !chars_app, !chars_of_list.
  - intros (pre & post & -> & Hl & Hr).
    exists (chars pre), (chars tok), (chars post).
    rewrite !chars_app. split; [done|]. split; [|done]. by apply Forall2_Lit.
Qed.

(** No false negative: an address that stands in the text as a token is
    found by the pattern made from it. *)
Lemma search_token_found tok pre post :
  is_Some (compile (chars tok)) →
  token_between pre tok post →
  search tok (pre +:+ tok +:+ post) = Some true.
Proof.
  intros [atoms Hc] [Hl Hr]. unfold search. fold (chars tok). rewrite Hc.
  f_equal. fold (chars (pre +:+ tok +:+ post)). rewrite !chars_app.
  apply search_from_decompose. exists (chars pre), (chars tok), (chars post).
  split; [done|]. split; [by apply compile_Forall2|done].
Qed.

(** For an address without a dot the pattern is the literal test. *)
Lemma search_dotfree tok text :
  is_Some (compile (chars tok)) → "."%char ∉ chars tok →
  search tok text = Some (search_literal tok text).
Proof.
  intros [atoms Hc] Hdot. unfold search, search_literal.
  fold (chars tok). rewrite Hc. by rewrite (compile_dotfree _ _ Hc Hdot).
Qed.

Lemma search_literal_absent tok text :
  ¬ (∃ a b, text = a +:+ tok +:+ b) → search_literal tok text = false.
Proof.
  intros Hno. apply not_true_is_false.
  intros (pre & post & ? & _)%search_literal_spec. eauto.
Qed.

(** *** The candidate 10.0.0.50 against a text that holds 10.0.0.5 *)

Lemma atom_ok_Lit c d : atom_ok (Lit d) c = true → c = d.
Proof. simpl. by intros ?%Ascii.eqb_eq. Qed.

Ltac use_atom Hat k :=
  let c := fresh "c" in let Hc := fresh "Hc" in let Hok := fresh "Hok" in
  destruct (Hat k%nat _ eq_refl) as (c & Hc & Hok);
  try (apply atom_ok_Lit in Hok; subst c).

Lemma longer_candidate_not_found pre post :
  token_between pre "10.0.0.5" post →
  search "10.0.0.50" pre = Some false →
  search "10.0.0.50" post = Some false →
  search "10.0.0.50" (pre +:+ "10.0.0.5" +:+ post) = Some false.
Proof.
  intros [Hleft Hright] Hpre Hpost.
  pose (atoms := [Lit "1"; Lit "0"; AnyChar; Lit "0"; AnyChar; Lit "0";
                  AnyChar; Lit "5"; Lit "0"]%char).
  assert (compile (chars "10.0.0.50") = Some atoms) as Hc by reflexivity.
  pose proof (λ q, search_false_not_occurs _ _ _ q Hc Hpre) as Hnpre.
  pose proof (λ q, search_false_not_occurs _ _ _ q Hc Hpost) as Hnpost.
  unfold search. fold (chars "10.0.0.50"). rewrite Hc. f_equal.
  fold (chars (pre +:+ "10.0.0.5" +:+ post)). rewrite !chars_app.
  set (P := chars pre) in *. set (Q := chars post) in *.
  change (chars "10.0.0.5") with ["1"; "0"; "."; "0"; "."; "0"; "."; "5"]%char in *.
  set (T := ["1"; "0"; "."; "0"; "."; "0"; "."; "5"]%char) in *.
  apply not_true_is_false. intros [q Hocc]%search_from_spec.
  assert (∀ i, (i < 8)%nat → (P ++ T ++ Q) !! (length P + i)%nat = T !! i) as HT.
  { intros i Hi. rewrite lookup_app_r by lia.
    replace (length P + i - length P)%nat with i by lia.
    by rewrite lookup_app_l by (simpl; lia). }
  assert (word_opt (last P) = false) as HlastP.
  { simpl in Hleft. unfold word_boundary in Hleft. simpl in Hleft.
    by destruct (word_opt (last P)). }
  assert (word_opt (head Q) = false) as HheadQ.
  { rewrite last_app in Hright. simpl in Hright.
    unfold word_boundary in Hright. simpl in Hright.
    by destruct (word_opt (head Q)). }
  destruct (decide (q + 9 < length P)%nat) as [HA1|HA1].
  { apply (Hnpre q). by apply (occurs_at_app_l atoms None P (T ++ Q) q). }
  destruct (decide (length P + 8 < q)%nat) as [HF|HF].
  { apply (Hnpost (q - length (P ++ T))%nat).
    apply (occurs_at_app_r atoms None None (P ++ T) Q q).
    - rewrite length_app. simpl. lia.
    - by rewrite <- app_assoc. }
  destruct Hocc as (Hb & Hat & He). unfold boundary_at in Hb, He.
  change (length atoms) with 9%nat in He.
  destruct (decide (q + 9 = length P)%nat) as [HA2|HA2].
  { use_atom Hat 8. rewrite char_before_lookup in He by lia.
    replace (q + 9 - 1)%nat with (q + 8)%nat in He by lia.
    rewrite Hc0 in He. rewrite HA2 in He.
    specialize (HT 0%nat). rewrite Nat.add_0_r in HT. rewrite HT in He by lia.
    done. }
  destruct (decide (q < length P)%nat) as [HB|HB].
  { assert (last P = (P ++ T ++ Q) !! (length P - 1)%nat) as Hl.
    { rewrite lookup_app_l by lia. rewrite last_lookup. f_equal. lia. }
    rewrite Hl in HlastP.
    specialize (HT 0%nat). rewrite Nat.add_0_r in HT. specialize (HT ltac:(lia)).
    assert (∃ k, (k ≤ 7)%nat ∧ (length P - 1 = q + k)%nat ∧ (length P = q + S k)%nat)
      as (k & Hk & Hk1 & Hk2) by (exists (length P - 1 - q)%nat; lia).
    rewrite Hk1 in HlastP. rewrite Hk2 in HT.
    do 8 (try destruct k as [|k]); try lia;
      first [ by (use_atom Hat 0; rewrite Hc0 in HlastP)
            | by (use_atom Hat 1; rewrite Hc0 in HlastP)
            | by (use_atom Hat 3; rewrite Hc0 in HlastP)
            | by (use_atom Hat 5; rewrite Hc0 in HlastP)
            | by (use_atom Hat 7; rewrite Hc0 in HlastP)
            | by (use_atom Hat 3; rewrite Hc0 in HT)
            | by (use_atom Hat 5; rewrite Hc0 in HT)
            | by (use_atom Hat 7; rewrite Hc0 in HT) ]. }
  assert (∃ i, (i ≤ 8)%nat ∧ q = (length P + i)%nat) as (i & Hi & ->)
    by (exists (q - length P)%nat; lia).
  use_atom Hat 0. rewrite Nat.add_0_r in Hc0.
  destruct (decide (i = 0)%nat) as [->|Hi0].
  { use_atom Hat 8. replace (length P + 0 + 8)%nat with (length P + 8)%nat in Hc1 by lia.
    rewrite lookup_app_r in Hc1 by lia. rewrite lookup_app_r in Hc1 by (simpl; lia).
    replace (length P + 8 - length P - length T)%nat with 0%nat in Hc1 by (simpl; lia).
    rewrite <- head_lookup in Hc1. by rewrite Hc1 in HheadQ. }
  destruct (decide (i = 8)%nat) as [->|Hi8].
  { rewrite char_before_lookup in Hb by lia.
    replace (length P + 8 - 1)%nat with (length P + 7)%nat in Hb by lia.
    rewrite HT in Hb by lia. rewrite Hc0 in Hb. done. }
  rewrite HT in Hc0 by lia.
  do 8 (try destruct i as [|i]); try lia; done.
Qed.

End ReFacts.

(** ** The route sieve, for any behaviour of [re.search] *)

Section sieve.
Context (search : string → string → option bool).

Lemma sieve_loop_calls stdout addresses :
  calls (sieve_loop search stdout addresses) = [].
Proof.
  induction addresses as [|a rest IH]; simpl; [done|].
  destruct (search _ _) as [[]|]; done.
Qed.

Lemma sieve_loop_sublist stdout addresses :
  yielded (sieve_loop search stdout addresses) `sublist_of` addresses.
Proof.
  induction addresses as [|a rest IH]; simpl; [constructor|].
  destruct (search _ _) as [[]|]; simpl.
  - by constructor.
  - by constructor.
  - apply sublist_nil_l.
Qed.

Lemma sieve_loop_elem stdout addresses a :
  a ∈ yielded (sieve_loop search stdout addresses) →
  search (format_value a) stdout = Some true.
Proof.
  induction addresses as [|b rest IH]; simpl.
  - by intros ?%elem_of_nil.
  - destruct (search (format_value b) stdout) as [[]|] eqn:E; simpl.
    + intros [->|?]%elem_of_cons; auto.
    + done.
    + by intros ?%elem_of_nil.
Qed.

(** When the search raises for no candidate, the loop is a filter. *)
Lemma sieve_loop_total stdout addresses :
  Forall (λ a, is_Some (search (format_value a) stdout)) addresses →
  sieve_loop search stdout addresses
  = Run [] (survivors search stdout addresses) None.
Proof.
  unfold survivors.
  induction 1 as [|a rest [b Hb] _ IH]; simpl; [done|].
  rewrite filter_cons, Hb, IH. destruct b.
  - by rewrite decide_True.
  - by rewrite decide_False.
Qed.

Lemma family_sublist h addresses v4 :
  yielded (_sieve_addresses_family search h addresses v4)
    `sublist_of` addresses.
Proof.
  destruct addresses as [|a rest]; [constructor|].
  unfold _sieve_addresses_family, _command.
  destruct (h _) as [stdout|]; cbn [yielded];
    [apply (sieve_loop_sublist stdout (a :: rest))|apply sublist_nil_l].
Qed.

Lemma family_calls h addresses v4 :
  calls (_sieve_addresses_family search h addresses v4)
  = match addresses with [] => [] | _ :: _ => [route_get_args v4] end.
Proof.
  destruct addresses as [|a rest]; [done|].
  unfold _sieve_addresses_family, _command.
  destruct (h _) as [stdout|]; cbn [calls]; [|done].
  by rewrite (sieve_loop_calls stdout (a :: rest)).
Qed.

Lemma family_elem h addresses v4 a :
  a ∈ yielded (_sieve_addresses_family search h addresses v4) →
  ∃ text, h (route_get_args v4) = Some text ∧
          search (format_value a) text = Some true.
Proof.
  destruct addresses as [|b rest]; [by intros ?%elem_of_nil|].
  unfold _sieve_addresses_family, _command.
  destruct (h (route_get_args v4)) as [text|]; cbn [yielded].
  - intros Ha. exists text. split; [done|].
    by apply (sieve_loop_elem text (b :: rest)).
  - by intros ?%elem_of_nil.
Qed.

Lemma family_total h addresses v4 text :
  h (route_get_args v4) = Some text →
  Forall (λ a, is_Some (search (format_value a) text)) addresses →
  yielded (_sieve_addresses_family search h addresses v4)
  = survivors search text addresses
  ∧ ending (_sieve_addresses_family search h addresses v4) = None.
Proof.
  intros Hh Htot. destruct addresses as [|a rest]; [done|].
  unfold _sieve_addresses_family, _command. rewrite Hh.
  by rewrite (sieve_loop_total text (a :: rest)).
Qed.

End sieve.

Lemma sublist_count {A} (P : A → Prop) `{!∀ x, Decision (P x)}
    (l1 l2 : list A) :
  l1 `sublist_of` l2 → (length (filter P l1) ≤ length (filter P l2))%nat.
Proof.
  induction 1 as [|x l1 l2 _ IH|x l1 l2 _ IH]; [done|..];
    rewrite ?filter_cons; repeat case_decide; simpl; lia.
Qed.

Lemma contains_spec tok s :
  contains tok s = true ↔ ∃ a b, s = a ++ tok ++ b.
Proof.
  induction s as [|c s IH]; simpl; rewrite orb_true_iff, bool_decide_eq_true.
  - split.
    + intros [[b ->]|?]; [|done]. by exists [], b.
    + intros (a & b & H). left. symmetry in H.
      apply app_eq_nil in H as [-> H]. by exists b.
  - rewrite IH. split.
    + intros [[b ->]|(a & b & ->)]; [by exists [], b|by exists (c :: a), b].
    + intros ([|c' a] & b & H); simpl in H.
      * left. by exists b.
      * injection H as -> ->. right. eauto.
Qed.

Lemma not_contains tok text :
  contains (chars tok) (chars text) = false →
  ¬ (∃ a b, text = a +:+ tok +:+ b).
Proof.
  intros Hc (a & b & ->). rewrite !ReFacts.chars_app in Hc.
  assert (contains (chars tok) (chars a ++ chars tok ++ chars b) = true)
    by (apply contains_spec; eauto).
  congruence.
Qed.

(** ** The route sieve: the claims *)

(** C10. Whatever the route text and whatever the search answers, what the
    per-family sieve yields is a subsequence of its candidate list: the
    candidates kept stand in their original order, every yielded address is
    a candidate, and no address is yielded more often than it occurs among
    the candidates. *)
Theorem sieve_family_is_subsequence
    (search : string → string → option bool) (h : host)
    (addresses : list (option string)) (v4 : bool) :
  let out := yielded (_sieve_addresses_family search h addresses v4) in
  out `sublist_of` addresses ∧
  (∀ a, a ∈ out → a ∈ addresses) ∧
  (∀ a, (length (filter (λ b, b = a) out)
         ≤ length (filter (λ b, b = a) addresses))%nat).
Proof.
  intros out. pose proof (family_sublist search h addresses v4) as Hsub.
  fold out in Hsub. split; [done|]. split.
  - intros a Ha. by eapply elem_of_sublist.
  - intros a. by apply sublist_count.
Qed.

(** C3. The merged sieve yields what the IPv4 stage yields, then (unless
    that stage ended in an exception) what the IPv6 stage yields, and each
    stage yields a subsequence of its own candidates: every IPv4 result
    comes before every IPv6 result, both in their original order. When both
    route lookups answer and the search raises for no candidate, the output
    is the surviving IPv4 candidates followed by the surviving IPv6
    candidates. *)
Theorem sieve_addresses_v4_before_v6
    (search : string → string → option bool) (h : host)
    (v4addresses v6addresses : list (option string)) :
  let stage4 := _sieve_addresses_family search h v4addresses true in
  let stage6 := _sieve_addresses_family search h v6addresses false in
  yielded (_sieve_addresses search h v4addresses v6addresses)
  = yielded stage4 ++ (if ending stage4 is None then yielded stage6 else [])
  ∧ yielded stage4 `sublist_of` v4addresses
  ∧ yielded stage6 `sublist_of` v6addresses
  ∧ ∀ t4 t6,
      h (route_get_args true) = Some t4 →
      h (route_get_args false) = Some t6 →
      Forall (λ a, is_Some (search (format_value a) t4)) v4addresses →
      Forall (λ a, is_Some (search (format_value a) t6)) v6addresses →
      yielded (_sieve_addresses search h v4addresses v6addresses)
      = survivors search t4 v4addresses ++ survivors search t6 v6addresses
      ∧ ending (_sieve_addresses search h v4addresses v6addresses) = None.
Proof.
  intros stage4 stage6.
  assert (yielded (_sieve_addresses search h v4addresses v6addresses)
          = yielded stage4
            ++ (if ending stage4 is None then yielded stage6 else []))
    as Hmerge.
  { unfold _sieve_addresses, yield_from. fold stage4 stage6.
    destruct (ending stage4); [by rewrite app_nil_r|done]. }
  split; [done|]. split; [apply family_sublist|].
  split; [apply family_sublist|].
  intros t4 t6 H4 H6 Htot4 Htot6.
  destruct (family_total search h v4addresses true t4 H4 Htot4) as [Hy4 He4].
  destruct (family_total search h v6addresses false t6 H6 Htot6) as [Hy6 He6].
  fold stage4 in Hy4, He4. fold stage6 in Hy6, He6.
  rewrite Hmerge, He4, Hy4, Hy6. split; [done|].
  unfold _sieve_addresses, yield_from. fold stage4 stage6.
  by rewrite He4.
Qed.

Lemma sieve_addresses_v4_before_v6_witness :
  let h := host_of_routes None
             (Some "192.0.2.0 via 10.0.0.1 dev eth0 src 10.0.0.5 uid 1000")
             (Some "2001:db8:: via fe80::1 dev eth0 src 2001:db8:1::5 metric 1") in
  yielded (_sieve_addresses Re.search h
             [Some "10.0.0.6"; Some "10.0.0.5"]
             [Some "2001:db8:1::5"; Some "2001:db8:1::6"])
  = [Some "10.0.0.5"; Some "2001:db8:1::5"].
Proof.
  intros h.
  destruct (sieve_addresses_v4_before_v6 Re.search h
              [Some "10.0.0.6"; Some "10.0.0.5"]
              [Some "2001:db8:1::5"; Some "2001:db8:1::6"])
    as (_ & _ & _ & H).
  destruct (H "192.0.2.0 via 10.0.0.1 dev eth0 src 10.0.0.5 uid 1000"
              "2001:db8:: via fe80::1 dev eth0 src 2001:db8:1::5 metric 1")
    as (Hy & _).
  - reflexivity.
  - reflexivity.
  - apply (bool_decide_unpack _). vm_compute. exact I.
  - apply (bool_decide_unpack _). vm_compute. exact I.
  - rewrite Hy. vm_compute. reflexivity.
Defined.

(** C4. A family sieve with no candidate runs no command; with candidates
    it runs the route lookup of its family exactly once. The merged sieve
    therefore runs nothing and yields nothing when both lists are empty,
    never looks up an empty family, and looks up each non-empty family once
    (the IPv6 lookup being reached unless the IPv4 stage ended in an
    exception). *)
Theorem sieve_route_lookup_calls
    (search : string → string → option bool) (h : host)
    (v4addresses v6addresses : list (option string)) :
  (∀ addresses v4,
     calls (_sieve_addresses_family search h addresses v4)
     = match addresses with [] => [] | _ :: _ => [route_get_args v4] end)
  ∧ _sieve_addresses search h [] [] = Run [] [] None
  ∧ count_of (route_get_args true)
      (calls (_sieve_addresses search h v4addresses v6addresses))
    = match v4addresses with [] => 0%nat | _ :: _ => 1%nat end
  ∧ count_of (route_get_args false)
      (calls (_sieve_addresses search h v4addresses v6addresses))
    = match v6addresses,
            ending (_sieve_addresses_family search h v4addresses true) with
      | _ :: _, None => 1%nat
      | _, _ => 0%nat
      end.
Proof.
  split; [apply family_calls|]. split; [done|].
  unfold _sieve_addresses, yield_from.
  destruct (ending (_sieve_addresses_family search h v4addresses true)) eqn:E;
    cbn [calls]; rewrite !family_calls.
  - destruct v4addresses; [done|]. split; [done|]. by destruct v6addresses.
  - destruct v4addresses, v6addresses; done.
Qed.

(** C1. The claim asks for a literal comparison; the pattern is built with
    the address as it is, so each dot of an IPv4 address matches any
    character. On a host with the two addresses 192.168.1.1 and
    192.168.111.7 whose route leaves through 192.168.111.7, the sieve keeps
    both, although 192.168.1.1 stands nowhere in the route text as a
    word-delimited literal substring: [1.1] matches the [111] of the other
    address. The literal test keeps 192.168.111.7 alone. *)
Theorem sieve_dot_matches_any_character :
  let h := host_of_routes None (Some route_text_111) None in
  let candidates := [Some "192.168.1.1"; Some "192.168.111.7"] in
  yielded (_sieve_addresses_family Re.search h candidates true) = candidates
  ∧ Re.search_literal "192.168.1.1" route_text_111 = false
  ∧ filter (λ a, Re.search_literal (format_value a) route_text_111 = true)
      candidates = [Some "192.168.111.7"].
Proof. vm_compute. done. Qed.



(** C9. The listing gives one IPv4 entry with address 203.0.113.5 and one
    IPv6 entry with address 2001:db8:1::5; the IPv4 route text holds
    203.0.113.5 as a word-delimited token and the IPv6 route text does not
    contain 2001:db8:1::5. Then the discovery runs its three commands and
    yields exactly 203.0.113.5. *)
Theorem discovery_end_to_end
    (json_loads : string → option (list interface)) (h : host)
    (listing : string) (ifs : list interface)
    (e4 e6 : gmap string string) (pre post t6 : string) :
  h address_show_args = Some listing →
  json_loads listing = Some ifs →
  concat (map aigetter ifs) = [e4; e6] →
  e4 !! "family" = Some "inet" → e4 !! "local" = Some "203.0.113.5" →
  e6 !! "family" = Some "inet6" → e6 !! "local" = Some "2001:db8:1::5" →
  h (route_get_args true) = Some (pre +:+ "203.0.113.5" +:+ post) →
  token_between pre "203.0.113.5" post →
  h (route_get_args false) = Some t6 →
  ¬ (∃ a b, t6 = a +:+ "2001:db8:1::5" +:+ b) →
  _get_ip_addresses Re.search json_loads h
  = Run [address_show_args; route_get_args true; route_get_args false]
        [Some "203.0.113.5"] None.
Proof.
  intros Hl Hj Hc Hf4 Hl4 Hf6 Hl6 H4 Htok H6 Hno.
  unfold _get_ip_addresses, _command. rewrite Hl, Hj, Hc.
  unfold _separate_family. cbn [separate_loop].
  rewrite Hf4, Hl4, Hf6, Hl6.
  rewrite decide_True by done. rewrite decide_False by done.
  rewrite decide_True by done. cbn [app].
  unfold _sieve_addresses, _sieve_addresses_family, _command.
  rewrite H4, H6. cbn [sieve_loop format_value].
  rewrite (ReFacts.search_token_found "203.0.113.5" pre post);
    [|by eexists|done].
  rewrite (ReFacts.search_dotfree "2001:db8:1::5" t6); [|by eexists|].
  - by rewrite (ReFacts.search_literal_absent _ _ Hno).
  - apply (bool_decide_unpack _). by vm_compute.
Qed.

Lemma discovery_end_to_end_witness :
  _get_ip_addresses Re.search
    (λ _, Some [Interface (Some [entry "inet" (Some "203.0.113.5")]);
                Interface None;
                Interface (Some [entry "inet6" (Some "2001:db8:1::5")])])
    (host_of_routes (Some "[...]")
       (Some ("192.0.2.0 via 203.0.113.1 dev eth0 src " +:+ "203.0.113.5"
              +:+ " uid 1000"))
       (Some "2001:db8:: from :: via fe80::1 dev eth1 src 2001:db8:2::9"))
  = Run [address_show_args; route_get_args true; route_get_args false]
        [Some "203.0.113.5"] None.
Proof.
  eapply (discovery_end_to_end _ _ "[...]" _
            (entry "inet" (Some "203.0.113.5"))
            (entry "inet6" (Some "2001:db8:1::5"))
            "192.0.2.0 via 203.0.113.1 dev eth0 src " " uid 1000"
            "2001:db8:: from :: via fe80::1 dev eth1 src 2001:db8:2::9").
  - reflexivity.
  - reflexivity.
  - reflexivity.
  - reflexivity.
  - reflexivity.
  - reflexivity.
  - reflexivity.
  - reflexivity.
  - split; reflexivity.
  - reflexivity.
  - apply not_contains. vm_compute. reflexivity.
Defined.

(** ** The family splitter *)

Lemma separate_loop_spec addr_infos v4 v6 :
  separate_loop addr_infos v4 v6
  = (v4 ++ locals_of "inet" addr_infos, v6 ++ locals_of "inet6" addr_infos).
Proof.
  unfold locals_of. revert v4 v6.
  induction addr_infos as [|ai rest IH]; intros v4 v6; simpl.
  - by rewrite !app_nil_r.
  - rewrite !filter_cons.
    destruct (decide (has_family "inet" ai)) as [E|E];
      destruct (decide (has_family "inet6" ai)) as [E'|E'];
      unfold has_family in E, E'.
    + congruence.
    + rewrite (decide_True (P := ai !! "family" = Some "inet")) by done.
      rewrite IH. by rewrite <- app_assoc.
    + rewrite (decide_False (P := ai !! "family" = Some "inet")) by done.
      rewrite (decide_True (P := ai !! "family" = Some "inet6")) by done.
      rewrite IH. by rewrite <- app_assoc.
    + rewrite (decide_False (P := ai !! "family" = Some "inet")) by done.
      rewrite (decide_False (P := ai !! "family" = Some "inet6")) by done.
      apply IH.
Qed.

Lemma separate_family_spec addr_infos :
  _separate_family addr_infos
  = (locals_of "inet" addr_infos, locals_of "inet6" addr_infos).
Proof. apply separate_loop_spec. Qed.

Lemma locals_of_app fam l1 l2 :
  locals_of fam (l1 ++ l2) = locals_of fam l1 ++ locals_of fam l2.
Proof. unfold locals_of. by rewrite filter_app, fmap_app. Qed.

(** Where every entry of the family carries a non-empty local address, the
    values read are the addresses the specification words select. *)
Lemma usable_locals_agree fam (addr_infos : list (gmap string string)) :
  Forall (λ ai, has_family fam ai →
                ∃ s, ai !! "local" = Some s ∧ s ≠ "") addr_infos →
  locals_of fam addr_infos = Some <$> spec_usable_locals fam addr_infos.
Proof.
  unfold locals_of, spec_usable_locals.
  induction 1 as [|ai rest Hai _ IH]; [done|].
  rewrite filter_cons. simpl.
  destruct (decide (has_family fam ai)) as [Hf|Hf]; [|done].
  destruct (Hai Hf) as (s & Hs & Hne).
  rewrite Hs. rewrite decide_False by done. simpl. rewrite Hs.
  by f_equal.
Qed.

(** C2, as the code has it. An entry whose family tag is neither [inet] nor
    [inet6] adds nothing to either output. An entry tagged [inet] adds
    exactly one element to the IPv4 output (and one tagged [inet6] to the
    IPv6 output), at its place in the order: the value of its [local]
    field as read, with no check on it. *)
Theorem separate_family_contribution
    (before after : list (gmap string string))
    (addr_info : gmap string string) :
  let '(v4b, v6b) := _separate_family before in
  let '(v4a, v6a) := _separate_family after in
  _separate_family (before ++ addr_info :: after)
  = if decide (addr_info !! "family" = Some "inet") then
      (v4b ++ addr_info !! "local" :: v4a, v6b ++ v6a)
    else if decide (addr_info !! "family" = Some "inet6") then
      (v4b ++ v4a, v6b ++ addr_info !! "local" :: v6a)
    else (v4b ++ v4a, v6b ++ v6a).
Proof.
  rewrite !separate_family_spec.
  rewrite !(locals_of_app _ before (addr_info :: after)).
  unfold locals_of at 2 4. rewrite !filter_cons.
  destruct (decide (has_family "inet" addr_info)) as [E|E];
    destruct (decide (has_family "inet6" addr_info)) as [E'|E'];
    unfold has_family in E, E'; try congruence.
  - by rewrite (decide_True (P := addr_info !! "family" = Some "inet")).
  - rewrite (decide_False (P := addr_info !! "family" = Some "inet")) by done.
    by rewrite (decide_True (P := addr_info !! "family" = Some "inet6")).
  - rewrite (decide_False (P := addr_info !! "family" = Some "inet")) by done.
    by rewrite (decide_False (P := addr_info !! "family" = Some "inet6")).
Qed.

(** C2 fails as stated: an [inet] entry with no [local] key is not dropped,
    it puts one element into the IPv4 output. *)
Lemma separate_family_keeps_missing_local :
  let addr_info : gmap string string := {[ "family" := "inet" ]} in
  addr_info !! "local" = None ∧
  _separate_family [addr_info] = ([None], []).
Proof. vm_compute. done. Qed.

(** C5, as the code has it. The IPv4 output is the [local] values of all
    the entries tagged [inet], in their original order and with repeats
    kept, and the IPv6 output likewise for [inet6]; each output has as many
    elements as there are entries of its family. When every entry of a
    family carries a non-empty local address, the output of that family is
    exactly those addresses. *)
Theorem separate_family_order_and_duplicates
    (addr_infos : list (gmap string string)) :
  _separate_family addr_infos
  = ((λ addr_info, addr_info !! "local")
       <$> filter (has_family "inet") addr_infos,
     (λ addr_info, addr_info !! "local")
       <$> filter (has_family "inet6") addr_infos)
  ∧ length (_separate_family addr_infos).1
    = length (filter (has_family "inet") addr_infos)
  ∧ length (_separate_family addr_infos).2
    = length (filter (has_family "inet6") addr_infos)
  ∧ (Forall (λ ai, has_family "inet" ai →
                   ∃ s, ai !! "local" = Some s ∧ s ≠ "") addr_infos →
     (_separate_family addr_infos).1
     = Some <$> spec_usable_locals "inet" addr_infos)
  ∧ (Forall (λ ai, has_family "inet6" ai →
                   ∃ s, ai !! "local" = Some s ∧ s ≠ "") addr_infos →
     (_separate_family addr_infos).2
     = Some <$> spec_usable_locals "inet6" addr_infos).
Proof.
  rewrite separate_family_spec. unfold locals_of at 1 2. cbn [fst snd].
  split; [done|]. unfold locals_of at 1 2. rewrite !length_fmap.
  split; [done|]. split; [done|].
  split; apply usable_locals_agree.
Qed.

(** C5 fails as stated: an [inet] entry whose local address is empty is not
    among the entries the claim counts, yet it appears in the IPv4
    output. *)
Lemma separate_family_keeps_empty_local :
  let addr_infos : list (gmap string string) :=
    [ {[ "family" := "inet"; "local" := "" ]} ] in
  spec_usable_locals "inet" addr_infos = [] ∧
  (_separate_family addr_infos).1 = [Some ""].
Proof. vm_compute. done. Qed.

Lemma separate_family_order_and_duplicates_witness :
  (_separate_family
     [entry "inet6" (Some "2001:db8:1::5"); entry "inet" (Some "10.0.0.5");
      entry "inet" (Some "10.0.0.6"); entry "inet" (Some "10.0.0.5")]).1
  = [Some "10.0.0.5"; Some "10.0.0.6"; Some "10.0.0.5"].
Proof.
  destruct (separate_family_order_and_duplicates
              [entry "inet6" (Some "2001:db8:1::5");
               entry "inet" (Some "10.0.0.5");
               entry "inet" (Some "10.0.0.6");
               entry "inet" (Some "10.0.0.5")]) as (_ & _ & _ & H4 & _).
  rewrite H4; [reflexivity|].
  repeat constructor; intros _; eexists; (split; [reflexivity|done]).
Defined.

(** ** Dates: the calendar arithmetic and the rendering *)

Module DatetimeFacts.
Import Datetime.
Local Open Scope Z_scope.

Lemma month_day_checked leapyear r :
  0 <= r < 365 → month_day_ok leapyear r = true.
Proof.
  intros Hr.
  assert (forallb (month_day_ok leapyear) (seqZ 0 365) = true) as Hall
    by (destruct leapyear; vm_compute; reflexivity).
  rewrite forallb_forall in Hall. apply Hall.
  apply list_elem_of_In, elem_of_seqZ. lia.
Qed.

Lemma ord2ymd_unfold n :
  _ord2ymd n =
  let n0 := n - 1 in
  let n400 := n0 / 146097 in let r400 := n0 mod 146097 in
  let n100 := r400 / 36524 in let r100 := r400 mod 36524 in
  let n4 := r100 / 1461 in let r4 := r100 mod 1461 in
  let n1 := r4 / 365 in let r1 := r4 mod 365 in
  let y := n400 * 400 + 1 + n100 * 100 + n4 * 4 + n1 in
  if (n1 =? 4) || (n100 =? 4) then (y - 1, 12, 31)
  else
    let '(m, d) :=
      month_day r1 ((n1 =? 3) && (negb (n4 =? 24) || (n100 =? 3))) in
    (y, m, d).
Proof.
  unfold _ord2ymd, month_day, _DI400Y, _DI100Y, _DI4Y. cbv zeta.
  destruct (_ || _); [done|]. by destruct (_ <? _).
Qed.

Lemma is_leap_spec y :
  _is_leap y = true ↔ y mod 4 = 0 ∧ (y mod 100 ≠ 0 ∨ y mod 400 = 0).
Proof.
  unfold _is_leap. rewrite andb_true_iff, orb_true_iff, negb_true_iff.
  rewrite !Z.eqb_eq, Z.eqb_neq. done.
Qed.


Lemma days_before_year_decomp a b c e :
  0 <= a → 0 <= b <= 3 → 0 <= c <= 24 → 0 <= e <= 3 →
  _days_before_year (400 * a + 100 * b + 4 * c + e + 1)
  = 146097 * a + 36524 * b + 1461 * c + 365 * e.
Proof.
  intros. unfold _days_before_year. cbv zeta.
  replace (400 * a + 100 * b + 4 * c + e + 1 - 1)
    with (400 * a + 100 * b + 4 * c + e) by lia.
  assert ((400 * a + 100 * b + 4 * c + e) / 4 = 100 * a + 25 * b + c) as ->
    by (symmetry; apply Z.div_unique with e; lia).
  assert ((400 * a + 100 * b + 4 * c + e) / 100 = 4 * a + b) as ->
    by (symmetry; apply Z.div_unique with (4 * c + e); lia).
  assert ((400 * a + 100 * b + 4 * c + e) / 400 = a) as ->
    by (symmetry; apply Z.div_unique with (100 * b + 4 * c + e); lia).
  lia.
Qed.

Lemma is_leap_decomp a b c e :
  0 <= a → 0 <= b <= 3 → 0 <= c <= 24 → 0 <= e <= 3 →
  _is_leap (400 * a + 100 * b + 4 * c + e + 1)
  = (e =? 3) && (negb (c =? 24) || (b =? 3)).
Proof.
  intros. unfold _is_leap.
  assert ((400 * a + 100 * b + 4 * c + e + 1) mod 4 = (e + 1) mod 4) as ->.
  { replace (400 * a + 100 * b + 4 * c + e + 1)
      with (e + 1 + (100 * a + 25 * b + c) * 4) by lia.
    apply Z_mod_plus_full. }
  assert ((400 * a + 100 * b + 4 * c + e + 1) mod 100 = (4 * c + e + 1) mod 100) as ->.
  { replace (400 * a + 100 * b + 4 * c + e + 1)
      with (4 * c + e + 1 + (4 * a + b) * 100) by lia.
    apply Z_mod_plus_full. }
  assert ((400 * a + 100 * b + 4 * c + e + 1) mod 400
          = (100 * b + 4 * c + e + 1) mod 400) as ->.
  { replace (400 * a + 100 * b + 4 * c + e + 1)
      with (100 * b + 4 * c + e + 1 + a * 400) by lia.
    apply Z_mod_plus_full. }
  apply eq_iff_eq_true.
  rewrite !andb_true_iff, !orb_true_iff, !negb_true_iff, !Z.eqb_eq, !Z.eqb_neq.
  Z.div_mod_to_equations. lia.
Qed.

Lemma ord2ymd_ok n :
  1 <= n →
  let '(y, m, d) := _ord2ymd n in
  _ymd2ord y m d = n ∧ 1 <= m <= 12 ∧ 1 <= d <= days_in_month y m ∧
  1 <= y ∧ (n <= _MAXORDINAL → y <= 9999).
Proof.
  intros Hn. rewrite ord2ymd_unfold. cbv zeta.
  pose proof (Z.div_mod (n - 1) 146097 ltac:(lia)) as E400.
  pose proof (Z.mod_pos_bound (n - 1) 146097 ltac:(lia)) as B400.
  set (a := (n - 1) / 146097) in *. set (r400 := (n - 1) mod 146097) in *.
  pose proof (Z.div_mod r400 36524 ltac:(lia)) as E100.
  pose proof (Z.mod_pos_bound r400 36524 ltac:(lia)) as B100.
  set (b := r400 / 36524) in *. set (r100 := r400 mod 36524) in *.
  pose proof (Z.div_mod r100 1461 ltac:(lia)) as E4.
  pose proof (Z.mod_pos_bound r100 1461 ltac:(lia)) as B4.
  set (c := r100 / 1461) in *. set (r4 := r100 mod 1461) in *.
  pose proof (Z.div_mod r4 365 ltac:(lia)) as E1.
  pose proof (Z.mod_pos_bound r4 365 ltac:(lia)) as B1.
  set (e := r4 / 365) in *. set (r1 := r4 mod 365) in *.
  assert (0 <= a) by lia. assert (0 <= b <= 4) by lia.
  assert (0 <= c <= 24) by lia. assert (0 <= e <= 4) by lia.
  unfold _MAXORDINAL, _ymd2ord, _days_before_month, days_in_month.
  destruct (Z.eqb_spec e 4) as [He|He]; [|destruct (Z.eqb_spec b 4) as [Hb|Hb]];
    cbn [orb].
  - (* the last day of a leap year inside a century *)
    replace (a * 400 + 1 + b * 100 + c * 4 + e - 1)
      with (400 * a + 100 * b + 4 * c + 3 + 1) by lia.
    rewrite days_before_year_decomp, is_leap_decomp by lia.
    assert ((c =? 24) = false) as -> by (apply Z.eqb_neq; lia).
    cbn. lia.
  - (* the last day of a 400-year cycle *)
    replace (a * 400 + 1 + b * 100 + c * 4 + e - 1)
      with (400 * a + 100 * 3 + 4 * 24 + 3 + 1) by lia.
    rewrite days_before_year_decomp, is_leap_decomp by lia.
    cbn. lia.
  - pose proof (month_day_checked
                  ((e =? 3) && (negb (c =? 24) || (b =? 3))) r1 B1) as Hmd.
    unfold month_day_ok in Hmd.
    destruct (month_day r1 _) as [m d].
    rewrite !andb_true_iff, !Z.leb_le, Z.eqb_eq in Hmd.
    destruct Hmd as ((((Hm1 & Hm2) & Hd1) & Hd2) & Hsum).
    replace (a * 400 + 1 + b * 100 + c * 4 + e)
      with (400 * a + 100 * b + 4 * c + e + 1) by lia.
    rewrite days_before_year_decomp, is_leap_decomp by lia.
    unfold leap_day in *. lia.
Qed.

(** *** Shifting a datetime keeps the instant *)

Lemma add_seconds_spec t delta t' :
  add_seconds t delta = Some t' →
  utc_seconds t' = utc_seconds t + delta ∧ utcoffset t' = utcoffset t ∧
  well_formed t'.
Proof.
  unfold add_seconds. cbv zeta.
  set (total := hour t * 3600 + minute t * 60 + second t + delta).
  set (days := _ymd2ord (year t) (month t) (day t) + total / 86400).
  destruct (Z.ltb_spec 0 days) as [Hlo|]; [|done].
  destruct (Z.leb_spec days _MAXORDINAL) as [Hhi|]; [|done]. cbn [andb].
  pose proof (ord2ymd_ok days ltac:(lia)) as Hord.
  destruct (_ord2ymd days) as [[y m] d].
  destruct Hord as (Hrt & Hm & Hd & Hy1 & Hy2). specialize (Hy2 Hhi).
  intros [= <-]. unfold utc_seconds, well_formed. cbn.
  rewrite Hrt.
  assert (total = hour t * 3600 + minute t * 60 + second t + delta) as Htot
    by done.
  unfold days in *. clearbody total.
  repeat split; try lia; Z.div_mod_to_equations; lia.
Qed.

Lemma astimezone_spec t offset t' :
  astimezone t offset = Some t' →
  utc_seconds t' = utc_seconds t ∧ utcoffset t' = offset ∧ well_formed t'.
Proof.
  unfold astimezone.
  destruct (add_seconds t (- utcoffset t)) as [utc|] eqn:E1; [|done].
  intros E2. apply add_seconds_spec in E1 as (Hu & Ho & _).
  apply add_seconds_spec in E2 as (Hu' & Ho' & Hwf).
  split; [|done]. rewrite Hu'. unfold utc_seconds in *. cbn in *. lia.
Qed.

Lemma add_seconds_is_Some t delta :
  0 < _ymd2ord (year t) (month t) (day t)
      + (hour t * 3600 + minute t * 60 + second t + delta) / 86400
    <= _MAXORDINAL →
  is_Some (add_seconds t delta).
Proof.
  intros [Hlo Hhi]. unfold add_seconds. cbv zeta.
  apply Z.ltb_lt in Hlo. apply Z.leb_le in Hhi. rewrite Hlo, Hhi. cbn [andb].
  destruct (_ord2ymd _) as [[y m] d]. by eexists.
Qed.

Lemma ymd2ord_bounds y m d :
  2 <= y <= 9998 → 1 <= m <= 12 → 1 <= d <= days_in_month y m →
  366 <= _ymd2ord y m d <= 3651695.
Proof.
  intros Hy Hm Hd.
  unfold _ymd2ord, _days_before_month, _days_before_year, days_in_month,
    leap_day in *. cbv zeta.
  assert (m = 1 ∨ m = 2 ∨ m = 3 ∨ m = 4 ∨ m = 5 ∨ m = 6 ∨ m = 7 ∨ m = 8
          ∨ m = 9 ∨ m = 10 ∨ m = 11 ∨ m = 12) as Hcases by lia.
  destruct (_is_leap y);
    repeat (destruct Hcases as [->|Hcases]); try subst m; cbn in *;
    Z.div_mod_to_equations; lia.
Qed.

Lemma astimezone_total t offset :
  well_formed t → 2 <= year t <= 9998 →
  -86400 < utcoffset t < 86400 → -86400 < offset < 86400 →
  is_Some (astimezone t offset).
Proof.
  intros (_ & Hm & Hd & Hh & Hmi & Hs) Hy Hoff Hoffset.
  pose proof (ymd2ord_bounds _ _ _ Hy Hm Hd) as Hord.
  unfold astimezone.
  destruct (add_seconds_is_Some t (- utcoffset t)) as [utc Hutc].
  { unfold _MAXORDINAL. Z.div_mod_to_equations. lia. }
  rewrite Hutc.
  pose proof (add_seconds_spec _ _ _ Hutc) as (Hu & Ho & Hwf).
  destruct Hwf as (_ & _ & _ & Hh' & Hmi' & Hs').
  apply add_seconds_is_Some. unfold utc_seconds in Hu. cbn.
  unfold _MAXORDINAL. Z.div_mod_to_equations. lia.
Qed.

(** *** The rendered string reads back to the fields *)

Lemma digit_value_digit n : digit_value (digit n) = Some (n mod 10).
Proof.
  unfold digit.
  pose proof (Z.mod_pos_bound n 10 ltac:(lia)) as Hb.
  assert (n mod 10 = 0 ∨ n mod 10 = 1 ∨ n mod 10 = 2 ∨ n mod 10 = 3
          ∨ n mod 10 = 4 ∨ n mod 10 = 5 ∨ n mod 10 = 6 ∨ n mod 10 = 7
          ∨ n mod 10 = 8 ∨ n mod 10 = 9) as Hc by lia.
  repeat (destruct Hc as [->|Hc]); try rewrite Hc; reflexivity.
Qed.

Lemma number_pad2 n : 0 <= n < 100 → number (chars (pad2 n)) 0 = Some n.
Proof.
  intros Hn. unfold pad2. cbn [chars list_ascii_of_string number].
  repeat (rewrite digit_value_digit; cbn [number]).
  f_equal. Z.div_mod_to_equations. lia.
Qed.

Lemma number_pad4 n : 0 <= n < 10000 → number (chars (pad4 n)) 0 = Some n.
Proof.
  intros Hn. unfold pad4, pad3, pad2. cbn [chars list_ascii_of_string number].
  repeat (rewrite digit_value_digit; cbn [number]).
  f_equal. Z.div_mod_to_equations. lia.
Qed.

Lemma read_created_strftime t :
  well_formed t → 1000 <= year t →
  read_created (strftime t)
  = Some (year t, month t, day t, hour t, minute t, second t).
Proof.
  intros (Hy & Hm & Hd & Hh & Hmi & Hs) Hy'.
  assert (day t < 100).
  { unfold days_in_month, leap_day, _DAYS_IN_MONTH in Hd.
    destruct (_ && _); repeat case_match; lia. }
  pose proof (number_pad4 (year t) ltac:(lia)) as Ey.
  pose proof (number_pad2 (month t) ltac:(lia)) as Em.
  pose proof (number_pad2 (day t) ltac:(lia)) as Ed.
  pose proof (number_pad2 (hour t) ltac:(lia)) as Eh.
  pose proof (number_pad2 (minute t) ltac:(lia)) as Ei.
  pose proof (number_pad2 (second t) ltac:(lia)) as Es.
  unfold strftime, year_string.
  rewrite !(proj2 (Z.ltb_ge _ _)) by lia.
  unfold pad4, pad3, pad2 in *. unfold read_created.
  cbv [String.append chars list_ascii_of_string] in *.
  by rewrite Ey, Em, Ed, Eh, Ei, Es.
Qed.

Lemma digit_cases n :
  digit n ∈ ["0"; "1"; "2"; "3"; "4"; "5"; "6"; "7"; "8"; "9"]%char.
Proof.
  unfold digit.
  pose proof (Z.mod_pos_bound n 10 ltac:(lia)) as Hb.
  assert (n mod 10 = 0 ∨ n mod 10 = 1 ∨ n mod 10 = 2 ∨ n mod 10 = 3
          ∨ n mod 10 = 4 ∨ n mod 10 = 5 ∨ n mod 10 = 6 ∨ n mod 10 = 7
          ∨ n mod 10 = 8 ∨ n mod 10 = 9) as Hc by lia.
  repeat (destruct Hc as [->|Hc]); try rewrite Hc;
    apply (bool_decide_unpack _); vm_compute; exact I.
Qed.

(** Below year 1000 the year is printed with fewer than four digits: the
    string is not of the shape [YYYY-MM-DD HH:MM:SS]. *)
Lemma read_created_short_year t :
  year t < 1000 → read_created (strftime t) = None.
Proof.
  intros Hy. unfold strftime, year_string.
  assert (∀ c : ascii,
            c ∈ ["0"; "1"; "2"; "3"; "4"; "5"; "6"; "7"; "8"; "9"]%char →
            ∀ a b c' d rest,
              match (a :: b :: c' :: d :: c :: rest)%list with
              | [y1; y2; y3; y4; "-"; m1; m2; "-"; d1; d2; " "; h1; h2; ":";
                 i1; i2; ":"; s1; s2]%char =>
                  match number [y1; y2; y3; y4] 0, number [m1; m2] 0,
                        number [d1; d2] 0, number [h1; h2] 0,
                        number [i1; i2] 0, number [s1; s2] 0 with
                  | Some y, Some m, Some d, Some h, Some i, Some s =>
                      Some (y, m, d, h, i, s)
                  | _, _, _, _, _, _ => None
                  end
              | _ => None
              end = None) as Hdigit.
  { intros c Hc a b c' d rest.
    repeat (apply elem_of_cons in Hc as [->|Hc]; [done|]).
    by apply elem_of_nil in Hc. }
  destruct (year t <? 10).
  { reflexivity. }
  destruct (year t <? 100).
  { unfold read_created, pad2.
    cbn [chars list_ascii_of_string String.append].
    apply Hdigit, digit_cases. }
  rewrite (proj2 (Z.ltb_lt _ _) Hy).
  unfold read_created, pad3, pad2.
  cbn [chars list_ascii_of_string String.append].
  apply Hdigit, digit_cases.
Qed.

End DatetimeFacts.

(** ** Reporting *)

(** *** The division of an integer by 1000 *)

Module FloatFacts.
Import Float.

Lemma digits2_pos_size p : digits2_pos p = Pos.size p.
Proof. induction p as [p IH|p IH|]; simpl; by rewrite ?IH. Qed.

Lemma Zdigits2_le m k : (0 ≤ m)%Z → (0 ≤ k)%Z → (m < 2 ^ k)%Z → (Zdigits2 m ≤ k)%Z.
Proof.
  intros Hm Hk Hlt. destruct m as [|p|p]; [done| |lia].
  simpl. rewrite digits2_pos_size.
  assert (Z.log2 (Z.pos p) < k)%Z as Hl by (apply Z.log2_lt_pow2; lia).
  destruct p as [p|p|]; simpl in *; lia.
Qed.

Lemma shr_1_m mrs : (0 ≤ shr_m mrs)%Z → shr_m (shr_1 mrs) = (shr_m mrs / 2)%Z.
Proof.
  destruct mrs as [m r s]. simpl. intros Hm.
  destruct m as [|[p|p|]|p]; cbn [shr_1 shr_m]; try done; try lia.
  - apply Z.div_unique with 1%Z; lia.
  - apply Z.div_unique with 0%Z; lia.
Qed.

Lemma iter_shr_1_m n : ∀ mrs, (0 ≤ shr_m mrs)%Z →
  shr_m (SpecFloat.iter_pos shr_1 n mrs) = (shr_m mrs / 2 ^ Z.pos n)%Z.
Proof.
  induction n as [n IH|n IH|]; intros mrs Hm; cbn [SpecFloat.iter_pos].
  - assert (0 ≤ shr_m (shr_1 mrs))%Z as H1.
    { rewrite shr_1_m by done. apply Z.div_pos; lia. }
    assert (0 ≤ shr_m (SpecFloat.iter_pos shr_1 n (shr_1 mrs)))%Z as H2.
    { rewrite IH by done. apply Z.div_pos; lia. }
    rewrite IH, IH, shr_1_m by done.
    rewrite !Z.div_div by lia. f_equal.
    replace (Z.pos n~1) with (1 + Z.pos n + Z.pos n)%Z by lia.
    rewrite !Z.pow_add_r by lia. ring.
  - assert (0 ≤ shr_m (SpecFloat.iter_pos shr_1 n mrs))%Z as H2.
    { rewrite IH by done. apply Z.div_pos; lia. }
    rewrite IH, IH by done. rewrite Z.div_div by lia. f_equal.
    replace (Z.pos n~0) with (Z.pos n + Z.pos n)%Z by lia.
    rewrite Z.pow_add_r by lia. ring.
  - by apply shr_1_m.
Qed.

(** One shift of the rounding: the exponent stays within the format and
    the mantissa within the bound that goes with it. *)
Lemma shr_fexp_bound m e l b :
  (0 ≤ m)%Z → (e ≤ emax - prec)%Z → (emax - prec ≤ b ≤ emax)%Z →
  (m < 2 ^ (b - e))%Z →
  (0 ≤ shr_m (shr_fexp prec emax m e l).1)%Z ∧
  ((shr_fexp prec emax m e l).2 ≤ emax - prec)%Z ∧
  (shr_m (shr_fexp prec emax m e l).1
   < 2 ^ (b - (shr_fexp prec emax m e l).2))%Z.
Proof.
  intros Hm He Hb Hlt. unfold shr_fexp, shr.
  assert (Zdigits2 m ≤ b - e)%Z as Hd.
  { apply Zdigits2_le; [done| |done]. unfold emax, prec in *. lia. }
  assert (shr_m (shr_record_of_loc m l) = m) as Hrec.
  { by destruct l as [|[]]. }
  unfold fexp, SpecFloat.emin, emax, prec in *.
  destruct (Z.max (Zdigits2 m + e - 53) (3 - 1024 - 53) - e)%Z as [|n|n] eqn:En;
    cbn [fst snd].
  - rewrite Hrec. lia.
  - rewrite iter_shr_1_m, Hrec by (rewrite Hrec; lia).
    split; [apply Z.div_pos; lia|]. split; [lia|].
    apply Z.div_lt_upper_bound; [lia|].
    rewrite <- Z.pow_add_r by lia.
    replace (Z.pos n + (b - (e + Z.pos n)))%Z with (b - e)%Z by lia. done.
  - rewrite Hrec. lia.
Qed.

Lemma round_nearest_even_bound m l :
  (0 ≤ m)%Z → (m ≤ round_nearest_even m l ≤ m + 1)%Z.
Proof.
  intros Hm. unfold round_nearest_even.
  destruct l as [|[]]; try lia. destruct (Z.even m); lia.
Qed.

(** The rounding of a mantissa below two to the 1023 minus its exponent
    does not overflow. *)
Lemma binary_round_aux_finite s m e l :
  (0 ≤ m)%Z → (e ≤ emax - prec)%Z → (m < 2 ^ (emax - 1 - e))%Z →
  ∀ s', binary_round_aux prec emax s m e l ≠ S754_infinity s'.
Proof.
  intros Hm He Hlt s'. unfold binary_round_aux.
  pose proof (shr_fexp_bound m e l (emax - 1) Hm He) as H1.
  destruct (shr_fexp prec emax m e l) as [mrs1 e1]. cbn [fst snd] in H1.
  destruct H1 as (Hm1 & He1 & Hlt1); [unfold emax, prec; lia|done|].
  pose proof (round_nearest_even_bound (shr_m mrs1) (loc_of_shr_record mrs1)
                Hm1) as Hr.
  pose proof (shr_fexp_bound
                (round_nearest_even (shr_m mrs1) (loc_of_shr_record mrs1))
                e1 loc_Exact emax) as H2.
  destruct (shr_fexp prec emax _ e1 loc_Exact) as [mrs2 e2].
  cbn [fst snd] in H2.
  destruct H2 as (Hm2 & He2 & Hlt2); [lia|done|unfold emax, prec; lia| |].
  { replace (emax - e1)%Z with (1 + (emax - 1 - e1))%Z by lia.
    rewrite Z.pow_add_r by (unfold emax, prec in *; lia). lia. }
  destruct (shr_m mrs2); [done| |done].
  apply Z.leb_le in He2. by rewrite He2.
Qed.

Lemma div_1000_finite s p :
  (Z.pos p < 2 ^ 1024)%Z →
  ∀ s', SFdiv prec emax (S754_finite s p 0) (S754_finite false 1000 0)
        ≠ S754_infinity s'.
Proof.
  intros Ha. cbn [SFdiv]. unfold SFdiv_core_binary.
  set (e' := Z.min _ _).
  set (m' := match (0 - 0 - e')%Z with Z.pos _ => _ | _ => _ end).
  pose proof (Z.div_eucl_eq m' 1000 ltac:(lia)) as Hq.
  pose proof (Z.mod_pos_bound m' 1000 ltac:(lia)) as Hr.
  unfold Z.modulo in Hr.
  destruct (Z.div_eucl m' 1000) as [q r].
  assert (e' ≤ 0)%Z as He' by (subst e'; lia).
  assert (0 ≤ m' ∧ m' < 2 ^ (1024 - e'))%Z as [Hm0 Hm1].
  { subst m'. destruct (0 - 0 - e')%Z as [|n|n] eqn:En.
    - replace e' with 0%Z by lia. lia.
    - rewrite Z.shiftl_mul_pow2 by lia.
      replace (1024 - e')%Z with (1024 + Z.pos n)%Z by lia.
      rewrite Z.pow_add_r by lia. nia.
    - split; [done|]. apply Z.pow_pos_nonneg; lia. }
  apply binary_round_aux_finite; unfold emax, prec; [nia|lia|].
  replace (1024 - e')%Z with (1 + (1024 - 1 - e'))%Z in Hm1 by lia.
  rewrite Z.pow_add_r in Hm1 by lia. nia.
Qed.

(** Dividing by 1000 an integer below two to the 1024 does not overflow. *)
Lemma int_truediv_1000 a :
  (Z.abs a < 2 ^ 1024)%Z → is_Some (int_truediv a 1000).
Proof.
  intros Ha. unfold int_truediv.
  assert (∀ s', SFdiv prec emax (of_int a) (of_int 1000) ≠ S754_infinity s')
    as Hfin.
  { destruct a as [|p|p]; [done| |]; apply div_1000_finite; lia. }
  destruct (SFdiv prec emax (of_int a) (of_int 1000)) as [| s'| |]; try done.
  by destruct (Hfin s').
Qed.

End FloatFacts.

Lemma to_ambient_data_spec (self : _SpeedTestResult) :
  match Float.int_truediv (download_bytesps self * 8) 1000,
        Float.int_truediv (upload_bytesps self * 8) 1000 with
  | Some download, Some upload =>
      _to_ambient_data self
      = Run []
          ([PyFloat (latency_ms self); PyFloat (jitter_ms self);
            PyFloat (Float.truediv_int download 1000);
            PyFloat (Float.truediv_int upload 1000)]
           ++ match packet_loss self with
              | Some loss => [PyFloat loss]
              | None => []
              end)
          None
  | _, _ => ending (_to_ambient_data self) = Some OverflowError
  end.
Proof.
  unfold _to_ambient_data.
  destruct (Float.int_truediv (download_bytesps self * 8) 1000); [|done].
  destruct (Float.int_truediv (upload_bytesps self * 8) 1000); [|done].
  by destruct (packet_loss self).
Qed.

Lemma payload_lookups (latency jitter download upload : pyvalue)
    (loss : option spec_float) (created : string) :
  let payload :=
    dict_of
      (imap (λ i d, ("d" +:+ pretty (S i), d))
         ([latency; jitter; download; upload]
          ++ match loss with Some x => [PyFloat x] | None => [] end))
      [("created", PyStr created)] in
  payload !! "d1" = Some latency ∧ payload !! "d2" = Some jitter ∧
  payload !! "d3" = Some download ∧ payload !! "d4" = Some upload ∧
  payload !! "d5" = PyFloat <$> loss ∧
  payload !! "created" = Some (PyStr created) ∧
  dom payload
  = list_to_set (["d1"; "d2"; "d3"; "d4"]
                 ++ (if loss is Some _ then ["d5"] else [])
                 ++ ["created"]).
Proof.
  intros payload. subst payload. unfold dict_of.
  destruct loss as [x|]; cbn [imap app foldl fst snd compose].
  - repeat split; by simplify_map_eq.
  - repeat split; by simplify_map_eq.
Qed.

(** What a payload that is built holds. *)
Lemma to_ambient_lookups (self : _SpeedTestResult)
    (payload : gmap string pyvalue) :
  to_ambient self = Some payload →
  ∃ local download upload,
    Datetime.astimezone (timestamp self) (9 * 3600) = Some local ∧
    Float.int_truediv (download_bytesps self * 8) 1000 = Some download ∧
    Float.int_truediv (upload_bytesps self * 8) 1000 = Some upload ∧
    payload !! "d1" = Some (PyFloat (latency_ms self)) ∧
    payload !! "d2" = Some (PyFloat (jitter_ms self)) ∧
    payload !! "d3" = Some (PyFloat (Float.truediv_int download 1000)) ∧
    payload !! "d4" = Some (PyFloat (Float.truediv_int upload 1000)) ∧
    payload !! "d5" = PyFloat <$> packet_loss self ∧
    payload !! "created" = Some (PyStr (Datetime.strftime local)) ∧
    dom payload
    = list_to_set (["d1"; "d2"; "d3"; "d4"]
                   ++ (if packet_loss self is Some _ then ["d5"] else [])
                   ++ ["created"]).
Proof.
  unfold to_ambient, _TIMEZONE_OFFSET.
  destruct (Datetime.astimezone (timestamp self) (9 * 3600))
    as [local|]; [|done].
  pose proof (to_ambient_data_spec self) as Hdata.
  destruct (Float.int_truediv (download_bytesps self * 8) 1000)
    as [download|]; [|by rewrite Hdata].
  destruct (Float.int_truediv (upload_bytesps self * 8) 1000)
    as [upload|]; [|by rewrite Hdata].
  rewrite Hdata. cbn [ending yielded]. intros [= <-].
  exists local, download, upload. do 3 (split; [done|]).
  apply payload_lookups.
Qed.

(** When a payload is built. *)
Lemma to_ambient_is_Some (self : _SpeedTestResult) :
  is_Some (to_ambient self) ↔
  is_Some (Datetime.astimezone (timestamp self) (9 * 3600)) ∧
  is_Some (Float.int_truediv (download_bytesps self * 8) 1000) ∧
  is_Some (Float.int_truediv (upload_bytesps self * 8) 1000).
Proof.
  unfold to_ambient, _TIMEZONE_OFFSET.
  pose proof (to_ambient_data_spec self) as Hdata.
  destruct (Datetime.astimezone (timestamp self) (9 * 3600)) as [local|].
  2:{ split; [by intros [? ?]|by intros ([? ?] & _)]. }
  destruct (Float.int_truediv (download_bytesps self * 8) 1000)
    as [download|].
  2:{ rewrite Hdata. split; [by intros [? ?]|by intros (_ & [? ?] & _)]. }
  destruct (Float.int_truediv (upload_bytesps self * 8) 1000) as [upload|].
  2:{ rewrite Hdata. split; [by intros [? ?]|by intros (_ & _ & [? ?])]. }
  rewrite Hdata. cbn [ending]. split; [by eauto|by eexists].
Qed.

Lemma to_ambient_total (self : _SpeedTestResult) :
  Datetime.well_formed (timestamp self) →
  (2 ≤ Datetime.year (timestamp self) ≤ 9998)%Z →
  (-86400 < Datetime.utcoffset (timestamp self) < 86400)%Z →
  (Z.abs (download_bytesps self) < 2 ^ 1000)%Z →
  (Z.abs (upload_bytesps self) < 2 ^ 1000)%Z →
  is_Some (to_ambient self).
Proof.
  intros Hwf Hy Hoff Hd Hu. apply to_ambient_is_Some.
  assert (2 ^ 1024 = 2 ^ 1000 * 2 ^ 24)%Z as Hpow.
  { by rewrite <- Z.pow_add_r by lia. }
  assert (0 < 2 ^ 1000)%Z by (apply Z.pow_pos_nonneg; lia).
  split; [|split].
  - apply DatetimeFacts.astimezone_total; [done|done|done|lia].
  - apply FloatFacts.int_truediv_1000. rewrite Hpow.
    change (2 ^ 24)%Z with 16777216%Z. lia.
  - apply FloatFacts.int_truediv_1000. rewrite Hpow.
    change (2 ^ 24)%Z with 16777216%Z. lia.
Qed.

Section ambient.
Context (send : nat → bool).

Lemma ambient_loop_lookup results : ∀ k results_ending config_it i ch p,
  uploads (ambient_loop send k results results_ending config_it) !! i
  = Some (ch, p) →
  config_it !! i = Some ch ∧
  ∃ r, results !! i = Some r ∧ to_ambient r = Some p.
Proof.
  induction results as [|r rest IH]; intros k e config_it i ch p; simpl.
  - by rewrite lookup_nil.
  - destruct config_it as [|c config_it']; simpl; [by rewrite lookup_nil|].
    destruct (to_ambient r) as [payload|] eqn:Ep; simpl;
      [|by rewrite lookup_nil].
    destruct (send k); simpl.
    + destruct i as [|i]; simpl.
      * intros [= <- <-]. eauto.
      * apply IH.
    + destruct i as [|i]; simpl; [|by rewrite lookup_nil].
      intros [= <- <-]. eauto.
Qed.

Lemma ambient_loop_length results : ∀ k results_ending config_it,
  (length (uploads (ambient_loop send k results results_ending config_it))
   ≤ length config_it)%nat.
Proof.
  induction results as [|r rest IH]; intros k e config_it; simpl; [lia|].
  destruct config_it as [|c config_it']; simpl; [lia|].
  destruct (to_ambient r); simpl; [|lia].
  destruct (send k); simpl; [|lia].
  specialize (IH (S k) e config_it'). lia.
Qed.

Lemma ambient_loop_success results : ∀ k results_ending config_it,
  failure (ambient_loop send k results results_ending config_it) = None →
  results_ending = None ∧
  length (uploads (ambient_loop send k results results_ending config_it))
  = length results ∧
  (length results ≤ length config_it)%nat.
Proof.
  induction results as [|r rest IH]; intros k e config_it; simpl.
  - intros ->. split; [done|]. split; [done|lia].
  - destruct config_it as [|c config_it']; simpl; [done|].
    destruct (to_ambient r); simpl; [|done].
    destruct (send k); simpl; [|done].
    intros (? & ? & ?)%IH. split; [done|]. split; lia.
Qed.

Lemma ambient_loop_complete results : ∀ k results_ending config_it i r,
  failure (ambient_loop send k results results_ending config_it) = None →
  results !! i = Some r →
  ∃ ch p, config_it !! i = Some ch ∧ to_ambient r = Some p ∧
    uploads (ambient_loop send k results results_ending config_it) !! i
    = Some (ch, p).
Proof.
  induction results as [|r0 rest IH]; intros k e config_it i r; simpl.
  - by rewrite lookup_nil.
  - destruct config_it as [|c config_it']; simpl; [done|].
    destruct (to_ambient r0) as [payload|] eqn:Ep; simpl; [|done].
    destruct (send k); simpl; [|done].
    intros Hf. destruct i as [|i]; simpl.
    + intros [= <-]. eauto.
    + by apply IH.
Qed.

Lemma ambient_loop_exhausted results : ∀ k results_ending config_it,
  (length config_it < length results)%nat →
  (∀ i, (i < length config_it)%nat → send (k + i)%nat = true) →
  (∀ i r, (i < length config_it)%nat → results !! i = Some r →
          is_Some (to_ambient r)) →
  failure (ambient_loop send k results results_ending config_it)
  = Some StopIteration ∧
  length (uploads (ambient_loop send k results results_ending config_it))
  = length config_it.
Proof.
  induction results as [|r rest IH]; intros k e config_it Hlen Hsend Hpay;
    simpl in *; [lia|].
  destruct config_it as [|c config_it']; simpl in *; [done|].
  destruct (Hpay 0%nat r ltac:(lia) eq_refl) as [payload ->].
  assert (send k = true) as ->
    by (rewrite <- (Hsend 0%nat) by lia; f_equal; lia).
  simpl.
  destruct (IH (S k) e config_it') as [E1 E2]; [lia| | |].
  - intros i Hi. rewrite <- Hsend with (i := S i) by lia. f_equal. lia.
  - intros i r' Hi Hr. apply (Hpay (S i) r'); [lia|done].
  - by rewrite E1, E2.
Qed.

End ambient.

Section ambient_more.
Context (send : nat → bool).

Lemma ambient_loop_None results : ∀ k results_ending config_it,
  failure (ambient_loop send k results results_ending config_it) = None ↔
  results_ending = None ∧ (length results ≤ length config_it)%nat ∧
  (∀ i, (i < length results)%nat → send (k + i)%nat = true) ∧
  Forall (λ r, is_Some (to_ambient r)) results.
Proof.
  induction results as [|r rest IH]; intros k e config_it; simpl.
  - split.
    + intros ->. split; [done|]. split; [lia|]. split; [lia|constructor].
    + by intros (-> & _).
  - destruct config_it as [|c config_it']; simpl.
    { split; [done|]. intros (_ & ? & _). lia. }
    destruct (to_ambient r) as [payload|] eqn:Ep; simpl.
    2:{ split; [done|]. intros (_ & _ & _ & HF).
        apply Forall_cons in HF as [[? HF] _]. congruence. }
    destruct (send k) eqn:Ek; simpl.
    + rewrite IH. split.
      * intros (-> & Hlen & Hsend & HF). split; [done|]. split; [lia|].
        split.
        -- intros [|i] Hi; [by rewrite Nat.add_0_r|].
           rewrite <- (Hsend i) by lia. f_equal. lia.
        -- constructor; [by rewrite Ep|done].
      * intros (-> & Hlen & Hsend & HF). split; [done|]. split; [lia|].
        split.
        -- intros i Hi. rewrite <- (Hsend (S i)) by lia. f_equal. lia.
        -- by apply Forall_cons in HF as [_ HF].
    + split; [done|]. intros (_ & _ & Hsend & _).
      specialize (Hsend 0%nat ltac:(lia)). rewrite Nat.add_0_r in Hsend.
      congruence.
Qed.

Lemma ambient_loop_http_error results : ∀ k results_ending config_it n,
  (n < length results)%nat → (n < length config_it)%nat →
  (∀ i, (i < n)%nat → send (k + i)%nat = true) →
  send (k + n)%nat = false →
  (∀ i r, (i ≤ n)%nat → results !! i = Some r → is_Some (to_ambient r)) →
  failure (ambient_loop send k results results_ending config_it)
  = Some HTTPError ∧
  length (uploads (ambient_loop send k results results_ending config_it))
  = S n.
Proof.
  induction results as [|r rest IH]; intros k e config_it n Hr Hc Hok Hbad Hpay;
    simpl in *; [lia|].
  destruct config_it as [|c config_it']; simpl in *; [lia|].
  destruct (Hpay 0%nat r ltac:(lia) eq_refl) as [payload ->].
  destruct n as [|n].
  - rewrite Nat.add_0_r in Hbad. by rewrite Hbad.
  - assert (send k = true) as ->
      by (rewrite <- (Hok 0%nat) by lia; f_equal; lia).
    simpl.
    destruct (IH (S k) e config_it' n) as [E1 E2]; [lia|lia| | | |].
    + intros i Hi. rewrite <- (Hok (S i)) by lia. f_equal. lia.
    + rewrite <- Hbad. f_equal. lia.
    + intros i r' Hi Hr'. apply (Hpay (S i) r'); [lia|done].
    + by rewrite E1, E2.
Qed.

End ambient_more.

(** C7. With more results than configured channels the reporting step ends
    in an exception. It never makes more uploads than there are channels,
    and upload number [i] goes to channel number [i] with the payload of
    result number [i]: no address is skipped and no channel is used twice
    or out of turn. When every upload before that is answered with success,
    the exception is the [StopIteration] of [next(config_it)], raised once
    every channel has been used. *)
Theorem ambient_fails_when_channels_run_out
    (send : nat → bool) (channels : list channel)
    (results : list _SpeedTestResult) (results_ending : option exn) :
  (length channels < length results)%nat →
  let r := _ambient send channels results results_ending in
  is_Some (failure r) ∧
  (length (uploads r) ≤ length channels)%nat ∧
  (∀ i ch p, uploads r !! i = Some (ch, p) →
     channels !! i = Some ch ∧
     ∃ result, results !! i = Some result ∧ to_ambient result = Some p) ∧
  ((∀ i, (i < length channels)%nat → send i = true) →
   (∀ i result, (i < length channels)%nat → results !! i = Some result →
                is_Some (to_ambient result)) →
   failure r = Some StopIteration ∧ length (uploads r) = length channels).
Proof.
  intros Hlen r. subst r. unfold _ambient. split; [|split; [|split]].
  - destruct (failure _) eqn:E; [by eexists|].
    apply ambient_loop_success in E as (_ & _ & ?). lia.
  - apply ambient_loop_length.
  - apply ambient_loop_lookup.
  - intros Hsend Hpay. by apply ambient_loop_exhausted.
Qed.

Lemma ambient_fails_when_channels_run_out_witness :
  let r := _ambient (λ _, true) [Channel "12345" "key"]
             [sample_result None; sample_result None] None in
  (1 < 2)%nat ∧ failure r = Some StopIteration ∧ length (uploads r) = 1%nat.
Proof.
  intros r. split; [lia|].
  destruct (ambient_fails_when_channels_run_out (λ _, true)
              [Channel "12345" "key"]
              [sample_result None; sample_result None] None)
    as (_ & _ & _ & H).
  - simpl. lia.
  - apply H.
    + done.
    + intros [|[|i]] result Hi [= <-]; (simpl in Hi; try lia).
      by eexists.
Defined.




(** * Further properties *)

(** ** The sieve and the pattern *)

Module SieveFacts.
Import Re ReFacts.

Lemma compile_agrees (s : list ascii) atoms :
  compile s = Some atoms →
  ∀ T, Forall2 (λ a c, atom_ok a c = true) atoms T ↔ Forall2 char_agrees s T.
Proof.
  revert atoms. induction s as [|c s IH]; intros atoms; simpl.
  - intros [= <-] T. split; inversion 1; constructor.
  - destruct (atom_of_char c) as [a|] eqn:Ea; [|done].
    destruct (compile s) as [atoms'|]; [|done]. intros [= <-] T.
    assert (∀ d, atom_ok a d = true ↔ char_agrees c d) as Hone.
    { intros d. unfold atom_of_char in Ea. unfold char_agrees.
      destruct (Ascii.eqb c ".") eqn:Edot.
      - simplify_eq. simpl. rewrite negb_true_iff.
        split; [by intros ?%Ascii.eqb_neq|by intros ?%Ascii.eqb_neq].
      - destruct (in_range 33 126 c && negb (special c)); simplify_eq. simpl.
        apply Ascii.eqb_eq. }
    split; inversion 1; subst; constructor;
      try (by apply Hone); by apply (IH atoms').
Qed.

Lemma search_occurs address text :
  is_Some (compile (chars address)) →
  search address text = Some true ↔ pattern_occurs address text.
Proof.
  intros [atoms Hc]. unfold search, pattern_occurs. rewrite Hc.
  split.
  - intros [= (P & T & Q & ? & HF & ? & ?)%search_from_decompose].
    exists P, T, Q. split; [done|]. split; [|done].
    by apply (compile_agrees _ _ Hc).
  - intros (P & T & Q & Hs & HF & Hl & Hr). f_equal.
    apply search_from_decompose. exists P, T, Q.
    split; [done|]. split; [|done]. by apply (compile_agrees _ _ Hc).
Qed.

Lemma search_plain address text :
  is_Some (compile (chars address)) → is_Some (search address text).
Proof. intros [atoms Hc]. unfold search. rewrite Hc. by eexists. Qed.

Lemma family_yields h addresses v4 text :
  h (route_get_args v4) = Some text →
  Forall plain addresses →
  yielded (_sieve_addresses_family search h addresses v4)
  = survivors search text addresses.
Proof.
  intros Hh Hplain.
  apply (family_total search h addresses v4 text Hh).
  eapply Forall_impl; [done|]. intros a Ha. by apply search_plain.
Qed.

(** The empty pattern: two word boundaries at one place. *)
Lemma search_from_nil (s : list ascii) : ∀ prev,
  word_opt prev = false →
  search_from [] prev s = true ↔ Exists (λ c, is_word c = true) s.
Proof.
  induction s as [|c s IH]; intros prev Hprev; simpl.
  - unfold match_here. simpl. unfold word_boundary. rewrite Hprev. simpl.
    split; [done|]. by intros ?%Exists_nil.
  - unfold match_here. simpl. unfold word_boundary. rewrite Hprev. simpl.
    rewrite Exists_cons. destruct (is_word c) eqn:Ec; simpl.
    + by split; [left|].
    + rewrite (IH (Some c)) by done. split; [by right|].
      by intros [?|?].
Qed.

Lemma Forall2_last {A B} (R : A → B → Prop) (l : list A) (k : list B) a :
  Forall2 R l k → last l = Some a → ∃ b, last k = Some b ∧ R a b.
Proof.
  induction 1 as [|x y l k Hxy HF IH]; [done|].
  destruct HF as [|x' y' l' k' Hxy' HF']; simpl in *.
  - intros [= <-]. eauto.
  - apply IH.
Qed.

Lemma Forall2_head {A B} (R : A → B → Prop) (l : list A) (k : list B) a :
  Forall2 R l k → head l = Some a → ∃ b, head k = Some b ∧ R a b.
Proof. destruct 1; [done|]. intros [= <-]. eauto. Qed.

Lemma family_yields_iff h addresses v4 text a :
  h (route_get_args v4) = Some text →
  Forall plain addresses →
  a ∈ yielded (_sieve_addresses_family search h addresses v4)
  ↔ a ∈ addresses ∧ pattern_occurs (format_value a) text.
Proof.
  intros Hh Hplain. rewrite (family_yields h _ v4 text Hh Hplain).
  unfold survivors. rewrite list_elem_of_filter. split.
  - intros [Hs Ha]. split; [done|].
    apply search_occurs; [|done].
    by apply (proj1 (Forall_forall _ _) Hplain).
  - intros [Ha Hocc]. split; [|done].
    apply search_occurs; [|done].
    by apply (proj1 (Forall_forall _ _) Hplain).
Qed.

(** The boundary next to a character that is no word character. *)
Lemma boundary_after_non_word c next :
  is_word c = false → word_boundary (Some c) next = word_opt next.
Proof. intros Hc. unfold word_boundary. simpl. by rewrite Hc. Qed.

Lemma boundary_before_non_word prev c :
  is_word c = false → word_boundary prev (Some c) = word_opt prev.
Proof.
  intros Hc. unfold word_boundary. simpl. rewrite Hc.
  by destruct (word_opt prev).
Qed.

End SieveFacts.

(** X1. For candidates of the covered alphabet and a route lookup that
    answers, the family sieve yields exactly the candidates found in the
    text: those for which some part of the text, as long as the address,
    agrees with it at every character (a dot of the address standing for
    any character but a newline) and has a word boundary on each side. *)
Theorem sieve_yields_what_pattern_finds
    (h : host) (addresses : list (option string)) (v4 : bool)
    (text : string) :
  h (route_get_args v4) = Some text →
  Forall plain addresses →
  ∀ a, a ∈ yielded (_sieve_addresses_family Re.search h addresses v4)
       ↔ a ∈ addresses ∧ pattern_occurs (format_value a) text.
Proof.
  intros Hh Hplain a. rewrite (SieveFacts.family_yields h _ v4 text Hh Hplain).
  unfold survivors. rewrite list_elem_of_filter. split.
  - intros [Hs Ha]. split; [done|].
    apply SieveFacts.search_occurs; [|done].
    by apply (proj1 (Forall_forall _ _) Hplain).
  - intros [Ha Hocc]. split; [|done].
    apply SieveFacts.search_occurs; [|done].
    by apply (proj1 (Forall_forall _ _) Hplain).
Qed.

Lemma sieve_yields_what_pattern_finds_witness :
  let text := "192.0.2.0 via 10.0.0.1 dev eth0 src 10.0.0.5 uid 1000" in
  let h := host_of_routes None (Some text) None in
  Some "10.0.0.5" ∈ [Some "10.0.0.6"; Some "10.0.0.5"]
  ∧ pattern_occurs "10.0.0.5" text.
Proof.
  intros text h.
  apply (sieve_yields_what_pattern_finds h
           [Some "10.0.0.6"; Some "10.0.0.5"] true text).
  - reflexivity.
  - apply (bool_decide_unpack _). vm_compute. exact I.
  - apply (bool_decide_unpack _). vm_compute. exact I.
Defined.

(** X2. No false negative: for candidates of the covered alphabet, a
    candidate that stands in the route text as a word-delimited token is
    yielded. *)
Theorem sieve_keeps_token
    (h : host) (addresses : list (option string)) (v4 : bool)
    (address pre post : string) :
  h (route_get_args v4) = Some (pre +:+ address +:+ post) →
  Forall plain addresses →
  Some address ∈ addresses →
  token_between pre address post →
  Some address ∈ yielded (_sieve_addresses_family Re.search h addresses v4).
Proof.
  intros Hh Hplain Ha Htok.
  rewrite (SieveFacts.family_yields h _ v4 _ Hh Hplain).
  unfold survivors. apply list_elem_of_filter. split; [|done].
  apply ReFacts.search_token_found; [|done].
  by apply (proj1 (Forall_forall _ _) Hplain (Some address)).
Qed.

Lemma sieve_keeps_token_witness :
  let pre := "2001:db8:: from :: via fe80::1 dev eth0 src " in
  let post := " metric 1024 pref medium" in
  let h := host_of_routes None None (Some (pre +:+ "2001:db8:1::5" +:+ post)) in
  token_between pre "2001:db8:1::5" post
  ∧ Some "2001:db8:1::5"
      ∈ yielded (_sieve_addresses_family Re.search h
                   [Some "2001:db8:2::9"; Some "2001:db8:1::5"] false).
Proof.
  intros pre post h.
  assert (token_between pre "2001:db8:1::5" post) as Htok
    by (split; reflexivity).
  split; [done|].
  apply (sieve_keeps_token h _ false "2001:db8:1::5" pre post).
  - reflexivity.
  - apply (bool_decide_unpack _). vm_compute. exact I.
  - apply (bool_decide_unpack _). vm_compute. exact I.
  - done.
Defined.

(** X3. For candidates without a dot (IPv6 addresses written without an
    embedded IPv4 part), the sieve is the literal test: it yields exactly
    the candidates that stand in the text as a word-delimited literal
    substring, in their order. *)
Theorem sieve_literal_without_dot
    (h : host) (addresses : list (option string)) (v4 : bool)
    (text : string) :
  h (route_get_args v4) = Some text →
  Forall plain addresses →
  Forall (λ a, "."%char ∉ chars (format_value a)) addresses →
  yielded (_sieve_addresses_family Re.search h addresses v4)
  = filter (λ a, Re.search_literal (format_value a) text = true) addresses.
Proof.
  intros Hh Hplain Hdot.
  rewrite (SieveFacts.family_yields h _ v4 text Hh Hplain).
  unfold survivors. clear Hh.
  induction addresses as [|a rest IH]; [done|].
  apply Forall_cons in Hplain as [Ha Hrest].
  apply Forall_cons in Hdot as [Hda Hdrest].
  rewrite !filter_cons, IH by done.
  rewrite (ReFacts.search_dotfree (format_value a) text Ha Hda).
  destruct (Re.search_literal (format_value a) text).
  - by rewrite !decide_True.
  - by rewrite !decide_False.
Qed.

Lemma sieve_literal_without_dot_witness :
  let text := "2001:db8:: from :: via fe80::1 dev eth0 src 2001:db8:1::5" in
  let h := host_of_routes None None (Some text) in
  yielded (_sieve_addresses_family Re.search h
             [Some "2001:db8:2::9"; Some "2001:db8:1::5"] false)
  = [Some "2001:db8:1::5"].
Proof.
  intros text h.
  rewrite (sieve_literal_without_dot h _ false text).
  - vm_compute. reflexivity.
  - reflexivity.
  - apply (bool_decide_unpack _). vm_compute. exact I.
  - apply (bool_decide_unpack _). vm_compute. exact I.
Defined.

(** X4. An empty address is the pattern of two word boundaries: among
    candidates of the covered alphabet, an empty-string candidate is
    yielded exactly when the route text has a letter, a digit or an
    underscore somewhere. *)
Theorem sieve_empty_candidate
    (h : host) (addresses : list (option string)) (v4 : bool)
    (text : string) :
  h (route_get_args v4) = Some text →
  Forall plain addresses →
  Some "" ∈ addresses →
  Some "" ∈ yielded (_sieve_addresses_family Re.search h addresses v4)
  ↔ Exists (λ c, Re.is_word c = true) (chars text).
Proof.
  intros Hh Hplain Ha.
  rewrite (SieveFacts.family_yields h _ v4 text Hh Hplain).
  unfold survivors. rewrite list_elem_of_filter.
  change (Re.search (format_value (Some "")) text)
    with (Some (Re.search_from [] None (chars text))).
  rewrite <- (SieveFacts.search_from_nil (chars text) None) by done.
  split; [by intros [[= ?] _]|]. intros ->. done.
Qed.

Lemma sieve_empty_candidate_witness :
  let h := host_of_routes None (Some "192.0.2.0 dev eth0") None in
  Some "" ∈ yielded (_sieve_addresses_family Re.search h
                       [Some "10.0.0.6"; Some ""] true).
Proof.
  intros h.
  apply (sieve_empty_candidate h _ true "192.0.2.0 dev eth0").
  - reflexivity.
  - apply (bool_decide_unpack _). vm_compute. exact I.
  - apply (bool_decide_unpack _). vm_compute. exact I.
  - apply (bool_decide_unpack _). vm_compute. exact I.
Defined.

(** X5. A candidate that is [None] (an entry without local address) is
    searched for as the word [None]: it is yielded only if the route text
    holds [None] as a word-delimited token. *)
Theorem sieve_none_candidate
    (h : host) (addresses : list (option string)) (v4 : bool) :
  None ∈ yielded (_sieve_addresses_family Re.search h addresses v4) →
  ∃ pre post,
    h (route_get_args v4) = Some (pre +:+ "None" +:+ post) ∧
    token_between pre "None" post.
Proof.
  intros (text & Hh & Hs)%family_elem. simpl in Hs.
  rewrite (ReFacts.search_dotfree "None" text) in Hs.
  - injection Hs as Hs.
    apply ReFacts.search_literal_spec in Hs as (pre & post & -> & Htok).
    eauto.
  - by eexists.
  - apply (bool_decide_unpack _). by vm_compute.
Qed.

Lemma sieve_none_candidate_witness :
  let h := host_of_routes None (Some "None") None in
  ∃ pre post,
    h (route_get_args true) = Some (pre +:+ "None" +:+ post) ∧
    token_between pre "None" post.
Proof.
  intros h.
  apply (sieve_none_candidate h [None] true).
  apply (bool_decide_unpack _). vm_compute. exact I.
Defined.

(** X6. The word boundary next to a colon. Among candidates of the
    covered alphabet and with a route lookup that answers, a candidate that
    ends in a colon (such as 2001:db8:1::) is yielded exactly when the text
    has a part that agrees with it, with a word boundary before it, and
    directly followed by a letter, a digit or an underscore: an occurrence
    followed by a blank, or at the end of the text, is not a match.
    Likewise a candidate that begins with a colon is yielded exactly when
    such a part stands directly after a letter, a digit or an underscore. *)
Theorem sieve_colon_needs_word_neighbour
    (h : host) (addresses : list (option string)) (v4 : bool)
    (address text : string) :
  h (route_get_args v4) = Some text →
  Forall plain addresses →
  Some address ∈ addresses →
  (last (chars address) = Some ":"%char →
   Some address ∈ yielded (_sieve_addresses_family Re.search h addresses v4)
   ↔ ∃ P T Q, chars text = P ++ T ++ Q ∧
       Forall2 char_agrees (chars address) T ∧
       Re.word_boundary (last P) (head (T ++ Q)) = true ∧
       Re.word_opt (head Q) = true)
  ∧ (head (chars address) = Some ":"%char →
     Some address ∈ yielded (_sieve_addresses_family Re.search h addresses v4)
     ↔ ∃ P T Q, chars text = P ++ T ++ Q ∧
         Forall2 char_agrees (chars address) T ∧
         Re.word_opt (last P) = true ∧
         Re.word_boundary (last (P ++ T)) (head Q) = true).
Proof.
  intros Hh Hplain Ha.
  pose proof (SieveFacts.family_yields_iff h addresses v4 text (Some address)
                Hh Hplain) as Hiff.
  cbn [format_value] in Hiff. unfold pattern_occurs in Hiff.
  assert (∀ (P T Q : list ascii),
            Forall2 char_agrees (chars address) T →
            last (chars address) = Some ":"%char →
            last (P ++ T) = Some ":"%char) as Hlast.
  { intros P T Q HF Hl.
    destruct (SieveFacts.Forall2_last _ _ _ _ HF Hl) as (b & Hb & Hab).
    unfold char_agrees in Hab. simpl in Hab. subst b.
    destruct T as [|t T] using rev_ind; [done|].
    rewrite app_assoc, last_snoc. by rewrite last_snoc in Hb. }
  assert (∀ (T Q : list ascii),
            Forall2 char_agrees (chars address) T →
            head (chars address) = Some ":"%char →
            head (T ++ Q) = Some ":"%char) as Hhead.
  { intros T Q HF Hd.
    destruct (SieveFacts.Forall2_head _ _ _ _ HF Hd) as (b & Hb & Hab).
    unfold char_agrees in Hab. simpl in Hab. subst b. by destruct T. }
  split.
  - intros Hl. rewrite Hiff. split.
    + intros (_ & P & T & Q & Ht & HF & Hb & Hr).
      exists P, T, Q. do 3 (split; [done|]).
      rewrite (Hlast P T Q HF Hl) in Hr.
      by rewrite SieveFacts.boundary_after_non_word in Hr.
    + intros (P & T & Q & Ht & HF & Hb & Hr). split; [done|].
      exists P, T, Q. do 3 (split; [done|]).
      rewrite (Hlast P T Q HF Hl).
      by rewrite SieveFacts.boundary_after_non_word.
  - intros Hd. rewrite Hiff. split.
    + intros (_ & P & T & Q & Ht & HF & Hb & Hr).
      exists P, T, Q. do 2 (split; [done|]). split; [|done].
      rewrite (Hhead T Q HF Hd) in Hb.
      by rewrite SieveFacts.boundary_before_non_word in Hb.
    + intros (P & T & Q & Ht & HF & Hb & Hr). split; [done|].
      exists P, T, Q. do 2 (split; [done|]). split; [|done].
      rewrite (Hhead T Q HF Hd).
      by rewrite SieveFacts.boundary_before_non_word.
Qed.

Lemma sieve_colon_needs_word_neighbour_witness :
  let followed := host_of_routes None None (Some "src 2001:db8:1::5 metric") in
  let alone := host_of_routes None None (Some "src 2001:db8:1:: metric") in
  (∃ P T Q, chars "src 2001:db8:1::5 metric" = P ++ T ++ Q ∧
     Forall2 char_agrees (chars "2001:db8:1::") T ∧
     Re.word_boundary (last P) (head (T ++ Q)) = true ∧
     Re.word_opt (head Q) = true)
  ∧ ¬ (∃ P T Q, chars "src 2001:db8:1:: metric" = P ++ T ++ Q ∧
         Forall2 char_agrees (chars "2001:db8:1::") T ∧
         Re.word_boundary (last P) (head (T ++ Q)) = true ∧
         Re.word_opt (head Q) = true).
Proof.
  intros followed alone. split.
  - apply (sieve_colon_needs_word_neighbour followed [Some "2001:db8:1::"]
             false "2001:db8:1::" "src 2001:db8:1::5 metric");
      [reflexivity| | |reflexivity|].
    + apply (bool_decide_unpack _). vm_compute. exact I.
    + apply (bool_decide_unpack _). vm_compute. exact I.
    + apply (bool_decide_unpack _). vm_compute. exact I.
  - intros Hocc.
    apply (sieve_colon_needs_word_neighbour alone [Some "2001:db8:1::"]
             false "2001:db8:1::" "src 2001:db8:1:: metric") in Hocc;
      [| reflexivity | | | reflexivity].
    + revert Hocc. apply (bool_decide_unpack _). vm_compute. exact I.
    + apply (bool_decide_unpack _). vm_compute. exact I.
    + apply (bool_decide_unpack _). vm_compute. exact I.
Defined.

(** ** Discovery as a whole *)

Lemma get_ip_addresses_unfold
    (search : string → string → option bool)
    (json_loads : string → option (list interface)) (h : host)
    (listing : string) (ifs : list interface) :
  h address_show_args = Some listing →
  json_loads listing = Some ifs →
  let addr_infos := concat (map aigetter ifs) in
  let sieve :=
    _sieve_addresses search h (locals_of "inet" addr_infos)
      (locals_of "inet6" addr_infos) in
  _get_ip_addresses search json_loads h
  = Run (address_show_args :: calls sieve) (yielded sieve) (ending sieve).
Proof.
  intros Hl Hj addr_infos sieve. unfold _get_ip_addresses, _command.
  rewrite Hl, Hj. fold addr_infos. by rewrite separate_family_spec.
Qed.

(** X7. The discovery runs the address listing first and exactly once,
    then at most the IPv4 route lookup and the IPv6 route lookup, in that
    order and each at most once: never more than three commands. When the
    listing command or the reading of its output fails, no route lookup is
    made and nothing is yielded. *)
Theorem discovery_commands
    (search : string → string → option bool)
    (json_loads : string → option (list interface)) (h : host) :
  ∃ lookups,
    calls (_get_ip_addresses search json_loads h)
    = address_show_args :: lookups
    ∧ lookups `sublist_of` [route_get_args true; route_get_args false]
    ∧ (match h address_show_args with
       | Some listing => json_loads listing = None
       | None => True
       end →
       lookups = [] ∧ yielded (_get_ip_addresses search json_loads h) = []
       ∧ is_Some (ending (_get_ip_addresses search json_loads h))).
Proof.
  destruct (h address_show_args) as [listing|] eqn:Hl.
  - destruct (json_loads listing) as [ifs|] eqn:Hj.
    + rewrite (get_ip_addresses_unfold search json_loads h listing ifs Hl Hj).
      cbn [calls yielded ending]. eexists. split; [done|]. split; [|done].
      unfold _sieve_addresses, yield_from.
      destruct (ending _); cbn [calls]; rewrite !family_calls;
        repeat case_match; repeat constructor.
    + exists []. unfold _get_ip_addresses, _command. rewrite Hl, Hj.
      cbn. split; [done|]. split; [apply sublist_nil_l|]. by eauto.
  - exists []. unfold _get_ip_addresses, _command. rewrite Hl.
    cbn. split; [done|]. split; [apply sublist_nil_l|]. by eauto.
Qed.

(** X8. Every address the discovery yields is the [local] value of an
    entry tagged [inet] or [inet6] in the address list of some interface
    of the listing; this holds for any behaviour of the search. *)
Theorem discovery_provenance
    (search : string → string → option bool)
    (json_loads : string → option (list interface)) (h : host)
    (a : option string) :
  a ∈ yielded (_get_ip_addresses search json_loads h) →
  ∃ listing ifs i entries ai,
    h address_show_args = Some listing ∧ json_loads listing = Some ifs ∧
    i ∈ ifs ∧ addr_info i = Some entries ∧ ai ∈ entries ∧
    ai !! "local" = a ∧ (has_family "inet" ai ∨ has_family "inet6" ai).
Proof.
  destruct (h address_show_args) as [listing|] eqn:Hl;
    [|unfold _get_ip_addresses, _command; rewrite Hl;
      by intros ?%elem_of_nil].
  destruct (json_loads listing) as [ifs|] eqn:Hj;
    [|unfold _get_ip_addresses, _command; rewrite Hl, Hj;
      by intros ?%elem_of_nil].
  rewrite (get_ip_addresses_unfold search json_loads h listing ifs Hl Hj).
  cbn [yielded]. intros Ha.
  assert (∃ fam, (fam = "inet" ∨ fam = "inet6") ∧
            a ∈ locals_of fam (concat (map aigetter ifs)))
    as (fam & Hfam & Hloc).
  { unfold _sieve_addresses, yield_from in Ha.
    destruct (ending (_sieve_addresses_family search h
                        (locals_of "inet" (concat (map aigetter ifs))) true));
      cbn [yielded] in Ha.
    - exists "inet". split; [by left|].
      eapply elem_of_sublist; [done|apply family_sublist].
    - apply elem_of_app in Ha as [Ha|Ha].
      + exists "inet". split; [by left|].
        eapply elem_of_sublist; [done|apply family_sublist].
      + exists "inet6". split; [by right|].
        eapply elem_of_sublist; [done|apply family_sublist]. }
  unfold locals_of in Hloc.
  apply list_elem_of_fmap in Hloc as (ai & -> & Hai).
  apply list_elem_of_filter in Hai as [Hf Hai].
  apply list_elem_of_In, in_concat in Hai as (entries & Hentries & Hai).
  apply list_elem_of_In in Hai.
  apply in_map_iff in Hentries as (i & Hi & Hin).
  apply list_elem_of_In in Hin.
  exists listing, ifs, i, entries, ai.
  split; [done|]. split; [done|]. split; [done|]. split.
  - unfold aigetter in Hi. destruct (addr_info i); simpl in Hi; [by subst|].
    subst. by apply elem_of_nil in Hai.
  - split; [done|]. split; [done|].
    destruct Hfam as [->| ->]; [by left|by right].
Qed.

Lemma discovery_provenance_witness :
  let json_loads : string → option (list interface) :=
    λ _, Some [Interface None;
               Interface (Some [entry "inet" (Some "203.0.113.5")])] in
  let h := host_of_routes (Some "[...]")
             (Some "192.0.2.0 dev eth0 src 203.0.113.5 uid 1000") None in
  ∃ listing ifs i entries ai,
    h address_show_args = Some listing ∧ json_loads listing = Some ifs ∧
    i ∈ ifs ∧ addr_info i = Some entries ∧ ai ∈ entries ∧
    ai !! "local" = Some "203.0.113.5" ∧
    (has_family "inet" ai ∨ has_family "inet6" ai).
Proof.
  intros json_loads h.
  apply (discovery_provenance Re.search json_loads h).
  apply (bool_decide_unpack _). vm_compute. exact I.
Defined.

(** X9. The splitter works interface by interface: on the flattened
    listing each output is the concatenation, in interface order, of what
    the splitter gives for each interface alone, and an interface without
    an [addr_info] key contributes nothing. *)
Theorem separate_family_by_interface (ifs : list interface) :
  _separate_family (concat (map aigetter ifs))
  = (concat (map (λ i, (_separate_family (aigetter i)).1) ifs),
     concat (map (λ i, (_separate_family (aigetter i)).2) ifs))
  ∧ ∀ before after,
      _separate_family
        (concat (map aigetter (before ++ Interface None :: after)))
      = _separate_family (concat (map aigetter (before ++ after))).
Proof.
  split.
  - induction ifs as [|i ifs IH]; [done|].
    cbn [map concat]. rewrite separate_family_spec, !locals_of_app.
    rewrite separate_family_spec in IH. injection IH as <- <-.
    by rewrite separate_family_spec.
  - intros before after. by rewrite !map_app, !concat_app.
Qed.

(** ** Reporting: success and the first failure *)

(** X10. The reporting step ends without exception exactly when the
    results ended without exception, there are at least as many channels as
    results, every upload is answered with success and every result has a
    payload. Surplus channels are left unused. *)
Theorem ambient_succeeds_iff
    (send : nat → bool) (channels : list channel)
    (results : list _SpeedTestResult) (results_ending : option exn) :
  (failure (_ambient send channels results results_ending) = None ↔
   results_ending = None ∧ (length results ≤ length channels)%nat ∧
   (∀ i, (i < length results)%nat → send i = true) ∧
   Forall (λ r, is_Some (to_ambient r)) results)
  ∧ (length (uploads (_ambient send channels results results_ending))
     ≤ length results)%nat.
Proof.
  unfold _ambient. split; [apply ambient_loop_None|].
  generalize 0%nat. revert channels.
  induction results as [|r rest IH]; intros channels k; simpl; [lia|].
  destruct channels as [|c channels]; simpl; [lia|].
  destruct (to_ambient r); simpl; [|lia].
  destruct (send k); simpl; [|lia].
  specialize (IH channels (S k)). lia.
Qed.

(** X11. No retry and no skipping: when upload number [n] is the first
    one answered with a failure, the step ends with that HTTP error after
    exactly [n + 1] uploads; the results after it are not uploaded. *)
Theorem ambient_stops_at_first_http_error
    (send : nat → bool) (channels : list channel)
    (results : list _SpeedTestResult) (results_ending : option exn)
    (n : nat) :
  (n < length results)%nat → (n < length channels)%nat →
  (∀ i, (i < n)%nat → send i = true) → send n = false →
  (∀ i r, (i ≤ n)%nat → results !! i = Some r → is_Some (to_ambient r)) →
  failure (_ambient send channels results results_ending) = Some HTTPError
  ∧ length (uploads (_ambient send channels results results_ending)) = S n.
Proof.
  intros. unfold _ambient. by apply ambient_loop_http_error.
Qed.

Lemma ambient_stops_at_first_http_error_witness :
  let r := _ambient (λ i, bool_decide (i ≠ 1%nat))
             [Channel "1" "a"; Channel "2" "b"; Channel "3" "c"]
             [sample_result None; sample_result None; sample_result None]
             None in
  failure r = Some HTTPError ∧ length (uploads r) = 2%nat.
Proof.
  intros r.
  apply (ambient_stops_at_first_http_error _ _ _ None 1).
  - simpl. lia.
  - simpl. lia.
  - intros i Hi. assert (i = 0%nat) as -> by lia. reflexivity.
  - reflexivity.
  - intros i r0 Hi Hr.
    assert (i = 0 ∨ i = 1)%nat as [-> | ->] by lia;
      injection Hr as <-; by eexists.
Defined.

(** ** Dates: one instant, one rendering *)

Module CalendarFacts.
Import Datetime DatetimeFacts.
Local Open Scope Z_scope.

Lemma leap_day_is_leap y :
  leap_day (_is_leap y) = 1 ∧ y mod 4 = 0 ∧ (y mod 100 ≠ 0 ∨ y mod 400 = 0)
  ∨ leap_day (_is_leap y) = 0 ∧ ¬ (y mod 4 = 0 ∧ (y mod 100 ≠ 0 ∨ y mod 400 = 0)).
Proof.
  destruct (_is_leap y) eqn:E; [left|right]; (split; [done|]).
  - by apply is_leap_spec.
  - rewrite <- is_leap_spec. congruence.
Qed.

Lemma days_before_year_succ y :
  _days_before_year (y + 1)
  = _days_before_year y + 365 + leap_day (_is_leap y).
Proof.
  unfold _days_before_year. cbv zeta.
  replace (y + 1 - 1) with y by lia.
  destruct (leap_day_is_leap y) as [(-> & H)|(-> & H)];
    Z.div_mod_to_equations; lia.
Qed.

Lemma days_before_year_mono y y' :
  y <= y' → _days_before_year y <= _days_before_year y'.
Proof.
  intros. unfold _days_before_year. cbv zeta.
  Z.div_mod_to_equations. lia.
Qed.

Lemma day_of_year_bounds y m d :
  1 <= m <= 12 → 1 <= d <= days_in_month y m →
  1 <= _days_before_month y m + d <= 365 + leap_day (_is_leap y).
Proof.
  intros Hm Hd. unfold _days_before_month, days_in_month, leap_day in *.
  assert (m = 1 ∨ m = 2 ∨ m = 3 ∨ m = 4 ∨ m = 5 ∨ m = 6 ∨ m = 7 ∨ m = 8
          ∨ m = 9 ∨ m = 10 ∨ m = 11 ∨ m = 12) as Hcases by lia.
  destruct (_is_leap y);
    repeat (destruct Hcases as [->|Hcases]); try subst m; cbn in *; lia.
Qed.

Lemma day_of_year_inj y m d m' d' :
  1 <= m <= 12 → 1 <= d <= days_in_month y m →
  1 <= m' <= 12 → 1 <= d' <= days_in_month y m' →
  _days_before_month y m + d = _days_before_month y m' + d' →
  m = m' ∧ d = d'.
Proof.
  intros Hm Hd Hm' Hd'.
  unfold _days_before_month, days_in_month, leap_day in *.
  assert (m = 1 ∨ m = 2 ∨ m = 3 ∨ m = 4 ∨ m = 5 ∨ m = 6 ∨ m = 7 ∨ m = 8
          ∨ m = 9 ∨ m = 10 ∨ m = 11 ∨ m = 12) as Hcases by lia.
  assert (m' = 1 ∨ m' = 2 ∨ m' = 3 ∨ m' = 4 ∨ m' = 5 ∨ m' = 6 ∨ m' = 7
          ∨ m' = 8 ∨ m' = 9 ∨ m' = 10 ∨ m' = 11 ∨ m' = 12) as Hcases' by lia.
  destruct (_is_leap y);
    repeat (destruct Hcases as [->|Hcases]); try subst m;
    repeat (destruct Hcases' as [->|Hcases']); try subst m';
    cbn in *; lia.
Qed.

Lemma ymd2ord_inj y m d y' m' d' :
  1 <= m <= 12 → 1 <= d <= days_in_month y m →
  1 <= m' <= 12 → 1 <= d' <= days_in_month y' m' →
  _ymd2ord y m d = _ymd2ord y' m' d' →
  y = y' ∧ m = m' ∧ d = d'.
Proof.
  intros Hm Hd Hm' Hd' Hord. unfold _ymd2ord in Hord.
  pose proof (day_of_year_bounds y m d Hm Hd) as Hb.
  pose proof (day_of_year_bounds y' m' d' Hm' Hd') as Hb'.
  assert (y = y') as <-.
  { destruct (Z.lt_trichotomy y y') as [Hlt|[?|Hlt]]; [|done|].
    - pose proof (days_before_year_succ y).
      pose proof (days_before_year_mono (y + 1) y' ltac:(lia)). lia.
    - pose proof (days_before_year_succ y').
      pose proof (days_before_year_mono (y' + 1) y ltac:(lia)). lia. }
  split; [done|]. apply (day_of_year_inj y); try done. lia.
Qed.

Lemma ymd2ord_positive y m d :
  1 <= y → 1 <= m <= 12 → 1 <= d <= days_in_month y m → 1 <= _ymd2ord y m d.
Proof.
  intros Hy Hm Hd. pose proof (day_of_year_bounds y m d Hm Hd).
  pose proof (days_before_year_mono 1 y Hy). unfold _ymd2ord.
  change (_days_before_year 1) with 0 in *. lia.
Qed.

Lemma ymd2ord_le_max y m d :
  y <= 9999 → 1 <= m <= 12 → 1 <= d <= days_in_month y m →
  _ymd2ord y m d <= _MAXORDINAL.
Proof.
  intros Hy Hm Hd. pose proof (day_of_year_bounds y m d Hm Hd).
  pose proof (days_before_year_succ y).
  pose proof (days_before_year_mono (y + 1) 10000 ltac:(lia)).
  unfold _ymd2ord, _MAXORDINAL.
  change (_days_before_year 10000) with 3652059 in *. lia.
Qed.

(** The calendar round trip: the date of the ordinal of a date is that
    date. *)
Lemma ord2ymd_ymd2ord y m d :
  1 <= y → 1 <= m <= 12 → 1 <= d <= days_in_month y m →
  _ord2ymd (_ymd2ord y m d) = (y, m, d).
Proof.
  intros Hy Hm Hd. pose proof (ymd2ord_positive y m d Hy Hm Hd) as Hpos.
  pose proof (ord2ymd_ok (_ymd2ord y m d) Hpos) as Hok.
  destruct (_ord2ymd (_ymd2ord y m d)) as [[y' m'] d'].
  destruct Hok as (Hrt & Hm' & Hd' & _).
  by destruct (ymd2ord_inj y' m' d' y m d Hm' Hd' Hm Hd Hrt) as (-> & -> & ->).
Qed.

Lemma same_instant_same_fields t1 t2 :
  well_formed t1 → well_formed t2 →
  utcoffset t1 = utcoffset t2 → utc_seconds t1 = utc_seconds t2 →
  year t1 = year t2 ∧ month t1 = month t2 ∧ day t1 = day t2 ∧
  hour t1 = hour t2 ∧ minute t1 = minute t2 ∧ second t1 = second t2.
Proof.
  intros (_ & Hm1 & Hd1 & Hh1 & Hi1 & Hs1) (_ & Hm2 & Hd2 & Hh2 & Hi2 & Hs2)
    Hoff Hsec.
  unfold utc_seconds in Hsec.
  assert (_ymd2ord (year t1) (month t1) (day t1)
          = _ymd2ord (year t2) (month t2) (day t2)) as Hord by lia.
  destruct (ymd2ord_inj _ _ _ _ _ _ Hm1 Hd1 Hm2 Hd2 Hord) as (Hy & Hm & Hd).
  repeat split; try done; lia.
Qed.

End CalendarFacts.

(** X12. The [created] field depends on the instant only: two results
    whose timestamps denote the same instant, whatever offsets from UTC
    they are written with, get the same [created] string. *)
Theorem created_depends_on_instant
    (r1 r2 : _SpeedTestResult) (p1 p2 : gmap string pyvalue) :
  to_ambient r1 = Some p1 → to_ambient r2 = Some p2 →
  Datetime.utc_seconds (timestamp r1) = Datetime.utc_seconds (timestamp r2) →
  p1 !! "created" = p2 !! "created".
Proof.
  intros H1 H2 Hsame.
  destruct (to_ambient_lookups r1 p1 H1)
    as (l1 & _ & _ & E1 & _ & _ & _ & _ & _ & _ & _ & Hc1 & _).
  destruct (to_ambient_lookups r2 p2 H2)
    as (l2 & _ & _ & E2 & _ & _ & _ & _ & _ & _ & _ & Hc2 & _).
  rewrite Hc1, Hc2. do 2 f_equal.
  apply DatetimeFacts.astimezone_spec in E1 as (Hu1 & Ho1 & Hw1).
  apply DatetimeFacts.astimezone_spec in E2 as (Hu2 & Ho2 & Hw2).
  destruct (CalendarFacts.same_instant_same_fields l1 l2)
    as (Ey & Em & Ed & Eh & Ei & Es); [done|done|congruence|congruence|].
  unfold Datetime.strftime. by rewrite Ey, Em, Ed, Eh, Ei, Es.
Qed.

Lemma created_depends_on_instant_witness :
  let r2 :=
    SpeedTestResult (Datetime.Make 2024 3 1 1 0 0 0 34200)
      (S754_zero false) (S754_zero false) 0 0 None in
  ∃ p1 p2,
    to_ambient (sample_result None) = Some p1 ∧ to_ambient r2 = Some p2 ∧
    p1 !! "created" = p2 !! "created".
Proof.
  intros r2. eexists _, _. split; [reflexivity|]. split; [reflexivity|].
  by apply (created_depends_on_instant (sample_result None) r2).
Defined.

Module ShiftFacts.
Import Datetime DatetimeFacts CalendarFacts.
Local Open Scope Z_scope.

(** Adding seconds within the day, or into the next day of the month. *)
Lemma add_seconds_within_month t delta :
  well_formed t →
  let total := hour t * 3600 + minute t * 60 + second t + delta in
  let carry := total / 86400 in
  let secs := total mod 86400 in
  0 <= carry → day t + carry <= days_in_month (year t) (month t) →
  add_seconds t delta
  = Some (Make (year t) (month t) (day t + carry)
            (secs / 3600) (secs mod 3600 / 60) (secs mod 60)
            (microsecond t) (utcoffset t)).
Proof.
  intros (Hy & Hm & Hd & _) total carry secs Hc Hday.
  unfold add_seconds. cbv zeta. fold total. fold carry. fold secs.
  assert (_ymd2ord (year t) (month t) (day t) + carry
          = _ymd2ord (year t) (month t) (day t + carry)) as ->
    by (unfold _ymd2ord; lia).
  pose proof (ymd2ord_positive (year t) (month t) (day t + carry)
                ltac:(lia) Hm ltac:(lia)) as Hpos.
  pose proof (ymd2ord_le_max (year t) (month t) (day t + carry)
                ltac:(lia) Hm ltac:(lia)) as Hmax.
  rewrite (proj2 (Z.ltb_lt _ _)) by lia.
  rewrite (proj2 (Z.leb_le _ _)) by lia. cbn [andb].
  by rewrite ord2ymd_ymd2ord by lia.
Qed.

Lemma to_utc_of_utc t :
  well_formed t → utcoffset t = 0 →
  add_seconds t (- utcoffset t) = Some t.
Proof.
  intros Hwf Hoff. pose proof Hwf as (_ & _ & _ & Hh & Hi & Hs).
  rewrite add_seconds_within_month; try done; rewrite Hoff.
  - destruct t as [y m d h i s us off]. cbn in *. subst off.
    f_equal. f_equal; Z.div_mod_to_equations; lia.
  - Z.div_mod_to_equations. lia.
  - destruct Hwf as (_ & _ & Hd & _). Z.div_mod_to_equations. lia.
Qed.

End ShiftFacts.

(** X13. For a timestamp written in UTC and rates below two to the 1000,
    a payload is built and [created] is the same clock reading advanced by
    nine hours: before 15:00 the date is kept and the hour grows by nine;
    from 15:00 on, when the day is not the last of its month, the date is
    the next day and the hour falls by fifteen. Minutes and seconds are
    kept. *)
Theorem created_of_utc_timestamp (self : _SpeedTestResult) :
  let t := timestamp self in
  Datetime.well_formed t → Datetime.utcoffset t = 0%Z →
  (Z.abs (download_bytesps self) < 2 ^ 1000)%Z →
  (Z.abs (upload_bytesps self) < 2 ^ 1000)%Z →
  ((Datetime.hour t < 15)%Z →
   ∃ payload, to_ambient self = Some payload ∧
     payload !! "created"
     = Some (PyStr (Datetime.strftime
                      (Datetime.Make (Datetime.year t) (Datetime.month t)
                         (Datetime.day t) (Datetime.hour t + 9)
                         (Datetime.minute t) (Datetime.second t)
                         (Datetime.microsecond t) (9 * 3600)))))
  ∧ ((15 ≤ Datetime.hour t)%Z →
     (Datetime.day t
      < Datetime.days_in_month (Datetime.year t) (Datetime.month t))%Z →
     ∃ payload, to_ambient self = Some payload ∧
       payload !! "created"
       = Some (PyStr (Datetime.strftime
                        (Datetime.Make (Datetime.year t) (Datetime.month t)
                           (Datetime.day t + 1) (Datetime.hour t - 15)
                           (Datetime.minute t) (Datetime.second t)
                           (Datetime.microsecond t) (9 * 3600))))).
Proof.
  intros t Hwf Hoff Hdown Hup. pose proof Hwf as (Hy & Hm & Hd & Hh & Hi & Hs).
  assert (Datetime.well_formed (Datetime.replace_tzinfo t (9 * 3600))) as Hwf'
    by done.
  assert (2 ^ 1024 = 2 ^ 1000 * 2 ^ 24)%Z as Hpow.
  { by rewrite <- Z.pow_add_r by lia. }
  assert (0 < 2 ^ 1000)%Z by (apply Z.pow_pos_nonneg; lia).
  assert (∀ local,
            Datetime.add_seconds (Datetime.replace_tzinfo t (9 * 3600))
              (9 * 3600) = Some local →
            ∃ payload, to_ambient self = Some payload ∧
              payload !! "created" = Some (PyStr (Datetime.strftime local)))
    as Hpay.
  { intros local Hlocal.
    assert (Datetime.astimezone (timestamp self) (9 * 3600) = Some local)
      as Hast.
    { unfold Datetime.astimezone. fold t.
      by rewrite (ShiftFacts.to_utc_of_utc t Hwf Hoff). }
    destruct (proj2 (to_ambient_is_Some self)) as [payload Hpayload].
    { split; [by rewrite Hast|].
      split; apply FloatFacts.int_truediv_1000; rewrite Hpow;
        change (2 ^ 24)%Z with 16777216%Z; lia. }
    exists payload. split; [done|].
    destruct (to_ambient_lookups self payload Hpayload)
      as (local' & _ & _ & Hl' & _ & _ & _ & _ & _ & _ & _ & Hc & _).
    rewrite Hast in Hl'. by injection Hl' as <-. }
  split.
  - intros Hlt. apply Hpay.
    rewrite ShiftFacts.add_seconds_within_month; try done; cbn.
    + f_equal. f_equal; Z.div_mod_to_equations; lia.
    + Z.div_mod_to_equations. lia.
    + Z.div_mod_to_equations. lia.
  - intros Hge Hday. apply Hpay.
    rewrite ShiftFacts.add_seconds_within_month; try done; cbn.
    + f_equal. f_equal; Z.div_mod_to_equations; lia.
    + Z.div_mod_to_equations. lia.
    + Z.div_mod_to_equations. lia.
Qed.

Lemma created_of_utc_timestamp_witness :
  let self :=
    SpeedTestResult (Datetime.Make 2024 2 28 15 30 0 0 0)
      (S754_zero false) (S754_zero false) 0 0 None in
  ∃ payload, to_ambient self = Some payload ∧
    payload !! "created" = Some (PyStr "2024-02-29 00:30:00").
Proof.
  intros self.
  destruct (created_of_utc_timestamp self) as (_ & H).
  - unfold Datetime.well_formed. vm_compute. intuition discriminate.
  - reflexivity.
  - vm_compute. reflexivity.
  - vm_compute. reflexivity.
  - destruct H as (payload & Hp & Hc).
    + vm_compute. discriminate.
    + vm_compute. reflexivity.
    + exists payload. split; [done|]. rewrite Hc. reflexivity.
Defined.

(** ** The whole run *)

Section lazy_sieve.
Context (search : string → string → option bool).

Lemma enumerate_eq {A} (it : Lazy.iteration A) (r : run A) :
  Lazy.commands_of (Lazy.steps it) = calls r →
  Lazy.items_of (Lazy.steps it) = yielded r →
  Lazy.finish it = ending r →
  Lazy.enumerate it = r.
Proof. destruct r. unfold Lazy.enumerate. simpl. by intros -> -> ->. Qed.

Lemma enumerate_sieve_loop stdout addresses :
  Lazy.enumerate (Lazy.sieve_loop search stdout addresses)
  = sieve_loop search stdout addresses.
Proof.
  induction addresses as [|a rest IH]; [done|]. simpl.
  destruct (search (format_value a) stdout) as [[]|]; [|done..].
  rewrite <- IH. by apply enumerate_eq.
Qed.

Lemma enumerate_family h addresses v4 :
  Lazy.enumerate (Lazy._sieve_addresses_family search h addresses v4)
  = _sieve_addresses_family search h addresses v4.
Proof.
  destruct addresses as [|a rest]; [done|].
  unfold Lazy._sieve_addresses_family, _sieve_addresses_family,
    Lazy._command, _command.
  destruct (h (route_get_args v4)) as [stdout|]; [|done].
  rewrite <- (enumerate_sieve_loop stdout (a :: rest)).
  by apply enumerate_eq.
Qed.

Lemma enumerate_sieve_addresses h v4addresses v6addresses :
  Lazy.enumerate (Lazy._sieve_addresses search h v4addresses v6addresses)
  = _sieve_addresses search h v4addresses v6addresses.
Proof.
  unfold Lazy._sieve_addresses, _sieve_addresses, Lazy.yield_from, yield_from.
  rewrite <- !enumerate_family. cbn [Lazy.enumerate ending calls yielded].
  destruct (Lazy.finish (Lazy._sieve_addresses_family search h v4addresses true));
    [done|].
  apply enumerate_eq; cbn [Lazy.steps Lazy.finish calls yielded ending];
    [| |done]; unfold Lazy.commands_of, Lazy.items_of; by rewrite omap_app.
Qed.

(** The route lookups are the only commands of the address generator. *)
Lemma sieve_loop_no_command stdout addresses :
  Lazy.commands_of (Lazy.steps (Lazy.sieve_loop search stdout addresses)) = [].
Proof.
  pose proof (enumerate_sieve_loop stdout addresses) as E.
  apply (f_equal calls) in E. by rewrite sieve_loop_calls in E.
Qed.

End lazy_sieve.

(** X14. The address generator consumed to its end runs the commands and
    yields the addresses of the full enumeration, in the same order and
    with the same ending: laziness changes when the route lookups happen,
    not what the sieve gives. The same holds for the discovery with its
    listing command. *)
Theorem lazy_sieve_enumerates
    (search : string → string → option bool)
    (json_loads : string → option (list interface)) (h : host)
    (v4addresses v6addresses : list (option string)) :
  Lazy.enumerate (Lazy._sieve_addresses search h v4addresses v6addresses)
  = _sieve_addresses search h v4addresses v6addresses
  ∧ _get_ip_addresses search json_loads h
    = match Lazy._get_ip_addresses search json_loads h with
      | inl e => Run [address_show_args] [] (Some e)
      | inr ip_addresses =>
          let r := Lazy.enumerate ip_addresses in
          Run (address_show_args :: calls r) (yielded r) (ending r)
      end.
Proof.
  split; [apply enumerate_sieve_addresses|].
  unfold _get_ip_addresses, Lazy._get_ip_addresses, _command.
  destruct (h address_show_args) as [listing|]; [|done].
  destruct (json_loads listing) as [ifs|]; [|done].
  destruct (_separate_family _) as [v4 v6].
  by rewrite enumerate_sieve_addresses.
Qed.

Section lazy_loop.
Context (parse : string → error + _SpeedTestResult) (h : host)
  (send : nat → bool).

Lemma speed_test_cases a :
  (∃ e ran, Lazy._speed_test parse h a = (ran, inl e) ∧
            Lazy.uploads_of ran = [] ∧
            (ran = [] ∨ ∃ ip, a = Some ip ∧
                              ran = [Lazy.Command (Lazy.speedtest_args ip)]))
  ∨ (∃ r ip stdout,
       a = Some ip ∧ h (Lazy.speedtest_args ip) = Some stdout ∧
       parse stdout = inr r ∧
       Lazy._speed_test parse h a
       = ([Lazy.Command (Lazy.speedtest_args ip)], inr r)).
Proof.
  unfold Lazy._speed_test. destruct a as [ip|].
  2: { left. eexists _, _. split; [done|]. split; [done|]. by left. }
  destruct (h (Lazy.speedtest_args ip)) as [stdout|] eqn:Hh.
  - destruct (parse stdout) as [e|r] eqn:Hp.
    + left. eexists _, _. split; [done|]. split; [done|]. right. eauto.
    + right. eauto 10.
  - left. eexists _, _. split; [done|]. split; [done|]. right. eauto.
Qed.

Lemma lazy_loop_uploads steps : ∀ k fin config_it e,
  Lazy.uploads_of
    (Lazy.events (Lazy.ambient_loop parse h send k steps fin config_it))
  = uploads (ambient_loop send k
               (Lazy.measurements parse h (Lazy.items_of steps)) e config_it).
Proof.
  induction steps as [|[args|a] rest IH]; intros k fin config_it e.
  - done.
  - apply IH.
  - cbn [Lazy.ambient_loop Lazy.items_of omap list_omap Lazy.measurements].
    fold (Lazy.items_of rest).
    destruct (speed_test_cases a)
      as [(err & ran & -> & Hran & _)|(r & ip & stdout & _ & _ & _ & ->)].
    { done. }
    cbn [snd ambient_loop].
    destruct config_it as [|c config_it']; [done|].
    destruct (to_ambient r) as [payload|]; [|done].
    destruct (send k); [|done]. cbn. f_equal. apply IH.
Qed.

Lemma lazy_loop_raised steps : ∀ k fin config_it,
  Lazy.raised (Lazy.ambient_loop parse h send k steps fin config_it) = None ↔
  fin = None ∧
  length (Lazy.measurements parse h (Lazy.items_of steps))
  = length (Lazy.items_of steps) ∧
  failure (ambient_loop send k
             (Lazy.measurements parse h (Lazy.items_of steps)) None config_it)
  = None.
Proof.
  induction steps as [|[args|a] rest IH]; intros k fin config_it.
  - cbn. destruct fin; split; try done. by intros (? & _).
  - apply IH.
  - cbn [Lazy.ambient_loop Lazy.items_of omap list_omap Lazy.measurements].
    fold (Lazy.items_of rest).
    destruct (speed_test_cases a)
      as [(err & ran & -> & Hran & _)|(r & ip & stdout & _ & _ & _ & ->)].
    { cbn. split; [done|]. intros (_ & ? & _). lia. }
    cbn [snd ambient_loop length].
    destruct config_it as [|c config_it']; [cbn; by split; [|intros (_&_&?)]|].
    destruct (to_ambient r) as [payload|]; [|cbn; by split; [|intros (_&_&?)]].
    destruct (send k); [|cbn; by split; [|intros (_&_&?)]].
    cbn. rewrite IH. split; intros (? & ? & ?); repeat split; try done; lia.
Qed.

End lazy_loop.

Lemma discovery_yielded_lazy
    (search : string → string → option bool)
    (json_loads : string → option (list interface)) (h : host) :
  yielded (_get_ip_addresses search json_loads h)
  = match Lazy._get_ip_addresses search json_loads h with
    | inl _ => []
    | inr ip_addresses => Lazy.items_of (Lazy.steps ip_addresses)
    end
  ∧ ending (_get_ip_addresses search json_loads h)
    = match Lazy._get_ip_addresses search json_loads h with
      | inl e => Some e
      | inr ip_addresses => Lazy.finish ip_addresses
      end
  ∧ calls (_get_ip_addresses search json_loads h)
    = address_show_args
      :: match Lazy._get_ip_addresses search json_loads h with
         | inl e => []
         | inr ip_addresses => Lazy.commands_of (Lazy.steps ip_addresses)
         end.
Proof.
  unfold _get_ip_addresses, Lazy._get_ip_addresses, _command.
  destruct (h address_show_args) as [listing|]; [|done].
  destruct (json_loads listing) as [ifs|]; [|done].
  destruct (_separate_family _) as [v4 v6].
  by rewrite <- enumerate_sieve_addresses.
Qed.

(** X15. What the run uploads is what the reporting step uploads for the
    measurements of the discovered addresses: the results of the speed
    tests of the addresses the discovery yields, in order, up to the first
    speed test that fails. Laziness does not change the uploads. *)
Theorem run_uploads_as_reported
    (config : gmap string (gmap string (list channel)))
    (ambient : gmap string (list channel)) (channels : list channel)
    (search : string → string → option bool)
    (json_loads : string → option (list interface))
    (parse : string → error + _SpeedTestResult) (h : host)
    (send : nat → bool) (results_ending : option exn) :
  config !! "ambient" = Some ambient → ambient !! "channels" = Some channels →
  Lazy.uploads_of
    (Lazy.events (Lazy.run (Some config) search json_loads parse h send))
  = uploads
      (_ambient send channels
         (Lazy.measurements parse h
            (yielded (_get_ip_addresses search json_loads h)))
         results_ending).
Proof.
  intros Ha Hc. unfold Lazy.run, Lazy._ambient, _ambient.
  destruct (discovery_yielded_lazy search json_loads h) as (-> & _).
  destruct (Lazy._get_ip_addresses search json_loads h) as [e|it]; [done|].
  rewrite Ha, Hc. cbn. apply lazy_loop_uploads.
Qed.

Lemma run_uploads_as_reported_witness :
  let config : gmap string (gmap string (list channel)) :=
    {[ "ambient" := {[ "channels" := [Channel "1" "a"; Channel "2" "b"] ]} ]} in
  let json_loads : string → option (list interface) :=
    λ _, Some [Interface (Some [entry "inet" (Some "203.0.113.5")])] in
  let parse : string → error + _SpeedTestResult :=
    λ _, inr (sample_result None) in
  let h : host := λ args,
    if decide (args = address_show_args) then Some "[...]"
    else if decide (args = route_get_args true)
         then Some "192.0.2.0 dev eth0 src 203.0.113.5 uid 1000"
    else if decide (args = Lazy.speedtest_args "203.0.113.5") then Some "{...}"
    else None in
  length (Lazy.uploads_of
            (Lazy.events (Lazy.run (Some config) Re.search json_loads parse h
                            (λ _, true)))) = 1%nat.
Proof.
  intros config json_loads parse h.
  rewrite (run_uploads_as_reported config
             {[ "channels" := [Channel "1" "a"; Channel "2" "b"] ]}
             [Channel "1" "a"; Channel "2" "b"] Re.search json_loads parse h
             (λ _, true) None).
  - vm_compute. reflexivity.
  - reflexivity.
  - reflexivity.
Defined.

(** X16. The run ends without exception exactly when the configuration is
    read and holds a channel list, the discovery ends without exception,
    every address it yields is measured, and the reporting step on those
    measurements ends without exception. *)
Theorem run_succeeds_iff
    (load_config : option (gmap string (gmap string (list channel))))
    (search : string → string → option bool)
    (json_loads : string → option (list interface))
    (parse : string → error + _SpeedTestResult) (h : host)
    (send : nat → bool) :
  Lazy.raised (Lazy.run load_config search json_loads parse h send) = None ↔
  ∃ config ambient channels,
    load_config = Some config ∧ config !! "ambient" = Some ambient ∧
    ambient !! "channels" = Some channels ∧
    let addresses := yielded (_get_ip_addresses search json_loads h) in
    ending (_get_ip_addresses search json_loads h) = None ∧
    length (Lazy.measurements parse h addresses) = length addresses ∧
    failure (_ambient send channels (Lazy.measurements parse h addresses) None)
    = None.
Proof.
  unfold Lazy.run, Lazy._ambient, _ambient.
  destruct (discovery_yielded_lazy search json_loads h) as (-> & -> & _).
  destruct load_config as [config|]; [|split; [done|by intros (?&?&?&?&_)]].
  destruct (Lazy._get_ip_addresses search json_loads h) as [e|it].
  { split; [done|]. by intros (?&?&?&_&_&_&?&_). }
  cbn [Lazy.log_after Lazy.raised].
  destruct (config !! "ambient") as [ambient|] eqn:Ha;
    [|split; [done|by intros (?&?&?&[= <-]&?&_); congruence]].
  destruct (ambient !! "channels") as [channels|] eqn:Hc.
  - rewrite lazy_loop_raised. split.
    + intros (? & ? & ?). by exists config, ambient, channels.
    + intros (? & ? & ? & [= <-] & Ha' & Hc' & ?).
      rewrite Ha in Ha'. injection Ha' as <-.
      rewrite Hc in Hc'. by injection Hc' as <-.
  - split; [done|]. intros (? & ? & ? & [= <-] & Ha' & Hc' & _).
    rewrite Ha in Ha'. injection Ha' as <-. congruence.
Qed.
(** ** The order of events in the run *)

Section lazy_events.
Context (parse : string → error + _SpeedTestResult) (h : host)
  (send : nat → bool).

Lemma cons_eq_app {A} (pre post E : list A) (x y : A) :
  y :: E = pre ++ x :: post →
  (pre = [] ∧ y = x ∧ E = post) ∨ ∃ pre0, pre = y :: pre0 ∧ E = pre0 ++ x :: post.
Proof.
  destruct pre as [|z pre0]; simpl; intros [= -> ->]; [by left|right; eauto].
Qed.

(** Every upload directly follows the speed test whose result it sends. *)
Lemma lazy_loop_upload steps : ∀ k fin config_it pre ch p post,
  Lazy.events (Lazy.ambient_loop parse h send k steps fin config_it)
  = pre ++ Lazy.Upload ch p :: post →
  ∃ pre' ip stdout r,
    pre = pre' ++ [Lazy.Command (Lazy.speedtest_args ip)] ∧
    Some ip ∈ Lazy.items_of steps ∧
    h (Lazy.speedtest_args ip) = Some stdout ∧ parse stdout = inr r ∧
    to_ambient r = Some p ∧
    config_it !! length (Lazy.uploads_of pre) = Some ch.
Proof.
  induction steps as [|[args|a] rest IH]; intros k fin config_it pre ch p post.
  - simpl. by destruct pre.
  - cbn [Lazy.ambient_loop Lazy.log_after Lazy.events app].
    intros [(_ & [=] & _)|(pre0 & -> & E)]%cons_eq_app.
    destruct (IH _ _ _ _ _ _ _ E) as (pre' & ip & stdout & r & -> & ? & ? & ? & ? & ?).
    exists (Lazy.Command args :: pre'), ip, stdout, r. by repeat split.
  - cbn [Lazy.ambient_loop Lazy.items_of omap list_omap].
    fold (Lazy.items_of rest).
    destruct (speed_test_cases parse h a)
      as [(err & ran & -> & _ & [->|(ip & -> & ->)])
         |(r & ip & stdout & -> & Hh & Hp & ->)].
    { simpl. by destruct pre. }
    { simpl. intros [(_ & [=] & _)|(pre0 & -> & E)]%cons_eq_app.
      by destruct pre0. }
    assert (∀ l : list Lazy.event,
              [Lazy.Command (Lazy.speedtest_args ip)]
              = pre ++ Lazy.Upload ch p :: l → False) as Hno.
    { intros l [(_ & [=] & _)|(pre0 & -> & E)]%cons_eq_app. by destruct pre0. }
    destruct config_it as [|c config_it']; [by intros ?%Hno|].
    destruct (to_ambient r) as [payload|] eqn:Hpay; [|by intros ?%Hno].
    assert (∀ E,
      Lazy.Command (Lazy.speedtest_args ip) :: Lazy.Upload c payload :: E
      = pre ++ Lazy.Upload ch p :: post →
      (pre = [Lazy.Command (Lazy.speedtest_args ip)] ∧ c = ch ∧ payload = p)
      ∨ ∃ pre0, pre = Lazy.Command (Lazy.speedtest_args ip)
                      :: Lazy.Upload c payload :: pre0
                ∧ E = pre0 ++ Lazy.Upload ch p :: post) as Hsplit.
    { intros E [(_ & [=] & _)|(pre0 & -> & E')]%cons_eq_app.
      apply cons_eq_app in E' as [(-> & [= -> ->] & _)|(pre1 & -> & E')];
        [by left|right; eauto]. }
    assert (Some ip ∈ Some ip :: Lazy.items_of rest) as Hin by left.
    destruct (send k).
    + cbn [Lazy.log_after Lazy.events app snd].
      intros [(-> & -> & ->)|(pre0 & -> & E)]%Hsplit.
      { exists [], ip, stdout, r. by repeat split. }
      destruct (IH _ _ _ _ _ _ _ E)
        as (pre' & ip' & stdout' & r' & -> & ? & ? & ? & ? & ?).
      exists (Lazy.Command (Lazy.speedtest_args ip) :: Lazy.Upload c payload :: pre'),
        ip', stdout', r'. repeat split; try done. by right.
    + cbn [Lazy.events app snd].
      intros [(-> & -> & ->)|(pre0 & -> & E)]%Hsplit.
      { exists [], ip, stdout, r. by repeat split. }
      by destruct pre0.
Qed.

(** The commands of the loop: those of the address generator, and a speed
    test for some of the addresses it yields. *)
Lemma lazy_loop_command steps : ∀ k fin config_it args,
  Lazy.Command args
  ∈ Lazy.events (Lazy.ambient_loop parse h send k steps fin config_it) →
  args ∈ Lazy.commands_of steps
  ∨ ∃ ip, args = Lazy.speedtest_args ip ∧ Some ip ∈ Lazy.items_of steps.
Proof.
  induction steps as [|[a|a] rest IH]; intros k fin config_it args.
  - simpl. by intros ?%elem_of_nil.
  - cbn [Lazy.ambient_loop Lazy.log_after Lazy.events app].
    intros [[= ->]|Hin]%elem_of_cons; [left; by left|].
    destruct (IH _ _ _ _ Hin) as [?|?]; [left; by right|by right].
  - cbn [Lazy.ambient_loop Lazy.items_of Lazy.commands_of omap list_omap].
    fold (Lazy.items_of rest). fold (Lazy.commands_of rest).
    assert (∀ ip, a = Some ip → ∀ l,
      Lazy.Command args ∈ Lazy.Command (Lazy.speedtest_args ip) :: l →
      Lazy.Command args ∈ l ∨
      ∃ ip, args = Lazy.speedtest_args ip ∧ Some ip ∈ a :: Lazy.items_of rest)
      as Hhead.
    { intros ip -> l [[= ->]|?]%elem_of_cons; [right|by left].
      exists ip. split; [done|by left]. }
    destruct (speed_test_cases parse h a)
      as [(err & ran & -> & _ & [->|(ip & Ha & ->)])
         |(r & ip & stdout & Ha & Hh & Hp & ->)].
    { simpl. by intros ?%elem_of_nil. }
    { simpl. intros [?%elem_of_nil|?]%(Hhead ip Ha); [done|by right]. }
    assert (∀ c p l, Lazy.Command args ∈ Lazy.Upload c p :: l →
                     Lazy.Command args ∈ l) as Hup.
    { by intros c p l [[=]|?]%elem_of_cons. }
    destruct config_it as [|c config_it'];
      [simpl; intros [?%elem_of_nil|?]%(Hhead ip Ha); [done|by right]|].
    destruct (to_ambient r) as [payload|];
      [|simpl; intros [?%elem_of_nil|?]%(Hhead ip Ha); [done|by right]].
    destruct (send k).
    + cbn [Lazy.log_after Lazy.events app snd].
      intros [Hin%Hup|?]%(Hhead ip Ha); [|by right].
      destruct (IH _ _ _ _ Hin) as [?|(ip' & -> & ?)]; [by left|right].
      exists ip'. split; [done|by right].
    + cbn [Lazy.events app snd].
      intros [?%Hup%elem_of_nil|?]%(Hhead ip Ha); [done|by right].
Qed.


(** After a speed test, the next event is the upload of its result. *)
Lemma lazy_loop_next steps : ∀ k fin config_it pre ip e post,
  Forall (λ args, Lazy.is_speedtest (Lazy.Command args) = false)
    (Lazy.commands_of steps) →
  Lazy.events (Lazy.ambient_loop parse h send k steps fin config_it)
  = pre ++ Lazy.Command (Lazy.speedtest_args ip) :: e :: post →
  ∃ ch p, e = Lazy.Upload ch p.
Proof.
  induction steps as [|[args|a] rest IH]; intros k fin config_it pre ip e post.
  - simpl. by destruct pre.
  - cbn [Lazy.ambient_loop Lazy.log_after Lazy.events app Lazy.commands_of
         omap list_omap]. fold (Lazy.commands_of rest).
    intros [Hq Hrest]%Forall_cons [(_ & [= ->] & _)|(pre0 & -> & E)]%cons_eq_app.
    + done.
    + by apply (IH _ _ _ _ _ _ _ Hrest E).
  - cbn [Lazy.ambient_loop Lazy.commands_of omap list_omap].
    fold (Lazy.commands_of rest). intros Hq.
    destruct (speed_test_cases parse h a)
      as [(err & ran & -> & _ & [->|(ip0 & -> & ->)])
         |(r & ip0 & stdout & -> & Hh & Hp & ->)].
    { simpl. by destruct pre. }
    { simpl. by destruct pre as [|? [|? ?]]. }
    destruct config_it as [|c config_it'];
      [simpl; by destruct pre as [|? [|? ?]]|].
    destruct (to_ambient r) as [payload|];
      [|simpl; by destruct pre as [|? [|? ?]]].
    destruct (send k).
    + cbn [Lazy.log_after Lazy.events app snd].
      intros [(_ & _ & [= <- _])|(pre0 & -> & E)]%cons_eq_app; [by eauto|].
      apply cons_eq_app in E as [(_ & [=] & _)|(pre1 & -> & E)].
      by apply (IH _ _ _ _ _ _ _ Hq E).
    + cbn [Lazy.events app snd].
      intros [(_ & _ & [= <- _])|(pre0 & -> & E)]%cons_eq_app; [by eauto|].
      by destruct pre0 as [|? [|? ?]].
Qed.

(** A failure of the reporting loop on the measurements is the failure of
    the run. *)
Lemma lazy_loop_failure steps : ∀ k fin config_it e,
  failure (ambient_loop send k
             (Lazy.measurements parse h (Lazy.items_of steps)) None config_it)
  = Some e →
  Lazy.raised (Lazy.ambient_loop parse h send k steps fin config_it)
  = Some (Exn e).
Proof.
  induction steps as [|[args|a] rest IH]; intros k fin config_it e.
  - done.
  - apply IH.
  - cbn [Lazy.ambient_loop Lazy.items_of omap list_omap Lazy.measurements].
    fold (Lazy.items_of rest).
    destruct (speed_test_cases parse h a)
      as [(err & ran & -> & Hran & _)|(r & ip & stdout & _ & _ & _ & ->)].
    { done. }
    cbn [snd ambient_loop].
    destruct config_it as [|c config_it']; [by intros [= <-]|].
    destruct (to_ambient r) as [payload|]; [|by intros [= <-]].
    destruct (send k); [|by intros [= <-]]. cbn. apply IH.
Qed.

(** When the channels run out, the last speed test has no upload. *)
Lemma lazy_loop_count steps : ∀ k fin config_it,
  Forall (λ args, Lazy.is_speedtest (Lazy.Command args) = false)
    (Lazy.commands_of steps) →
  failure (ambient_loop send k
             (Lazy.measurements parse h (Lazy.items_of steps)) None config_it)
  = Some StopIteration →
  length (List.filter Lazy.is_speedtest
            (Lazy.events
               (Lazy.ambient_loop parse h send k steps fin config_it)))
  = S (length (Lazy.uploads_of
                 (Lazy.events
                    (Lazy.ambient_loop parse h send k steps fin config_it)))).
Proof.
  induction steps as [|[args|a] rest IH]; intros k fin config_it.
  - done.
  - cbn [Lazy.ambient_loop Lazy.log_after Lazy.events app Lazy.commands_of
         omap list_omap Lazy.items_of]. fold (Lazy.commands_of rest).
    fold (Lazy.items_of rest).
    intros [Hq Hrest]%Forall_cons Hf. cbn [List.filter]. rewrite Hq.
    by apply IH.
  - cbn [Lazy.ambient_loop Lazy.items_of Lazy.commands_of omap list_omap
         Lazy.measurements].
    fold (Lazy.items_of rest). fold (Lazy.commands_of rest). intros Hq.
    destruct (speed_test_cases parse h a)
      as [(err & ran & -> & Hran & _)|(r & ip & stdout & _ & _ & _ & ->)].
    { done. }
    cbn [snd ambient_loop].
    destruct config_it as [|c config_it']; [done|].
    destruct (to_ambient r) as [payload|]; [|done].
    destruct (send k); [|done]. cbn. intros Hf. f_equal. by apply IH.
Qed.

(** A command of the second part of the address generator is reached only
    when the loop over the first part ends without exception. *)
Lemma lazy_loop_reaches steps1 steps2 args : ∀ k fin config_it,
  args ∉ Lazy.commands_of steps1 →
  (∀ ip, args ≠ Lazy.speedtest_args ip) →
  Lazy.Command args
  ∈ Lazy.events
      (Lazy.ambient_loop parse h send k (steps1 ++ steps2) fin config_it) →
  Lazy.raised (Lazy.ambient_loop parse h send k steps1 None config_it) = None.
Proof.
  intros k fin config_it Hnot Hst. revert k config_it.
  induction steps1 as [|[a|a] rest IH]; intros k config_it.
  - done.
  - cbn [Lazy.ambient_loop Lazy.log_after Lazy.events Lazy.raised app].
    cbn [Lazy.commands_of omap list_omap] in Hnot.
    fold (Lazy.commands_of rest) in Hnot. apply not_elem_of_cons in Hnot as [? ?].
    intros [[= ->]|Hin]%elem_of_cons; [done|]. by apply IH.
  - cbn [Lazy.ambient_loop app].
    cbn [Lazy.commands_of omap list_omap] in Hnot.
    fold (Lazy.commands_of rest) in Hnot.
    assert (∀ ip l, Lazy.Command args
                    ∈ Lazy.Command (Lazy.speedtest_args ip) :: l →
                    Lazy.Command args ∈ l) as Hhead.
    { intros ip l [[= ->]|?]%elem_of_cons; [by destruct (Hst ip)|done]. }
    destruct (speed_test_cases parse h a)
      as [(err & ran & -> & _ & [->|(ip & Ha & ->)])
         |(r & ip & stdout & Ha & Hh & Hp & ->)].
    { simpl. by intros ?%elem_of_nil. }
    { simpl. by intros ?%Hhead%elem_of_nil. }
    assert (∀ c p l, Lazy.Command args ∈ Lazy.Upload c p :: l →
                     Lazy.Command args ∈ l) as Hup.
    { by intros c p l [[=]|?]%elem_of_cons. }
    destruct config_it as [|c config_it'];
      [simpl; by intros ?%Hhead%elem_of_nil|].
    destruct (to_ambient r) as [payload|];
      [|simpl; by intros ?%Hhead%elem_of_nil].
    destruct (send k).
    + cbn [Lazy.log_after Lazy.events Lazy.raised app snd].
      intros Hin%Hhead%Hup. by apply IH.
    + cbn [Lazy.events app snd]. by intros ?%Hhead%Hup%elem_of_nil.
Qed.

(** The commands of the address generator that the loop reaches. *)
Lemma lazy_loop_lookups steps : ∀ k fin config_it,
  Forall (λ args, Lazy.is_speedtest (Lazy.Command args) = false)
    (Lazy.commands_of steps) →
  Lazy.lookups_of
    (Lazy.events (Lazy.ambient_loop parse h send k steps fin config_it))
  `prefix_of` Lazy.commands_of steps
  ∧ (Lazy.raised (Lazy.ambient_loop parse h send k steps fin config_it) = None
     ∨ Lazy.items_of steps = [] →
     Lazy.lookups_of
       (Lazy.events (Lazy.ambient_loop parse h send k steps fin config_it))
     = Lazy.commands_of steps).
Proof.
  induction steps as [|[args|a] rest IH]; intros k fin config_it.
  - done.
  - cbn [Lazy.ambient_loop Lazy.log_after Lazy.events Lazy.raised app
         Lazy.commands_of Lazy.items_of omap list_omap Lazy.lookups_of].
    fold (Lazy.commands_of rest). fold (Lazy.items_of rest).
    intros [Hq Hrest]%Forall_cons. rewrite Hq.
    fold (Lazy.lookups_of
            (Lazy.events (Lazy.ambient_loop parse h send k rest fin config_it))).
    destruct (IH k fin config_it Hrest) as [Hpre Heq]. split.
    + by apply prefix_cons.
    + intros Hn. f_equal. by apply Heq.
  - cbn [Lazy.ambient_loop Lazy.items_of Lazy.commands_of omap list_omap].
    fold (Lazy.items_of rest). fold (Lazy.commands_of rest). intros Hq.
    destruct (speed_test_cases parse h a)
      as [(err & ran & -> & _ & [->|(ip & Ha & ->)])
         |(r & ip & stdout & Ha & Hh & Hp & ->)].
    { simpl. split; [apply prefix_nil|by intros [|]]. }
    { simpl. split; [apply prefix_nil|by intros [|]]. }
    destruct config_it as [|c config_it'];
      [simpl; split; [apply prefix_nil|by intros [|]]|].
    destruct (to_ambient r) as [payload|];
      [|simpl; split; [apply prefix_nil|by intros [|]]].
    destruct (send k); [|simpl; split; [apply prefix_nil|by intros [|]]].
    cbn [Lazy.log_after Lazy.events Lazy.raised app snd].
    destruct (IH (S k) fin config_it' Hq) as [Hpre Heq]. split.
    + exact Hpre.
    + intros [Hn|[=]]. apply Heq. by left.
Qed.

(** Without a yielded address the loop runs the generator to its end. *)
Lemma lazy_loop_no_item steps : ∀ k fin config_it,
  Lazy.items_of steps = [] →
  Lazy.ambient_loop parse h send k steps fin config_it
  = Lazy.Log (Lazy.Command <$> Lazy.commands_of steps) (Exn <$> fin).
Proof.
  induction steps as [|[args|a] rest IH]; intros k fin config_it; [done| |done].
  cbn [Lazy.ambient_loop Lazy.items_of Lazy.commands_of omap list_omap].
  fold (Lazy.items_of rest). fold (Lazy.commands_of rest).
  intros Hi. by rewrite (IH k fin config_it Hi).
Qed.

End lazy_events.
(** ** The run as a whole *)

Section run_facts.
Context (search : string → string → option bool)
  (json_loads : string → option (list interface))
  (parse : string → error + _SpeedTestResult) (h : host) (send : nat → bool).

Lemma lazy_sieve_steps v4addresses v6addresses :
  Lazy.steps (Lazy._sieve_addresses search h v4addresses v6addresses)
  = Lazy.steps (Lazy._sieve_addresses_family search h v4addresses true)
    ++ match Lazy.finish
               (Lazy._sieve_addresses_family search h v4addresses true) with
       | None => Lazy.steps
                   (Lazy._sieve_addresses_family search h v6addresses false)
       | Some _ => []
       end.
Proof.
  unfold Lazy._sieve_addresses, Lazy.yield_from.
  destruct (Lazy.finish _); [by rewrite app_nil_r|done].
Qed.

Lemma lazy_family_commands addresses v4 args :
  args ∈ Lazy.commands_of
           (Lazy.steps (Lazy._sieve_addresses_family search h addresses v4)) →
  args = route_get_args v4.
Proof.
  pose proof (enumerate_family search h addresses v4) as E.
  apply (f_equal calls) in E. rewrite family_calls in E.
  cbn [Lazy.enumerate calls] in E. rewrite E.
  destruct addresses; [by intros ?%elem_of_nil|].
  by intros ->%list_elem_of_singleton.
Qed.

Lemma lazy_sieve_commands v4addresses v6addresses args :
  args ∈ Lazy.commands_of
           (Lazy.steps (Lazy._sieve_addresses search h v4addresses v6addresses)) →
  args = route_get_args true ∨ args = route_get_args false.
Proof.
  rewrite lazy_sieve_steps. unfold Lazy.commands_of. rewrite omap_app.
  intros [?%lazy_family_commands|Hin]%elem_of_app; [by left|].
  destruct (Lazy.finish _); [by apply elem_of_nil in Hin|].
  apply lazy_family_commands in Hin. by right.
Qed.

Lemma lazy_sieve_quiet v4addresses v6addresses :
  Forall (λ args, Lazy.is_speedtest (Lazy.Command args) = false)
    (Lazy.commands_of
       (Lazy.steps (Lazy._sieve_addresses search h v4addresses v6addresses))).
Proof.
  apply Forall_forall. by intros args [-> | ->]%lazy_sieve_commands.
Qed.

(** The discovery either fails at its listing, or returns the address
    generator of the two families of the listing. *)
Lemma lazy_discovery_cases :
  (∃ e, Lazy._get_ip_addresses search json_loads h = inl e)
  ∨ ∃ listing ifs,
      h address_show_args = Some listing ∧ json_loads listing = Some ifs ∧
      Lazy._get_ip_addresses search json_loads h
      = inr (Lazy._sieve_addresses search h
               (locals_of "inet" (concat (map aigetter ifs)))
               (locals_of "inet6" (concat (map aigetter ifs)))).
Proof.
  unfold Lazy._get_ip_addresses.
  destruct (h address_show_args) as [listing|] eqn:Hl;
    [|left; eexists; reflexivity].
  destruct (json_loads listing) as [ifs|] eqn:Hj;
    [|left; eexists; reflexivity].
  right. exists listing, ifs. by rewrite separate_family_spec.
Qed.

Lemma run_with_channels config ambient channels :
  config !! "ambient" = Some ambient → ambient !! "channels" = Some channels →
  Lazy.run (Some config) search json_loads parse h send
  = match Lazy._get_ip_addresses search json_loads h with
    | inl e => Lazy.Log [Lazy.Command address_show_args] (Some (Exn e))
    | inr ip_addresses =>
        Lazy.log_after [Lazy.Command address_show_args]
          (Lazy.ambient_loop parse h send 0 (Lazy.steps ip_addresses)
             (Lazy.finish ip_addresses) channels)
    end.
Proof. intros Ha Hc. unfold Lazy.run, Lazy._ambient. by rewrite Ha, Hc. Qed.

End run_facts.

(** X17. The run executes nothing but the address listing, the two route
    lookups, and speed tests of addresses that the discovery yields. *)
Theorem run_commands
    (load_config : option (gmap string (gmap string (list channel))))
    (search : string → string → option bool)
    (json_loads : string → option (list interface))
    (parse : string → error + _SpeedTestResult) (h : host)
    (send : nat → bool) (args : list string) :
  Lazy.Command args
  ∈ Lazy.events (Lazy.run load_config search json_loads parse h send) →
  args = address_show_args ∨ args = route_get_args true
  ∨ args = route_get_args false
  ∨ ∃ ip, args = Lazy.speedtest_args ip
          ∧ Some ip ∈ yielded (_get_ip_addresses search json_loads h).
Proof.
  unfold Lazy.run. destruct load_config as [config|];
    [|by intros ?%elem_of_nil].
  destruct (discovery_yielded_lazy search json_loads h) as (-> & _ & _).
  destruct (lazy_discovery_cases search json_loads h)
    as [[e ->]|(listing & ifs & _ & _ & ->)].
  { intros [= ->]%list_elem_of_singleton. by left. }
  cbn [Lazy.log_after Lazy.events app].
  intros [[= ->]|Hin]%elem_of_cons; [by left|]. right.
  unfold Lazy._ambient in Hin.
  destruct (config !! "ambient") as [ambient|]; [|by apply elem_of_nil in Hin].
  destruct (ambient !! "channels") as [channels|];
    [|by apply elem_of_nil in Hin].
  apply lazy_loop_command in Hin as [[-> | ->]%lazy_sieve_commands|?]; auto.
Qed.

Lemma run_commands_witness :
  Lazy.Command (Lazy.speedtest_args "203.0.113.5")
  ∈ Lazy.events
      (Lazy.run (Some (Lazy.sample_config [Channel "1" "a"])) Re.search
         (λ _, Some Lazy.sample_listing) (λ _, inr (sample_result None))
         Lazy.sample_host (λ _, true))
  ∧ Some "203.0.113.5"
    ∈ yielded (_get_ip_addresses Re.search (λ _, Some Lazy.sample_listing)
                 Lazy.sample_host).
Proof.
  assert (Lazy.Command (Lazy.speedtest_args "203.0.113.5")
          ∈ Lazy.events
              (Lazy.run (Some (Lazy.sample_config [Channel "1" "a"])) Re.search
                 (λ _, Some Lazy.sample_listing)
                 (λ _, inr (sample_result None))
                 Lazy.sample_host (λ _, true))) as Hin.
  { apply (list_elem_of_lookup_2 _ 2). vm_compute. reflexivity. }
  split; [exact Hin|].
  destruct (run_commands _ _ _ _ _ _ _ Hin)
    as [[=]|[[=]|[[=]|(ip & [= <-] & Hip)]]].
  exact Hip.
Defined.

(** X18. Every upload directly follows the speed test whose result it
    sends: the event before an upload is the speed test of an address the
    discovery yields, the payload is that result's payload, and the channel
    is the one at the position of the upload in the channel list. *)
Theorem upload_follows_speed_test
    (config : gmap string (gmap string (list channel)))
    (ambient : gmap string (list channel)) (channels : list channel)
    (search : string → string → option bool)
    (json_loads : string → option (list interface))
    (parse : string → error + _SpeedTestResult) (h : host)
    (send : nat → bool)
    (pre post : list Lazy.event) (ch : channel)
    (p : gmap string pyvalue) :
  config !! "ambient" = Some ambient → ambient !! "channels" = Some channels →
  Lazy.events (Lazy.run (Some config) search json_loads parse h send)
  = pre ++ Lazy.Upload ch p :: post →
  ∃ pre' ip stdout r,
    pre = pre' ++ [Lazy.Command (Lazy.speedtest_args ip)] ∧
    Some ip ∈ yielded (_get_ip_addresses search json_loads h) ∧
    h (Lazy.speedtest_args ip) = Some stdout ∧ parse stdout = inr r ∧
    to_ambient r = Some p ∧
    channels !! length (Lazy.uploads_of pre) = Some ch.
Proof.
  intros Ha Hc. rewrite (run_with_channels search json_loads parse h send _ _ _ Ha Hc).
  destruct (discovery_yielded_lazy search json_loads h) as (-> & _ & _).
  destruct (Lazy._get_ip_addresses search json_loads h) as [e|it].
  { simpl. intros [(_ & [=] & _)|(pre0 & -> & E)]%cons_eq_app.
    by destruct pre0. }
  cbn [Lazy.log_after Lazy.events app].
  intros [(_ & [=] & _)|(pre0 & -> & E)]%cons_eq_app.
  destruct (lazy_loop_upload _ _ _ _ _ _ _ _ _ _ _ E)
    as (pre' & ip & stdout & r & -> & ? & ? & ? & ? & ?).
  by exists (Lazy.Command address_show_args :: pre'), ip, stdout, r.
Qed.

Lemma upload_follows_speed_test_witness :
  ∃ pre' p,
    Lazy.events
      (Lazy.run (Some (Lazy.sample_config [Channel "1" "a"; Channel "2" "b"]))
         Re.search (λ _, Some Lazy.sample_listing)
         (λ _, inr (sample_result None)) Lazy.sample_host (λ _, true)) !! 6%nat
    = Some (Lazy.Upload (Channel "2" "b") p)
    ∧ pre' ++ [Lazy.Command (Lazy.speedtest_args "2001:db8:1::5")]
      = take 6 (Lazy.events
          (Lazy.run
             (Some (Lazy.sample_config [Channel "1" "a"; Channel "2" "b"]))
             Re.search (λ _, Some Lazy.sample_listing)
             (λ _, inr (sample_result None)) Lazy.sample_host (λ _, true))).
Proof.
  set (l := Lazy.events _).
  destruct (l !! 6%nat) as [[args|ch p]|] eqn:E5;
    [vm_compute in E5; discriminate| |vm_compute in E5; discriminate].
  assert (ch = Channel "2" "b") as ->.
  { vm_compute in E5. by injection E5 as <- _. }
  pose proof (take_drop_middle l 6 _ E5) as Hl. symmetry in Hl.
  destruct (upload_follows_speed_test
              (Lazy.sample_config [Channel "1" "a"; Channel "2" "b"])
              {[ "channels" := [Channel "1" "a"; Channel "2" "b"] ]}
              [Channel "1" "a"; Channel "2" "b"] _ _ _ _ _ _ _ _ _
              eq_refl eq_refl Hl)
    as (pre' & ip & stdout & r & Hpre & _).
  assert (ip = "2001:db8:1::5") as ->.
  { apply (f_equal last) in Hpre. rewrite last_snoc in Hpre.
    vm_compute in Hpre. by injection Hpre as <-. }
  exists pre', p. split; [done|]. by rewrite Hpre.
Defined.

(** X19. After a speed test the run does nothing but upload its result:
    whatever event follows a speed test is an upload. No route lookup and
    no further speed test comes between a measurement and its upload. *)
Theorem speed_test_then_upload
    (load_config : option (gmap string (gmap string (list channel))))
    (search : string → string → option bool)
    (json_loads : string → option (list interface))
    (parse : string → error + _SpeedTestResult) (h : host)
    (send : nat → bool)
    (pre post : list Lazy.event) (ip : string) (e : Lazy.event) :
  Lazy.events (Lazy.run load_config search json_loads parse h send)
  = pre ++ Lazy.Command (Lazy.speedtest_args ip) :: e :: post →
  ∃ ch p, e = Lazy.Upload ch p.
Proof.
  unfold Lazy.run. destruct load_config as [config|]; [|by destruct pre].
  destruct (lazy_discovery_cases search json_loads h)
    as [[err ->]|(listing & ifs & _ & _ & ->)].
  { simpl. by destruct pre as [|? [|? ?]]. }
  cbn [Lazy.log_after Lazy.events app].
  intros [(_ & [=] & _)|(pre0 & -> & E)]%cons_eq_app.
  unfold Lazy._ambient in E.
  destruct (config !! "ambient") as [ambient|]; [|by destruct pre0].
  destruct (ambient !! "channels") as [channels|]; [|by destruct pre0].
  eapply lazy_loop_next; [|exact E]. apply lazy_sieve_quiet.
Qed.

Lemma speed_test_then_upload_witness :
  ∃ e, Lazy.events
         (Lazy.run (Some (Lazy.sample_config [Channel "1" "a"])) Re.search
            (λ _, Some Lazy.sample_listing) (λ _, inr (sample_result None))
            Lazy.sample_host (λ _, true)) !! 3%nat = Some e
       ∧ ∃ ch p, e = Lazy.Upload ch p.
Proof.
  set (l := Lazy.events _).
  destruct (l !! 3%nat) as [e|] eqn:E3; [|vm_compute in E3; discriminate].
  exists e. split; [done|].
  destruct (l !! 2%nat) as [c|] eqn:E2; [|vm_compute in E2; discriminate].
  assert (c = Lazy.Command (Lazy.speedtest_args "203.0.113.5")) as ->.
  { vm_compute in E2. by injection E2 as <-. }
  pose proof (take_drop_middle l 2 _ E2) as Hl. symmetry in Hl.
  assert (drop 3 l = e :: drop 4 l) as Hd.
  { by apply drop_S. }
  rewrite Hd in Hl.
  exact (speed_test_then_upload _ _ _ _ _ _ _ _ _ _ Hl).
Defined.

(** X20. The IPv6 route lookup is run only after everything for IPv4 is
    done: when the run reaches it, the IPv4 sieve has ended without
    exception, every address it yields has been measured, and every one of
    these measurements has been uploaded without failure. *)
Theorem ipv6_lookup_after_ipv4_reports
    (config : gmap string (gmap string (list channel)))
    (ambient : gmap string (list channel)) (channels : list channel)
    (search : string → string → option bool)
    (json_loads : string → option (list interface))
    (parse : string → error + _SpeedTestResult) (h : host)
    (send : nat → bool) (listing : string) (ifs : list interface) :
  config !! "ambient" = Some ambient → ambient !! "channels" = Some channels →
  h address_show_args = Some listing → json_loads listing = Some ifs →
  Lazy.Command (route_get_args false)
  ∈ Lazy.events (Lazy.run (Some config) search json_loads parse h send) →
  let v4 := _sieve_addresses_family search h
              (locals_of "inet" (concat (map aigetter ifs))) true in
  ending v4 = None ∧
  length (Lazy.measurements parse h (yielded v4)) = length (yielded v4) ∧
  failure (_ambient send channels (Lazy.measurements parse h (yielded v4))
             None) = None.
Proof.
  intros Ha Hc Hl Hj Hin v4.
  rewrite (run_with_channels search json_loads parse h send _ _ _ Ha Hc) in Hin.
  destruct (lazy_discovery_cases search json_loads h)
    as [[e He]|(listing' & ifs' & Hl' & Hj' & He)].
  { unfold Lazy._get_ip_addresses in He.
    by rewrite Hl, Hj, separate_family_spec in He. }
  rewrite Hl in Hl'. injection Hl' as <-.
  rewrite Hj in Hj'. injection Hj' as <-.
  rewrite He in Hin. clear He.
  cbn [Lazy.log_after Lazy.events app] in Hin.
  apply elem_of_cons in Hin as [Hin|Hin]; [by vm_compute in Hin|].
  pose proof (enumerate_family search h
                (locals_of "inet" (concat (map aigetter ifs))) true) as E.
  fold v4 in E. rewrite <- E. cbn [Lazy.enumerate ending yielded].
  rewrite lazy_sieve_steps in Hin.
  assert (Lazy.raised
            (Lazy.ambient_loop parse h send 0
               (Lazy.steps
                  (Lazy._sieve_addresses_family search h
                     (locals_of "inet" (concat (map aigetter ifs))) true))
               None channels) = None
          ∧ Lazy.finish
              (Lazy._sieve_addresses_family search h
                 (locals_of "inet" (concat (map aigetter ifs))) true) = None)
    as [Hr Hf].
  { split.
    - eapply lazy_loop_reaches; [| |exact Hin].
      + by intros [=]%lazy_family_commands.
      + by intros ip [=].
    - destruct (Lazy.finish _) as [e|] eqn:Hf; [|done].
      rewrite app_nil_r in Hin.
      apply lazy_loop_command in Hin as [[=]%lazy_family_commands|(ip & [=] & _)]. }
  apply lazy_loop_raised in Hr as (_ & ? & ?). by rewrite Hf.
Qed.

Lemma ipv6_lookup_after_ipv4_reports_witness :
  let run :=
    Lazy.run (Some (Lazy.sample_config [Channel "1" "a"; Channel "2" "b"]))
      Re.search (λ _, Some Lazy.sample_listing)
      (λ _, inr (sample_result None)) Lazy.sample_host (λ _, true) in
  let v4 := _sieve_addresses_family Re.search Lazy.sample_host
              [Some "203.0.113.5"] true in
  Lazy.Command (route_get_args false) ∈ Lazy.events run
  ∧ ending v4 = None
  ∧ failure (_ambient (λ _, true) [Channel "1" "a"; Channel "2" "b"]
               (Lazy.measurements (λ _, inr (sample_result None))
                  Lazy.sample_host (yielded v4)) None) = None.
Proof.
  intros run v4.
  assert (Lazy.Command (route_get_args false) ∈ Lazy.events run) as Hin.
  { apply (list_elem_of_lookup_2 _ 4). vm_compute. reflexivity. }
  split; [exact Hin|].
  destruct (ipv6_lookup_after_ipv4_reports
              (Lazy.sample_config [Channel "1" "a"; Channel "2" "b"])
              {[ "channels" := [Channel "1" "a"; Channel "2" "b"] ]}
              [Channel "1" "a"; Channel "2" "b"] Re.search
              (λ _, Some Lazy.sample_listing) (λ _, inr (sample_result None))
              Lazy.sample_host (λ _, true) "[...]" Lazy.sample_listing
              eq_refl eq_refl eq_refl eq_refl Hin) as (He & _ & Hf).
  split; [exact He|exact Hf].
Defined.

(** X21. With fewer channels than measurements the run ends with
    [StopIteration] after one upload per channel, and it has then run one
    speed test more than it uploaded: the last measurement is taken before
    the missing channel is noticed, and is lost. *)
Theorem run_out_of_channels
    (config : gmap string (gmap string (list channel)))
    (ambient : gmap string (list channel)) (channels : list channel)
    (search : string → string → option bool)
    (json_loads : string → option (list interface))
    (parse : string → error + _SpeedTestResult) (h : host)
    (send : nat → bool) :
  config !! "ambient" = Some ambient → ambient !! "channels" = Some channels →
  let results :=
    Lazy.measurements parse h
      (yielded (_get_ip_addresses search json_loads h)) in
  (length channels < length results)%nat →
  (∀ i, (i < length channels)%nat → send i = true) →
  (∀ i r, (i < length channels)%nat → results !! i = Some r →
          is_Some (to_ambient r)) →
  let log := Lazy.run (Some config) search json_loads parse h send in
  Lazy.raised log = Some (Exn StopIteration) ∧
  length (Lazy.uploads_of (Lazy.events log)) = length channels ∧
  length (List.filter Lazy.is_speedtest (Lazy.events log))
  = S (length channels).
Proof.
  intros Ha Hc results Hlen Hsend Hpay log. subst log.
  rewrite (run_with_channels search json_loads parse h send _ _ _ Ha Hc).
  subst results.
  destruct (discovery_yielded_lazy search json_loads h) as (Hy & _ & _).
  rewrite Hy in Hlen, Hpay. clear Hy.
  destruct (lazy_discovery_cases search json_loads h)
    as [[e He]|(listing & ifs & _ & _ & He)]; rewrite He in *.
  { simpl in Hlen. lia. }
  destruct (ambient_loop_exhausted send _ 0 None channels Hlen Hsend Hpay)
    as [Hf Hu].
  cbn [Lazy.log_after Lazy.events Lazy.raised app List.filter
       Lazy.is_speedtest address_show_args Lazy.uploads_of omap list_omap].
  fold (Lazy.uploads_of).
  split; [by apply lazy_loop_failure|].
  rewrite (lazy_loop_count parse h send _ 0 _ channels
             (lazy_sieve_quiet search h _ _) Hf).
  rewrite !(lazy_loop_uploads parse h send _ 0 _ channels None).
  split; [exact Hu|by rewrite Hu].
Qed.

Lemma run_out_of_channels_witness :
  let log :=
    Lazy.run (Some (Lazy.sample_config [Channel "1" "a"])) Re.search
      (λ _, Some Lazy.sample_listing) (λ _, inr (sample_result None))
      Lazy.sample_host (λ _, true) in
  Lazy.raised log = Some (Exn StopIteration) ∧
  length (Lazy.uploads_of (Lazy.events log)) = 1%nat ∧
  length (List.filter Lazy.is_speedtest (Lazy.events log)) = 2%nat.
Proof.
  apply (run_out_of_channels (Lazy.sample_config [Channel "1" "a"])
           {[ "channels" := [Channel "1" "a"] ]} [Channel "1" "a"]
           Re.search (λ _, Some Lazy.sample_listing)
           (λ _, inr (sample_result None)) Lazy.sample_host (λ _, true)
           eq_refl eq_refl).
  - vm_compute. lia.
  - done.
  - intros [|i] r Hi Hr; [|simpl in Hi; lia].
    vm_compute in Hr. injection Hr as <-.
    eexists. vm_compute. reflexivity.
Defined.

(** X22. A configuration without the channel list is noticed only after
    the address listing has been run, and before anything else: the listing
    is the only command of the run, and no route lookup, speed test or
    upload happens. *)
Theorem run_without_channel_list
    (config : gmap string (gmap string (list channel)))
    (search : string → string → option bool)
    (json_loads : string → option (list interface))
    (parse : string → error + _SpeedTestResult) (h : host)
    (send : nat → bool) :
  (∀ ambient, config !! "ambient" = Some ambient →
              ambient !! "channels" = None) →
  let log := Lazy.run (Some config) search json_loads parse h send in
  Lazy.events log = [Lazy.Command address_show_args] ∧
  Lazy.raised log
  = Some match h address_show_args with
         | None => Exn (CalledProcessError address_show_args)
         | Some listing =>
             match json_loads listing with
             | None => Exn JSONDecodeError
             | Some _ =>
                 KeyError (match config !! "ambient" with
                           | None => "ambient"
                           | Some _ => "channels"
                           end)
             end
         end.
Proof.
  intros Hno. unfold Lazy.run, Lazy._get_ip_addresses, Lazy._ambient.
  destruct (h address_show_args) as [listing|]; [|done].
  destruct (json_loads listing) as [ifs|]; [|done].
  destruct (_separate_family _) as [v4 v6].
  destruct (config !! "ambient") as [ambient|] eqn:Ha; [|done].
  by rewrite (Hno ambient eq_refl).
Qed.

Lemma run_without_channel_list_witness :
  let log :=
    Lazy.run (Some {[ "ambient" := ∅ ]}) Re.search
      (λ _, Some Lazy.sample_listing) (λ _, inr (sample_result None))
      Lazy.sample_host (λ _, true) in
  Lazy.events log = [Lazy.Command address_show_args] ∧
  Lazy.raised log = Some (KeyError "channels").
Proof.
  intros log.
  assert (∀ ambient : gmap string (list channel),
            ({[ "ambient" := ∅ ]} : gmap string (gmap string (list channel)))
            !! "ambient" = Some ambient →
            ambient !! "channels" = None) as Hno.
  { intros ambient Ha. vm_compute in Ha. by injection Ha as <-. }
  destruct (run_without_channel_list {[ "ambient" := ∅ ]} Re.search
              (λ _, Some Lazy.sample_listing) (λ _, inr (sample_result None))
              Lazy.sample_host (λ _, true) Hno) as [He Hr].
  split; [exact He|]. subst log. rewrite Hr. vm_compute. reflexivity.
Defined.

(** X23. When the discovery yields no address the run is the discovery
    alone: its commands are those of the full enumeration, it ends as the
    discovery ends, and the channel list is not used, so an empty channel
    list is not an error. *)
Theorem run_without_survivor
    (config : gmap string (gmap string (list channel)))
    (ambient : gmap string (list channel)) (channels : list channel)
    (search : string → string → option bool)
    (json_loads : string → option (list interface))
    (parse : string → error + _SpeedTestResult) (h : host)
    (send : nat → bool) :
  config !! "ambient" = Some ambient → ambient !! "channels" = Some channels →
  yielded (_get_ip_addresses search json_loads h) = [] →
  Lazy.run (Some config) search json_loads parse h send
  = Lazy.Log (Lazy.Command <$> calls (_get_ip_addresses search json_loads h))
      (Exn <$> ending (_get_ip_addresses search json_loads h)).
Proof.
  intros Ha Hc.
  rewrite (run_with_channels search json_loads parse h send _ _ _ Ha Hc).
  destruct (discovery_yielded_lazy search json_loads h) as (-> & -> & ->).
  destruct (Lazy._get_ip_addresses search json_loads h) as [e|it]; [done|].
  intros Hy. by rewrite lazy_loop_no_item.
Qed.

Lemma run_without_survivor_witness :
  Lazy.run (Some (Lazy.sample_config [])) Re.search
    (λ _, Some Lazy.sample_listing) (λ _, inr (sample_result None))
    (host_of_routes (Some "[...]") (Some "192.0.2.0 via 198.51.100.1 dev eth1")
       (Some "2001:db8:: via fe80::1 dev eth1"))
    (λ _, true)
  = Lazy.Log [Lazy.Command address_show_args;
              Lazy.Command (route_get_args true);
              Lazy.Command (route_get_args false)] None.
Proof.
  by rewrite (run_without_survivor (Lazy.sample_config [])
                {[ "channels" := [] ]} [] Re.search
                (λ _, Some Lazy.sample_listing) (λ _, inr (sample_result None))
                (host_of_routes (Some "[...]")
                   (Some "192.0.2.0 via 198.51.100.1 dev eth1")
                   (Some "2001:db8:: via fe80::1 dev eth1"))
                (λ _, true) eq_refl eq_refl eq_refl).
Defined.

(** X24. The commands of the run other than speed tests are a prefix of
    the commands of the full enumeration of the discovery, in the same
    order, and all of them when the run ends without exception. *)
Theorem run_lookups_prefix
    (load_config : option (gmap string (gmap string (list channel))))
    (search : string → string → option bool)
    (json_loads : string → option (list interface))
    (parse : string → error + _SpeedTestResult) (h : host)
    (send : nat → bool) :
  let log := Lazy.run load_config search json_loads parse h send in
  Lazy.lookups_of (Lazy.events log)
  `prefix_of` calls (_get_ip_addresses search json_loads h)
  ∧ (Lazy.raised log = None →
     Lazy.lookups_of (Lazy.events log)
     = calls (_get_ip_addresses search json_loads h)).
Proof.
  unfold Lazy.run. destruct load_config as [config|];
    [|split; [apply prefix_nil|done]].
  destruct (discovery_yielded_lazy search json_loads h) as (_ & _ & ->).
  destruct (lazy_discovery_cases search json_loads h)
    as [[e ->]|(listing & ifs & _ & _ & ->)]; [done|].
  cbn [Lazy.log_after Lazy.events Lazy.raised app Lazy.lookups_of omap
       list_omap Lazy.is_speedtest address_show_args].
  fold Lazy.lookups_of. unfold Lazy._ambient.
  destruct (config !! "ambient") as [ambient|];
    [|split; [apply prefix_cons, prefix_nil|done]].
  destruct (ambient !! "channels") as [channels|];
    [|split; [apply prefix_cons, prefix_nil|done]].
  set (it := Lazy._sieve_addresses search h
               (locals_of "inet" (concat (map aigetter ifs)))
               (locals_of "inet6" (concat (map aigetter ifs)))).
  destruct (lazy_loop_lookups parse h send (Lazy.steps it) 0 (Lazy.finish it)
              channels (lazy_sieve_quiet search h _ _)) as [Hpre Heq].
  split; [by apply prefix_cons|].
  intros Hr. f_equal. apply Heq. by left.
Qed.
(** ** The speed test's output *)

Module SpeedTestFacts.
Import SpeedTest.

Lemma subscript_inr v key x :
  subscript v key = inr x ↔ ∃ d, v = JDict d ∧ d !! key = Some x.
Proof.
  unfold subscript. split.
  - destruct v as [| | | | | |d]; try done.
    destruct (d !! key) as [y|] eqn:E; [|done]. intros [= <-]. eauto.
  - intros (d & -> & ->). done.
Qed.

Lemma bind_inr {A B} (x : error + A) (k : A → error + B) b :
  (a ← x; k a) = inr b ↔ ∃ a, x = inr a ∧ k a = inr b.
Proof.
  destruct x as [e|a]; simpl; split; try done.
  - by intros (? & [=] & _).
  - eauto.
  - by intros (? & [= <-] & ?).
Qed.

(** The top-level keys the function reads. *)
Lemma result_of_reads d1 d2 fromisoformat stdout1 stdout2 :
  d1 !! "timestamp" = d2 !! "timestamp" → d1 !! "ping" = d2 !! "ping" →
  d1 !! "download" = d2 !! "download" → d1 !! "upload" = d2 !! "upload" →
  get d1 "packetLoss" = get d2 "packetLoss" →
  result_of (λ _, Some (JDict d1)) fromisoformat stdout1
  = result_of (λ _, Some (JDict d2)) fromisoformat stdout2.
Proof.
  intros Ht Hp Hd Hu Hl. unfold result_of, subscript.
  by rewrite Ht, Hp, Hd, Hu, Hl.
Qed.

End SpeedTestFacts.

(** X25. The parse of a speed test's output succeeds exactly when the
    output is a JSON object with a string under "timestamp" that is an ISO
    date, and objects under "ping", "download" and "upload" holding
    "latency" and "jitter", "bandwidth", and "bandwidth". The values are
    taken as they are, of whatever type, and "packetLoss" is not needed:
    its value, or [None] in its absence, is the last field. *)
Theorem speed_test_result_iff (loads : string → option SpeedTest.json)
    (fromisoformat : string → option Datetime.datetime) (stdout : string)
    (f : SpeedTest.fields) :
  SpeedTest.result_of loads fromisoformat stdout = inr f ↔
  ∃ d s ping download upload,
    loads stdout = Some (SpeedTest.JDict d) ∧
    d !! "timestamp" = Some (SpeedTest.JStr s) ∧
    d !! "ping" = Some (SpeedTest.JDict ping) ∧
    d !! "download" = Some (SpeedTest.JDict download) ∧
    d !! "upload" = Some (SpeedTest.JDict upload) ∧
    fromisoformat s = Some (SpeedTest.f_timestamp f) ∧
    ping !! "latency" = Some (SpeedTest.f_latency_ms f) ∧
    ping !! "jitter" = Some (SpeedTest.f_jitter_ms f) ∧
    download !! "bandwidth" = Some (SpeedTest.f_download_bytesps f) ∧
    upload !! "bandwidth" = Some (SpeedTest.f_upload_bytesps f) ∧
    SpeedTest.f_packet_loss f = default SpeedTest.JNull (d !! "packetLoss").
Proof.
  unfold SpeedTest.result_of. split.
  - destruct (loads stdout) as [result|]; [|done].
    intros (ts & Hts & H)%SpeedTestFacts.bind_inr.
    apply SpeedTestFacts.subscript_inr in Hts as (d & -> & Hts).
    apply SpeedTestFacts.bind_inr in H as (t & Ht & H).
    destruct ts as [| | | |s| |]; try done.
    destruct (fromisoformat s) as [t'|] eqn:Hiso; [|done].
    injection Ht as ->.
    apply SpeedTestFacts.bind_inr in H as (ping & Hping & H).
    apply SpeedTestFacts.subscript_inr in Hping as (? & [= <-] & Hping).
    apply SpeedTestFacts.bind_inr in H as (latency & Hlat & H).
    apply SpeedTestFacts.subscript_inr in Hlat as (pd & -> & Hlat).
    apply SpeedTestFacts.bind_inr in H as (ping' & Hping' & H).
    apply SpeedTestFacts.subscript_inr in Hping' as (? & [= <-] & Hping').
    rewrite Hping in Hping'. injection Hping' as <-.
    apply SpeedTestFacts.bind_inr in H as (jitter & Hjit & H).
    apply SpeedTestFacts.subscript_inr in Hjit as (? & [= <-] & Hjit).
    apply SpeedTestFacts.bind_inr in H as (download & Hdl & H).
    apply SpeedTestFacts.subscript_inr in Hdl as (? & [= <-] & Hdl).
    apply SpeedTestFacts.bind_inr in H as (down & Hdown & H).
    apply SpeedTestFacts.subscript_inr in Hdown as (dd & -> & Hdown).
    apply SpeedTestFacts.bind_inr in H as (upload & Hul & H).
    apply SpeedTestFacts.subscript_inr in Hul as (? & [= <-] & Hul).
    apply SpeedTestFacts.bind_inr in H as (up & Hup & H).
    apply SpeedTestFacts.subscript_inr in Hup as (ud & -> & Hup).
    injection H as <-. by exists d, s, pd, dd, ud.
  - intros (d & s & ping & download & upload & -> & Hts & Hping & Hdl & Hul
            & Hiso & Hlat & Hjit & Hdown & Hup & Hloss).
    unfold SpeedTest.subscript. rewrite Hts. simpl. rewrite Hiso. simpl.
    rewrite Hping. simpl. rewrite Hlat. simpl. rewrite Hjit. simpl.
    rewrite Hdl. simpl. rewrite Hdown. simpl. rewrite Hul. simpl.
    rewrite Hup. simpl. destruct f. simpl in *. by rewrite Hloss.
Qed.

(** X26. Only five top-level keys of the output are read: adding,
    changing or removing any other key changes neither the result nor the
    exception. *)
Theorem speed_test_ignores_other_keys
    (fromisoformat : string → option Datetime.datetime) (stdout : string)
    (d : gmap string SpeedTest.json) (key : string)
    (v : option SpeedTest.json) :
  key ∉ ["timestamp"; "ping"; "download"; "upload"; "packetLoss"] →
  SpeedTest.result_of (λ _, Some (SpeedTest.JDict (partial_alter (λ _, v) key d)))
    fromisoformat stdout
  = SpeedTest.result_of (λ _, Some (SpeedTest.JDict d)) fromisoformat stdout.
Proof.
  intros Hk.
  assert (∀ k, k ∈ ["timestamp"; "ping"; "download"; "upload"; "packetLoss"] →
               partial_alter (λ _, v) key d !! k = d !! k) as Hsame.
  { intros k Hin. apply lookup_partial_alter_ne. by intros ->. }
  assert (∀ k, bool_decide
                 (k ∈ ["timestamp"; "ping"; "download"; "upload"; "packetLoss"])
               = true →
               partial_alter (λ _, v) key d !! k = d !! k) as Hsame'.
  { intros k Hin%bool_decide_eq_true. by apply Hsame. }
  apply SpeedTestFacts.result_of_reads; unfold SpeedTest.get;
    by rewrite Hsame'.
Qed.

Lemma speed_test_ignores_other_keys_witness :
  let d : gmap string SpeedTest.json :=
    {[ "timestamp" := SpeedTest.JStr "2024-02-29T15:30:00Z" ]} in
  SpeedTest.result_of
    (λ _, Some (SpeedTest.JDict (<["isp" := SpeedTest.JStr "Example"]> d)))
    (λ _, None) "{...}"
  = SpeedTest.result_of (λ _, Some (SpeedTest.JDict d)) (λ _, None) "{...}".
Proof.
  intros d.
  apply (speed_test_ignores_other_keys (λ _, None) "{...}" d "isp"
           (Some (SpeedTest.JStr "Example"))).
  apply (bool_decide_unpack _). vm_compute. exact I.
Defined.

(** X27. A packet loss of [null] is the same as no packet loss at all: an
    output with "packetLoss": null gives the result, or the exception, of
    the output without that key. *)
Theorem packet_loss_null_as_absent
    (fromisoformat : string → option Datetime.datetime) (stdout : string)
    (d : gmap string SpeedTest.json) :
  SpeedTest.result_of
    (λ _, Some (SpeedTest.JDict (<["packetLoss" := SpeedTest.JNull]> d)))
    fromisoformat stdout
  = SpeedTest.result_of
      (λ _, Some (SpeedTest.JDict (delete "packetLoss" d)))
      fromisoformat stdout.
Proof.
  apply SpeedTestFacts.result_of_reads; unfold SpeedTest.get;
    by simplify_map_eq.
Qed.

(** X28. From the output to the payload: when the fields of a parsed
    output have the annotated types, the payload built from it has the key
    "d5" exactly when the output has a "packetLoss" that is not [null],
    and then with that value; the keys of the payload are "d1" to "d4",
    "created", and "d5" only in that case. *)
Theorem packet_loss_reaches_payload (loads : string → option SpeedTest.json)
    (fromisoformat : string → option Datetime.datetime) (stdout : string)
    (d : gmap string SpeedTest.json) (f : SpeedTest.fields)
    (r : _SpeedTestResult) (p : gmap string pyvalue) :
  loads stdout = Some (SpeedTest.JDict d) →
  SpeedTest.result_of loads fromisoformat stdout = inr f →
  SpeedTest.as_result f = Some r →
  to_ambient r = Some p →
  p !! "d5" = match d !! "packetLoss" with
              | Some (SpeedTest.JFloat loss) => Some (PyFloat loss)
              | _ => None
              end
  ∧ dom p = list_to_set (["d1"; "d2"; "d3"; "d4"]
                         ++ match d !! "packetLoss" with
                            | Some (SpeedTest.JFloat _) => ["d5"]
                            | _ => []
                            end
                         ++ ["created"]).
Proof.
  intros Hl Hf Hr Hp.
  assert (SpeedTest.f_packet_loss f
          = default SpeedTest.JNull (d !! "packetLoss")) as Hloss.
  { unfold SpeedTest.result_of in Hf. rewrite Hl in Hf.
    repeat (apply SpeedTestFacts.bind_inr in Hf as (? & _ & Hf)).
    by injection Hf as <-. }
  assert (packet_loss r
          = match d !! "packetLoss" with
            | Some (SpeedTest.JFloat loss) => Some loss
            | _ => None
            end) as Hpl.
  { unfold SpeedTest.as_result in Hr. rewrite Hloss in Hr.
    destruct (SpeedTest.f_latency_ms f), (SpeedTest.f_jitter_ms f),
      (SpeedTest.f_download_bytesps f), (SpeedTest.f_upload_bytesps f);
      try done.
    destruct (d !! "packetLoss") as [[| | | | | |]|]; simpl in Hr; try done;
      by injection Hr as <-. }
  destruct (to_ambient_lookups r p Hp)
    as (_ & _ & _ & _ & _ & _ & _ & _ & _ & _ & H5 & _ & Hdom).
  rewrite H5, Hdom, Hpl.
  by destruct (d !! "packetLoss") as [[| | | | | |]|].
Qed.

Lemma packet_loss_reaches_payload_witness :
  let loss := S754_finite false 4503599627370496 (-52) in
  ∃ p, to_ambient (sample_result (Some loss)) = Some p ∧
       p !! "d5" = Some (PyFloat loss) ∧
       dom p = list_to_set ["d1"; "d2"; "d3"; "d4"; "d5"; "created"].
Proof.
  intros loss.
  destruct (to_ambient (sample_result (Some loss))) as [p|] eqn:Hp;
    [|vm_compute in Hp; discriminate].
  exists p. split; [done|].
  exact (packet_loss_reaches_payload
           (λ _, Some (SpeedTest.JDict
                         (SpeedTest.sample_output (SpeedTest.JFloat loss))))
           (λ _, Some (Datetime.Make 2024 2 29 15 30 0 0 0)) "{...}"
           (SpeedTest.sample_output (SpeedTest.JFloat loss))
           (SpeedTest.Fields (Datetime.Make 2024 2 29 15 30 0 0 0)
              (SpeedTest.JFloat (S754_finite false 6755399441055744 (-49)))
              (SpeedTest.JFloat (S754_finite false 4503599627370496 (-52)))
              (SpeedTest.JInt 12500000) (SpeedTest.JInt 6250000)
              (SpeedTest.JFloat loss))
           (sample_result (Some loss)) p eq_refl eq_refl eq_refl Hp).
Defined.
